(** * registry: the LRU cache, the raft-gated store and the dashboard tree

  A shallow embedding of three parts of the registry sources:
  - [LruCache]   store/cache.go   (the byte-budgeted LRU cache),
  - [RaftStore]  store/store.go   (leadership gate, FSM apply, prefix scan),
  - [Dashboards] tree/dashboard.go (dashboard and panel maintenance).

  Go values are modelled as follows.  A [[]byte] and a Go [string] are both
  byte sequences and the conversions [string(b)] / [[]byte(s)] are the
  identity, so both are [string].  Go [int] and [uint64] are [Z] with the
  wrap-around written out.  A Go [map] is a [gmap]; where the program
  ranges over a map the model ranges over [map_to_list], one of the orders
  Go may pick.  A pointer to a [list.Element] is a natural number naming a
  cell of an explicit store of cells. *)

From Stdlib Require Import ZArith String List Lia.
From stdpp Require Import gmap strings list fin_maps sorting.

Local Open Scope Z_scope.
Set Warnings "-clear-no-such-hyp".

(** ** Go base types *)

Module Go.

(** [len(s)] of a byte sequence. *)
Definition len (s : string) : Z := Z.of_nat (String.length s).

(** Conversion to [uint64]: arithmetic modulo 2^64. *)
Definition uint64 (x : Z) : Z := x mod 2 ^ 64.

(** Conversion to (64 bit) [int]: two's complement wrap-around. *)
Definition int (x : Z) : Z := (x + 2 ^ 63) mod 2 ^ 64 - 2 ^ 63.

(** What a call leaves behind: it returns, or the goroutine panics. *)
Inductive outcome (A : Type) : Type :=
| Returns (a : A)
| Panics (msg : string).
Global Arguments Returns {A} a.
Global Arguments Panics {A} msg.

(** [s[i] = x] on a slice: a run-time panic when [i] is out of range. *)
Definition slice_store {A} (s : list A) (i : Z) (x : A) : outcome (list A) :=
  if (0 <=? i) && (i <? Z.of_nat (length s))
  then Returns (<[Z.to_nat i := x]> s)
  else Panics "index out of range".

(** [s[i]] on a slice. *)
Definition slice_load {A} (s : list A) (i : Z) : outcome A :=
  if (0 <=? i) && (i <? Z.of_nat (length s))
  then match s !! Z.to_nat i with
       | Some x => Returns x
       | None => Panics "index out of range"
       end
  else Panics "index out of range".

(** Sequencing of steps that may panic. *)
Definition bind {A B} (m : outcome A) (k : A → outcome B) : outcome B :=
  match m with
  | Returns a => k a
  | Panics msg => Panics msg
  end.

(** [s[i:]]: a run-time panic unless [0 <= i <= len(s)]. *)
Definition slice_from {A} (s : list A) (i : Z) : outcome (list A) :=
  if (0 <=? i) && (i <=? Z.of_nat (length s))
  then Returns (drop (Z.to_nat i) s)
  else Panics "slice bounds out of range".

(** [s[:j]]: a run-time panic unless [0 <= j <= len(s)] (the capacity of
    the slices concerned is their length). *)
Definition slice_to {A} (s : list A) (j : Z) : outcome (list A) :=
  if (0 <=? j) && (j <=? Z.of_nat (length s))
  then Returns (take (Z.to_nat j) s)
  else Panics "slice bounds out of range".

(** [copy(dst, src)]: the contents of [dst] afterwards.  It copies
    min(len(dst), len(src)) elements and copes with overlap. *)
Definition copy {A} (dst src : list A) : list A :=
  take (length dst) src ++ drop (length src) dst.

(** Go [error] values, as far as the program tells them apart. *)
Inductive error : Type :=
| ErrNotLeader                              (* raft.ErrNotLeader *)
| ErrRaft (msg : string)                    (* any other error of a raft future *)
| ErrInvalidParam                           (* common.ErrInvalidParam *)
| errors_New (msg : string)                 (* errors.New(msg) *)
| Errorf_d (format : string) (n : Z)        (* fmt.Errorf(format, n), one %d *)
| Errorf_s (format : string) (e : error)    (* fmt.Errorf(format, err), one %s *)
| ErrJSON (msg : string)                    (* an error of encoding/json *)
| ErrBolt (msg : string).                   (* an error of the bolt engine *)

Global Instance error_eq_dec : EqDecision error.
Proof. intros x y. unfold Decision. decide equality; solve [apply Z.eq_dec | apply string_dec]. Defined.

End Go.

(** ** store/cache.go *)

Module LruCache.
Import Go.

(** [entry] is used to hold a value in the evictList. *)
Record entry : Type := Entry { bucket : string; key : string; value : string }.

Definition Size (e : entry) : Z := len (bucket e) + len (key e) + len (value e).

(** A [*list.Element]. *)
Abbreviation Element := nat (only parsing).

(** [Cache].  [evictList] is the recency list, front first.  [cells] holds
    the [Value] (an [*entry]) of every element ever pushed; an element
    unlinked from the list keeps its cell, as [RemoveOldest] still reads
    it.  [onEvict] tells whether a callback is installed and [evicted]
    records the calls made to it, oldest call first. *)
Record Cache : Type := MkCache {
  count : Z;
  evictList : list Element;
  cells : gmap nat entry;
  nextElement : nat;
  items : gmap string (gmap string nat);
  onEvict : bool;
  evicted : list entry;
  size : Z;
  maxSize : Z
}.

Definition set_count (n : Z) (c : Cache) : Cache :=
  MkCache n (evictList c) (cells c) (nextElement c) (items c) (onEvict c)
          (evicted c) (size c) (maxSize c).
Definition set_evictList (l : list Element) (c : Cache) : Cache :=
  MkCache (count c) l (cells c) (nextElement c) (items c) (onEvict c)
          (evicted c) (size c) (maxSize c).
Definition set_cells (h : gmap nat entry) (c : Cache) : Cache :=
  MkCache (count c) (evictList c) h (nextElement c) (items c) (onEvict c)
          (evicted c) (size c) (maxSize c).
Definition set_nextElement (n : nat) (c : Cache) : Cache :=
  MkCache (count c) (evictList c) (cells c) n (items c) (onEvict c)
          (evicted c) (size c) (maxSize c).
Definition set_items (m : gmap string (gmap string nat)) (c : Cache) : Cache :=
  MkCache (count c) (evictList c) (cells c) (nextElement c) m (onEvict c)
          (evicted c) (size c) (maxSize c).
Definition set_evicted (l : list entry) (c : Cache) : Cache :=
  MkCache (count c) (evictList c) (cells c) (nextElement c) (items c) (onEvict c)
          l (size c) (maxSize c).
Definition set_size (n : Z) (c : Cache) : Cache :=
  MkCache (count c) (evictList c) (cells c) (nextElement c) (items c) (onEvict c)
          (evicted c) n (maxSize c).

(** *** container/list, as far as the cache uses it *)

(** The entry an element points to, [e.Value] in the source. *)
Definition Value (c : Cache) (e : Element) : entry :=
  default (Entry "" "" "") (cells c !! e).

(** [l.Remove(e)]: unlinks [e] if it is an element of [l]. *)
Fixpoint unlink (e : Element) (l : list Element) : list Element :=
  match l with
  | [] => []
  | x :: l' => if decide (x = e) then l' else x :: unlink e l'
  end.

(** [l.MoveToFront(e)]: nothing happens when [e] is not an element of [l]. *)
Definition MoveToFront (e : Element) (l : list Element) : list Element :=
  if decide (e ∈ l) then e :: unlink e l else l.

(** [l.Back()]. *)
Definition Back (l : list Element) : option Element := last l.

(** [c.onEvict(bucket, key, value)] behind its [c.onEvict != nil] guard. *)
Definition callOnEvict (b k v : string) (c : Cache) : Cache :=
  if onEvict c then set_evicted (evicted c ++ [Entry b k v]) c else c.

(** *** The cache *)

Definition NewCache (maxSize : Z) (onEvict : bool) : Cache :=
  {| count := 0; evictList := []; cells := ∅; nextElement := 0%nat;
     items := ∅; onEvict := onEvict; evicted := []; size := 0;
     maxSize := maxSize |}.

(** [removeElement] is used to remove a given list element from the cache. *)
Definition removeElement (e : Element) (c : Cache) : Cache :=
  let c := set_evictList (unlink e (evictList c)) c in
  let kv := Value c e in
  match items c !! bucket kv with
  | Some bkt =>
      let c := set_items (<[bucket kv := delete (key kv) bkt]> (items c)) c in
      let c := set_size (uint64 (size c - uint64 (Size kv))) c in
      let c := set_count (int (count c - 1)) c in
      callOnEvict (bucket kv) (key kv) (value kv) c
  | None => c
  end.

(** [removeOldest] removes the oldest item from the cache. *)
Definition removeOldest (c : Cache) : Cache :=
  match Back (evictList c) with
  | Some ent => removeElement ent c
  | None => c
  end.

(** The body of the inner loop of [Purge], [for k, v := range keys]. *)
Definition Purge_key (bkt : string) (c : Cache) (kv : string * nat) : Cache :=
  let '(k, v) := kv in
  let c := callOnEvict bkt k (value (Value c v)) c in
  set_items (delete bkt (items c)) c.

(** The body of the outer loop, [for bucket, keys := range c.items]. *)
Definition Purge_bucket (c : Cache) (bk : string * gmap string nat) : Cache :=
  let '(bkt, keys) := bk in
  foldl (Purge_key bkt) c (map_to_list keys).

(** [Purge] is used to completely clear the cache. *)
Definition Purge (c : Cache) : Cache :=
  let c := foldl Purge_bucket c (map_to_list (items c)) in
  let c := set_count 0 c in
  let c := set_size 0 c in
  set_evictList [] c.

(** [Add] adds a value to the cache.  Returns true if an eviction occurred. *)
Definition Add (bucketName key value : string) (c : Cache) : Cache * bool :=
  let bucketKey := bucketName in
  let bkt := default ∅ (items c !! bucketKey) in
  match bkt !! key with
  | Some ent =>
      let c := set_evictList (MoveToFront ent (evictList c)) c in
      let old := Value c ent in
      let c := set_cells (<[ent := Entry (bucket old) (LruCache.key old) value]> (cells c)) c in
      (c, false)
  | None =>
      let ent := Entry bucketName key value in
      let e := nextElement c in
      let c := set_nextElement (S e) c in
      let c := set_cells (<[e := ent]> (cells c)) c in
      let c := set_evictList (e :: evictList c) c in
      let bkt := <[key := e]> bkt in
      let c := set_items (<[bucketKey := bkt]> (items c)) c in
      let c := set_size (uint64 (size c + uint64 (Size ent))) c in
      let c := set_count (int (count c + 1)) c in
      let evict := (0 <? maxSize c) && (maxSize c <? size c) in
      if evict then (removeOldest c, true) else (c, false)
  end.

(** [Get] looks up a key's value from the cache. *)
Definition Get (bucket key : string) (c : Cache) : Cache * (option string) :=
  match items c !! bucket with
  | Some b =>
      match b !! key with
      | Some ent =>
          let c := set_evictList (MoveToFront ent (evictList c)) c in
          (c, Some (value (Value c ent)))
      | None => (c, None)
      end
  | None => (c, None)
  end.

(** [Contains] checks if a key is in the cache, without updating the
    recent-ness. *)
Definition Contains (bucket key : string) (c : Cache) : bool :=
  match items c !! bucket with
  | Some b => bool_decide (is_Some (b !! key))
  | None => false
  end.

(** [Peek] returns the key value without updating the recent-ness. *)
Definition Peek (bucket key : string) (c : Cache) : option string :=
  match items c !! bucket with
  | Some b =>
      match b !! key with
      | Some ent => Some (value (Value c ent))
      | None => None
      end
  | None => None
  end.

(** [RemoveBucket] removes the provided bucket from the cache, returning
    if the bucket was contained. *)
Definition RemoveBucket (bucket : string) (c : Cache) : Cache * bool :=
  match items c !! bucket with
  | Some b =>
      let c := foldl (fun c '(_, ent) => removeElement ent c) c (map_to_list b) in
      (set_items (delete bucket (items c)) c, true)
  | None => (c, false)
  end.

(** [Remove] removes the provided key from the cache, returning if the key
    was contained. *)
Definition Remove (bucket key : string) (c : Cache) : Cache * bool :=
  match items c !! bucket with
  | Some b =>
      match b !! key with
      | Some ent => (removeElement ent c, true)
      | None => (c, false)
      end
  | None => (c, false)
  end.

(** [RemoveOldest] removes the oldest item from the cache. *)
Definition RemoveOldest (c : Cache) : Cache * option entry :=
  match Back (evictList c) with
  | Some ent =>
      let c := removeElement ent c in
      (c, Some (Value c ent))
  | None => (c, None)
  end.

(** [GetOldest] returns the oldest entry. *)
Definition GetOldest (c : Cache) : option entry :=
  match Back (evictList c) with
  | Some ent => Some (Value c ent)
  | None => None
  end.

(** The loop of [Keys]: [ents] are the elements still to visit, walking
    from the back with [ent.Prev()]. *)
Fixpoint Keys_loop (c : Cache) (ents : list Element) (keys : list string) (i : Z)
  : outcome (list string) :=
  match ents with
  | [] => Returns keys
  | ent :: rest =>
      match slice_store keys i (bucket (Value c ent) +:+ "-" +:+ key (Value c ent)) with
      | Returns keys => Keys_loop c rest keys (i + 1)
      | Panics msg => Panics msg
      end
  end.

(** [Keys] returns a slice of the keys in the cache, from oldest to newest.
    [var keys []string] is the nil slice, of length 0. *)
Definition Keys (c : Cache) : outcome (list string) :=
  Keys_loop c (rev (evictList c)) [] 0.

(** [Len] returns the number of items in the cache. *)
Definition Len (c : Cache) : Z := Z.of_nat (length (evictList c)).


(** *** Observations used by the specifications *)

(** The resident entries, most recently used first. *)
Definition entries (c : Cache) : list entry := Value c <$> evictList c.

(** The size the resident entries really occupy:
    the sum over entries of len(bucket)+len(key)+len(value). *)
Definition accounted (c : Cache) : Z :=
  foldr (fun e acc => Size e + acc) 0 (entries c).

(** Both entries are stored under the same (bucket, key) pair. *)
Definition same_slot (b k : string) (e : entry) : Prop :=
  bucket e = b ∧ key e = k.

Global Instance same_slot_dec b k e : Decision (same_slot b k e).
Proof. unfold same_slot. apply _. Defined.

(** The representation invariant: the recency list and the two-level index
    describe the same set of elements. *)
Record wf (c : Cache) : Prop := {
  wf_nodup : NoDup (evictList c);
  wf_linked : ∀ e, e ∈ evictList c →
    ∃ kv bkt, cells c !! e = Some kv ∧ items c !! bucket kv = Some bkt
              ∧ bkt !! key kv = Some e;
  wf_indexed : ∀ b bkt k e, items c !! b = Some bkt → bkt !! k = Some e →
    e ∈ evictList c ∧ ∃ kv, cells c !! e = Some kv ∧ bucket kv = b ∧ key kv = k;
  wf_fresh : ∀ e, is_Some (cells c !! e) → (e < nextElement c)%nat
}.

(** The calls of the public interface that the claims range over. *)
Inductive op : Type :=
| OpAdd (b k v : string)
| OpGet (b k : string)
| OpPeek (b k : string)
| OpRemove (b k : string)
| OpRemoveBucket (b : string)
| OpRemoveOldest
| OpPurge.

Definition step (c : Cache) (o : op) : Cache :=
  match o with
  | OpAdd b k v => (Add b k v c).1
  | OpGet b k => (Get b k c).1
  | OpPeek b k => c
  | OpRemove b k => (Remove b k c).1
  | OpRemoveBucket b => (RemoveBucket b c).1
  | OpRemoveOldest => (RemoveOldest c).1
  | OpPurge => Purge c
  end.

Definition run (ops : list op) (c : Cache) : Cache := foldl step c ops.

(** The cache right after [Add] has linked and accounted a new entry,
    before it verifies the size. *)
Definition pushed (b k v : string) (c : Cache) : Cache :=
  let e := nextElement c in
  {| count := int (count c + 1);
     evictList := e :: evictList c;
     cells := <[e := Entry b k v]> (cells c);
     nextElement := S e;
     items := <[b := <[k := e]> (default ∅ (items c !! b))]> (items c);
     onEvict := onEvict c;
     evicted := evicted c;
     size := uint64 (size c + uint64 (Size (Entry b k v)));
     maxSize := maxSize c |}.

(** Every index entry of [c'] is an index entry of [c]. *)
Definition index_sub (c' c : Cache) : Prop :=
  ∀ b bkt' k e, items c' !! b = Some bkt' → bkt' !! k = Some e →
    ∃ bkt, items c !! b = Some bkt ∧ bkt !! k = Some e.

(** The (bucket, key) pair an entry is stored under. *)
Definition slot (e : entry) : string * string := (bucket e, key e).

End LruCache.

(** ** github.com/boltdb/bolt, as far as the store uses it

    The engine is a library outside the repository.  The model is the
    contents of an open database: named buckets of key/value pairs, the keys
    of a bucket in byte order.  Disk failures are not modelled. *)

Module Bolt.
Import Go.

Definition MaxKeySize : Z := 32768.
Definition MaxValueSize : Z := 2 ^ 31 - 2.

(** [tx.Bucket(name)]: [None] is the nil bucket. *)
Definition Bucket (db : gmap string (gmap string string)) (name : string)
  : option (gmap string string) := db !! name.

(** [b.Put(key, value)]. *)
Definition Put (b : gmap string string) (key value : string)
  : error + gmap string string :=
  if len key =? 0 then inl (ErrBolt "key required")
  else if MaxKeySize <? len key then inl (ErrBolt "key too large")
  else if MaxValueSize <? len value then inl (ErrBolt "value too large")
  else inr (<[key := value]> b).

(** [b.Delete(key)]: deleting a key that is not there is not an error. *)
Definition Delete (b : gmap string string) (key : string)
  : error + gmap string string := inr (delete key b).

(** [tx.CreateBucket(name)]. *)
Definition CreateBucket (db : gmap string (gmap string string)) (name : string)
  : error + gmap string (gmap string string) :=
  if len name =? 0 then inl (ErrBolt "bucket name required")
  else match db !! name with
       | Some _ => inl (ErrBolt "bucket already exists")
       | None => inr (<[name := ∅]> db)
       end.

(** [tx.CreateBucketIfNotExists(name)]. *)
Definition CreateBucketIfNotExists (db : gmap string (gmap string string)) (name : string)
  : error + gmap string (gmap string string) :=
  if len name =? 0 then inl (ErrBolt "bucket name required")
  else match db !! name with
       | Some _ => inr db
       | None => inr (<[name := ∅]> db)
       end.

(** [tx.DeleteBucket(name)]. *)
Definition DeleteBucket (db : gmap string (gmap string string)) (name : string)
  : error + gmap string (gmap string string) :=
  match db !! name with
  | Some _ => inr (delete name db)
  | None => inl (ErrBolt "bucket not found")
  end.

(** Byte order on the pairs of a bucket. *)
Definition key_le (x y : string * string) : Prop := String.leb x.1 y.1 = true.

Global Instance key_le_dec x y : Decision (key_le x y).
Proof. unfold key_le. apply _. Defined.

(** [b.Cursor()]: the pairs of the bucket in key order.  The cursor is the
    list of pairs still ahead; its head is the pair the cursor is at and the
    empty list is the cursor past the last key, where [Seek] and [Next]
    return a nil key. *)
Definition Cursor (b : gmap string string) : list (string * string) :=
  merge_sort key_le (map_to_list b).

(** [c.Seek(seek)]: moves to the first key not below [seek]. *)
Fixpoint Seek (seek : string) (c : list (string * string)) : list (string * string) :=
  match c with
  | [] => []
  | kv :: c' => if String.ltb kv.1 seek then Seek seek c' else c
  end.

(** The keys of a bucket are never empty ([Put] refuses the empty key). *)
Definition keys_nonempty (b : gmap string string) : Prop := b !! "" = None.

(** [b.Get(key)]: [None] is the nil value of a key that is not there; the
    value of a key that is there is not nil, even when it is empty. *)
Definition Get (b : gmap string string) (key : string) : option string := b !! key.

End Bolt.

(** ** store/store.go *)

Module RaftStore.
Import Go.

Definition bucketNotFound : error := errors_New "bucket not found".

(** [raftTimeout], in nanoseconds. *)
Definition raftTimeout : Z := 10 * 1000000000.

Inductive commandType : Type :=
| update | batch | createBucket | removeBucket | removeKey
| createBucketIfNotExist | setSession | delSession | setPeer | restore.

(** [raft.RaftState]. *)
Inductive RaftState : Type := Follower | Candidate | Leader | Shutdown.

Global Instance RaftState_eq_dec : EqDecision RaftState.
Proof. solve_decision. Defined.

(** [model.Row].  The declaration is outside the sources at hand; the fields
    are the ones the store reads and writes.  A nil [Value] and an empty one
    are both the empty byte sequence. *)
Record Row : Type := MkRow { Bucket : string; Key : string; Value : string }.

Record databaseSub : Type := MkDatabaseSub {
  Name : string;        (* bucket name for bucket management *)
  BatchRows : list Row  (* the field [Batch], for batch update *)
}.

(** [sessionSub]: key and value are opaque tokens. *)
Record sessionSub : Type := MkSessionSub { SKey : string; SValue : string }.

(** The value a raft future resolves to: [f.Error()] and, when that is nil,
    the [error] field of the [fsmGenericResponse] behind [f.Response()]. *)
Record ApplyFuture : Type := MkFuture {
  Error : option error;
  Response : option error
}.

Section store.

(** [json.RawMessage], the encoded form of commands and their payloads. *)
Context {RawMessage : Type}.

Record command : Type := MkCommand { Typ : commandType; Sub : RawMessage }.

(** What the store hands to [json.Marshal]. *)
Inductive jsonValue : Type :=
| JDatabaseSub (d : databaseSub)
| JSessionSub (d : sessionSub)
| JCommand (c : command).

(** encoding/json is outside the repository: any encoder and decoders. *)
Record Json : Type := MkJson {
  Marshal : jsonValue → error + RawMessage;
  Unmarshal_databaseSub : RawMessage → error + databaseSub;
  Unmarshal_sessionSub : RawMessage → error + sessionSub
}.

(** [Store], one node.  [raftState] is what [s.raft.State()] returns.
    [proposed] is not a field of the source: it records the arguments of the
    calls to [s.raft.Apply], latest first, so that "nothing was proposed"
    can be said. *)
Record Store : Type := MkStore {
  raftState : RaftState;
  db : gmap string (gmap string string);
  cache : LruCache.Cache;
  session : gmap string string;
  proposed : list RawMessage
}.

Definition set_db (d : gmap string (gmap string string)) (s : Store) : Store :=
  MkStore (raftState s) d (cache s) (session s) (proposed s).
Definition set_cache (c : LruCache.Cache) (s : Store) : Store :=
  MkStore (raftState s) (db s) c (session s) (proposed s).
Definition set_session (m : gmap string string) (s : Store) : Store :=
  MkStore (raftState s) (db s) (cache s) m (proposed s).
Definition set_proposed (l : list RawMessage) (s : Store) : Store :=
  MkStore (raftState s) (db s) (cache s) (session s) l.

Variable json : Json.

(** The consensus module behind [s.raft.Apply(b, timeout)]: it may do
    anything to the node (run the FSM on committed entries, lose
    leadership) before the future resolves. *)
Variable raft_Apply : Store → RawMessage → Z → Store * ApplyFuture.

Definition newCommand (t : commandType) (d : jsonValue) : error + command :=
  match Marshal json d with
  | inl err => inl err
  | inr b => inr (MkCommand t b)
  end.

(** The statements every write method ends with, from [newCommand] on:
    encode the command, hand it to raft, wait for the future. *)
Definition submit (t : commandType) (d : jsonValue) (s : Store)
  : Store * option error :=
  match newCommand t d with
  | inl err => (s, Some err)
  | inr c =>
      match Marshal json (JCommand c) with
      | inl err => (s, Some err)
      | inr b =>
          let s := set_proposed (b :: proposed s) s in
          let '(s, f) := raft_Apply s b raftTimeout in
          match Error f with
          | Some e =>
              if decide (e = ErrNotLeader) then (s, Some ErrNotLeader)
              else (s, Some e)
          | None => (s, Response f)
          end
      end
  end.

(** [Update] the value for the given key. *)
Definition Update (bucket key value : string) (s : Store) : Store * option error :=
  if decide (raftState s ≠ Leader) then (s, Some ErrNotLeader) else
  let rows := [MkRow bucket key value] in
  let d := MkDatabaseSub "" rows in
  submit update (JDatabaseSub d) s.

(** [Batch] update the values for the given keys. *)
Definition Batch (rows : list Row) (s : Store) : Store * option error :=
  if decide (raftState s ≠ Leader) then (s, Some ErrNotLeader) else
  if Z.of_nat (length rows) =? 0 then (s, Some (errors_New "no data in batch")) else
  let d := MkDatabaseSub "" rows in
  submit batch (JDatabaseSub d) s.

(** [CreateBucket] create a bucket. *)
Definition CreateBucket (name : string) (s : Store) : Store * option error :=
  if decide (raftState s ≠ Leader) then (s, Some ErrNotLeader) else
  let d := MkDatabaseSub name [] in
  submit createBucket (JDatabaseSub d) s.

(** Create a bucket if not exist. *)
Definition CreateBucketIfNotExist (name : string) (s : Store) : Store * option error :=
  if decide (raftState s ≠ Leader) then (s, Some ErrNotLeader) else
  let d := MkDatabaseSub name [] in
  submit createBucketIfNotExist (JDatabaseSub d) s.

Definition RemoveKey (bucket key : string) (s : Store) : Store * option error :=
  if decide (raftState s ≠ Leader) then (s, Some ErrNotLeader) else
  let rows := [MkRow bucket key ""] in
  let d := MkDatabaseSub "" rows in
  submit removeKey (JDatabaseSub d) s.

(** [RemoveBucket] remove a bucket. *)
Definition RemoveBucket (name : string) (s : Store) : Store * option error :=
  if decide (raftState s ≠ Leader) then (s, Some ErrNotLeader) else
  let d := MkDatabaseSub name [] in
  submit removeBucket (JDatabaseSub d) s.

(** [SetSession] set a session. *)
Definition SetSession (k v : string) (s : Store) : Store * option error :=
  if decide (raftState s ≠ Leader) then (s, Some ErrNotLeader) else
  let d := MkSessionSub k v in
  submit setSession (JSessionSub d) s.

(** [DelSession] delete a session by given key. *)
Definition DelSession (k : string) (s : Store) : Store * option error :=
  if decide (raftState s ≠ Leader) then (s, Some ErrNotLeader) else
  let d := MkSessionSub k "" in
  submit delSession (JSessionSub d) s.

(** [Restore] restores backup data file. *)
Definition Restore (backupfile : string) (s : Store) : Store * option error :=
  if decide (raftState s ≠ Leader) then (s, Some ErrNotLeader) else
  let d := MkDatabaseSub backupfile [] in
  submit restore (JDatabaseSub d) s.

(** The write calls of the public interface. *)
Inductive write : Type :=
| WUpdate (bucket key value : string)
| WBatch (rows : list Row)
| WCreateBucket (name : string)
| WCreateBucketIfNotExist (name : string)
| WRemoveKey (bucket key : string)
| WRemoveBucket (name : string)
| WSetSession (k v : string)
| WDelSession (k : string)
| WRestore (backupfile : string).

Definition call (w : write) (s : Store) : Store * option error :=
  match w with
  | WUpdate b k v => Update b k v s
  | WBatch rows => Batch rows s
  | WCreateBucket n => CreateBucket n s
  | WCreateBucketIfNotExist n => CreateBucketIfNotExist n s
  | WRemoveKey b k => RemoveKey b k s
  | WRemoveBucket n => RemoveBucket n s
  | WSetSession k v => SetSession k v s
  | WDelSession k => DelSession k s
  | WRestore f => Restore f s
  end.

(** The loop of [ViewPrefix]: [cur] is the cursor, whose head is (k, v). *)
Fixpoint ViewPrefix_loop (keyPrefix : string) (cur : list (string * string))
    (result : gmap string string) : gmap string string :=
  match cur with
  | [] => result
  | (k, v) :: next =>
      if negb (len k =? 0) && String.prefix keyPrefix k then
        let result := if negb (len v =? 0) then <[k := v]> result else result in
        ViewPrefix_loop keyPrefix next result
      else result
  end.

(** View bucket by keyPrefix. *)
Definition ViewPrefix (bucket keyPrefix : string) (s : Store)
  : gmap string string * option error :=
  let result : gmap string string := ∅ in
  match Bolt.Bucket (db s) bucket with
  | None => (result, Some bucketNotFound)
  | Some b =>
      let c := Bolt.Cursor b in
      (ViewPrefix_loop keyPrefix (Bolt.Seek keyPrefix c) result, None)
  end.

(** What a scan for [p] is to find in bucket [b]: the pairs whose key starts
    with [p] and whose value is not empty. *)
Definition scanned (p : string) (b : gmap string string) : gmap string string :=
  filter (λ kv, String.prefix p kv.1 = true ∧ kv.2 ≠ "") b.

(** *** The FSM *)

Definition applyUpdate (sub : RawMessage) (s : Store) : Store * option error :=
  match Unmarshal_databaseSub json sub with
  | inl err => (s, Some err)
  | inr d =>
      let rows := BatchRows d in
      if negb (Z.of_nat (length rows) =? 1) then
        (s, Some (Errorf_d "update just accept 1 row data: %d" (Z.of_nat (length rows))))
      else
        match rows with
        | row :: _ =>
            (* f.db.Update(func(tx) error {...}) *)
            match Bolt.Bucket (db s) (Bucket row) with
            | None => (s, Some bucketNotFound)
            | Some b =>
                let put := Bolt.Put b (Key row) (Value row) in
                (* remove cache *)
                let s := set_cache (LruCache.Remove (Bucket row) (Key row) (cache s)).1 s in
                match put with
                | inl err => (s, Some err)      (* the transaction rolls back *)
                | inr b => (set_db (<[Bucket row := b]> (db s)) s, None)
                end
            end
        | [] => (s, None)
        end
  end.

Definition applyRemoveKey (sub : RawMessage) (s : Store) : Store * option error :=
  match Unmarshal_databaseSub json sub with
  | inl err => (s, Some err)
  | inr d =>
      let rows := BatchRows d in
      if negb (Z.of_nat (length rows) =? 1) then
        (s, Some (Errorf_d "delete key just accept 1 row data: %d" (Z.of_nat (length rows))))
      else
        match rows with
        | row :: _ =>
            match Bolt.Bucket (db s) (Bucket row) with
            | None => (s, Some bucketNotFound)
            | Some b =>
                let del := Bolt.Delete b (Key row) in
                (* remove cache *)
                let s := set_cache (LruCache.Remove (Bucket row) (Key row) (cache s)).1 s in
                match del with
                | inl err => (s, Some err)
                | inr b => (set_db (<[Bucket row := b]> (db s)) s, None)
                end
            end
        | [] => (s, None)
        end
  end.

Definition applyCreateBucket (sub : RawMessage) (s : Store) : Store * option error :=
  match Unmarshal_databaseSub json sub with
  | inl err => (s, Some err)
  | inr d =>
      let name := Name d in
      (* remove cache at first *)
      let s := set_cache (LruCache.RemoveBucket name (cache s)).1 s in
      match Bolt.CreateBucket (db s) name with
      | inl err => (s, Some (Errorf_s "create bucket: %s" err))
      | inr d => (set_db d s, None)
      end
  end.

Definition applyCreateBucketIfNotExist (sub : RawMessage) (s : Store)
  : Store * option error :=
  match Unmarshal_databaseSub json sub with
  | inl err => (s, Some err)
  | inr d =>
      let name := Name d in
      (* remove cache at first *)
      let s := set_cache (LruCache.RemoveBucket name (cache s)).1 s in
      match Bolt.CreateBucketIfNotExists (db s) name with
      | inl err => (s, Some (Errorf_s "create bucket if not exist: %s" err))
      | inr d => (set_db d s, None)
      end
  end.

Definition applyRemoveBucket (sub : RawMessage) (s : Store) : Store * option error :=
  match Unmarshal_databaseSub json sub with
  | inl err => (s, Some err)
  | inr d =>
      let name := Name d in
      match Bolt.DeleteBucket (db s) name with
      | inl err => (s, Some (Errorf_s "remove bucket: %s - %s" err))
      | inr d =>
          (* remove cache at last *)
          let s := set_cache (LruCache.RemoveBucket name (cache s)).1 s in
          (set_db d s, None)
      end
  end.

(** Modelled from the spec: the session table ([LodaSession], declared in a
    file that is not at hand) is an in-memory map with the operations
    [Get], [Set] and [Delete]. *)
Definition session_Set (k v : string) (m : gmap string string) : gmap string string :=
  <[k := v]> m.
Definition session_Delete (k : string) (m : gmap string string) : gmap string string :=
  delete k m.

Definition applySetSession (sub : RawMessage) (s : Store) : Store * option error :=
  match Unmarshal_sessionSub json sub with
  | inl err => (s, Some err)
  | inr d => (set_session (session_Set (SKey d) (SValue d) (session s)) s, None)
  end.

Definition applyDelSession (sub : RawMessage) (s : Store) : Store * option error :=
  match Unmarshal_sessionSub json sub with
  | inl err => (s, Some err)
  | inr d => (set_session (session_Delete (SKey d) (session s)) s, None)
  end.

(** [View] returns the value for the given key. *)
Definition View (bucket key : string) (s : Store)
  : Store * (option string * option error) :=
  let '(c, hit) := LruCache.Get bucket key (cache s) in
  let s := set_cache c s in
  match hit with
  | Some v => (s, (Some v, None))
  | None =>
      match Bolt.Bucket (db s) bucket with
      | None => (s, (None, Some bucketNotFound))
      | Some b =>
          let value := Bolt.Get b key in
          (* if the key not exist, bolt will return nil. *)
          match value with
          | Some v => (set_cache (LruCache.Add bucket key v (cache s)).1 s, (Some v, None))
          | None => (s, (None, None))
          end
      end
  end.

(** Every bucket of the database satisfies what the engine guarantees. *)
Definition db_valid (s : Store) : Prop :=
  ∀ name b, db s !! name = Some b → Bolt.keys_nonempty b.

(** The cache agrees with the database: it is well formed and whatever
    value it holds for a pair is the value the database has for that pair. *)
Definition coherent (s : Store) : Prop :=
  LruCache.wf (cache s)
  ∧ ∀ b k v, LruCache.Peek b k (cache s) = Some v →
      ∃ m, db s !! b = Some m ∧ m !! k = Some v.

(** The loop of [applySetPeer], [for k, v := range d]. *)
Definition applySetPeer_loop (d APIPeers : gmap string string) : gmap string string :=
  foldl (fun m '(k, v) => <[k := v]> m) APIPeers (map_to_list d).

(** [applySetPeer], on the map [f.meta.APIPeers]; the decoder of a
    [peersSub] is a parameter like the rest of encoding/json. *)
Definition applySetPeer (Unmarshal_peersSub : RawMessage → error + gmap string string)
    (sub : RawMessage) (APIPeers : gmap string string)
  : gmap string string * option error :=
  match Unmarshal_peersSub sub with
  | inl err => (APIPeers, Some err)
  | inr d => (applySetPeer_loop d APIPeers, None)
  end.

(** The body of the loop of [APIPeers], [for k, v := range s.meta.APIPeers];
    the state is the stored map and the map being built. *)
Definition APIPeers_step (ContainsString : list string → string → bool)
    (raftPeers : list string)
    (st : gmap string string * gmap string string) (kv : string * string)
  : gmap string string * gmap string string :=
  let '(stored, apiPeers) := st in
  let '(k, v) := kv in
  if negb (ContainsString raftPeers k)
  then (delete k stored, apiPeers)
  else (stored, <[k := v]> apiPeers).

(** [APIPeers] returns the map of Raft addresses to API addresses, and
    deletes the records of addresses that are not in the cluster.  [Peers]
    is what [s.peerStore.Peers()] returns and [ContainsString] is
    [common.ContainsString], which lives outside the sources at hand. *)
Definition APIPeers (ContainsString : list string → string → bool)
    (Peers : error + list string) (stored : gmap string string)
  : gmap string string * (error + gmap string string) :=
  match Peers with
  | inl err => (stored, inl err)
  | inr raftPeers =>
      let '(stored, apiPeers) :=
        foldl (APIPeers_step ContainsString raftPeers) (stored, ∅) (map_to_list stored) in
      (stored, inr apiPeers)
  end.

End store.

Global Arguments command : clear implicits.
Global Arguments jsonValue : clear implicits.
Global Arguments Json : clear implicits.
Global Arguments Store : clear implicits.
Global Arguments coherent {RawMessage} s.
Global Arguments db_valid {RawMessage} s.

End RaftStore.

(** ** tree/dashboard.go *)

Module Dashboards.
Import Go.

Notation "'do' x <- m ; k" := (bind m (fun x => k))
  (at level 10, x name, m at level 100, k at level 200, only parsing).

(** [model.Target], [model.Panel], [model.Dashboard]: the declarations are
    outside the sources at hand; the fields are the ones dashboard.go reads
    and writes.  A target is opaque here. *)
Record Panel : Type := MkPanel {
  PanelTitle : string;     (* the field [Title] *)
  GraphType : string;
  Targets : list string
}.

Record Dashboard : Type := MkDashboard {
  Title : string;
  Panels : list Panel
}.

Definition dashboardType : string := "dashboard".

(** [make([]model.Panel, n)]. *)
Definition make_Panels (n : nat) : list Panel := replicate n (MkPanel "" "" []).

Definition sort_Ints (l : list Z) : list Z := merge_sort Z.le l.

(** The loop of [invalidOrder], [for i, index := range tmp]. *)
Fixpoint invalidOrder_loop (i : Z) (tmp : list Z) : bool :=
  match tmp with
  | [] => false
  | index :: tmp' => if negb (i =? index) then true else invalidOrder_loop (i + 1) tmp'
  end.

Definition invalidOrder (order : list Z) : bool :=
  let tmp := sort_Ints order in
  invalidOrder_loop 0 tmp.

Section tree.

(** The tree and its store, through the helpers of [Tree] that dashboard.go
    calls and that live in other files: [Tree] is what is stored, reading
    leaves it as it is, and [setByteToStore] is the one way to change it. *)
Context {Tree : Type}.
Variable getNodeIDByNS : Tree → string → error + string.
Variable getByteFromStore : Tree → string → string → error + string.
Variable setByteToStore : Tree → string → string → string → Tree * option error.

(** encoding/json on dashboard lists. *)
Variable json_Unmarshal : string → error + list Dashboard.
Variable json_Marshal : list Dashboard → error + string.

(** [GetDashboard] return the dashboard under the ns. *)
Definition GetDashboard (t : Tree) (ns : string) : error + list Dashboard :=
  match getNodeIDByNS t ns with
  | inl err => inl err
  | inr nodeID =>
      match getByteFromStore t nodeID dashboardType with
      | inl err => inl err
      | inr resByte =>
          if len resByte =? 0 then inr []
          else match json_Unmarshal resByte with
               | inl err => inl err
               | inr rl => inr rl
               end
      end
  end.

(** [SetDashboard] set the dashboard to a node. *)
Definition SetDashboard (t : Tree) (ns : string) (dashboards : list Dashboard)
  : Tree * option error :=
  match getNodeIDByNS t ns with
  | inl err => (t, Some err)
  | inr nodeID =>
      match json_Marshal dashboards with
      | inl err => (t, Some err)
      | inr resNewByte => setByteToStore t nodeID dashboardType resNewByte
      end
  end.

(** [UpdateDashboard] update one dashboard title of ns. *)
Definition UpdateDashboard (t : Tree) (ns : string) (dIndex : Z) (title : string)
  : outcome (Tree * option error) :=
  match GetDashboard t ns with
  | inl err => Returns (t, Some err)
  | inr dashboards =>
      if Z.of_nat (length dashboards) <=? dIndex then Returns (t, Some ErrInvalidParam)
      else
        do d <- slice_load dashboards dIndex;
        do dashboards <- slice_store dashboards dIndex (MkDashboard title (Panels d));
        Returns (SetDashboard t ns dashboards)
  end.

(** [RemoveDashboard] one dashboard of ns. *)
Definition RemoveDashboard (t : Tree) (ns : string) (dIndex : Z)
  : outcome (Tree * option error) :=
  match GetDashboard t ns with
  | inl err => Returns (t, Some err)
  | inr dashboards =>
      if Z.of_nat (length dashboards) <=? dIndex then Returns (t, None)
      else
        do dst <- slice_from dashboards dIndex;
        do src <- slice_from dashboards (dIndex + 1);
        let dashboards := take (Z.to_nat dIndex) dashboards ++ copy dst src in
        do dashboards <- slice_to dashboards (Z.of_nat (length dashboards) - 1);
        Returns (SetDashboard t ns dashboards)
  end.

(** The loop of [ReorderPanel], [for i, order := range newOrder]. *)
Fixpoint ReorderPanel_loop (panels : list Panel) (i : Z) (newOrder : list Z)
    (newPanels : list Panel) : outcome (list Panel) :=
  match newOrder with
  | [] => Returns newPanels
  | order :: rest =>
      do p <- slice_load panels order;
      do newPanels <- slice_store newPanels i p;
      ReorderPanel_loop panels (i + 1) rest newPanels
  end.

(** [ReorderPanel] update the order of panel by newOrder. *)
Definition ReorderPanel (t : Tree) (ns : string) (dIndex : Z) (newOrder : list Z)
  : outcome (Tree * option error) :=
  match GetDashboard t ns with
  | inl err => Returns (t, Some ErrInvalidParam)
  | inr dashboards =>
      if (Z.of_nat (length dashboards) =? 0) || (Z.of_nat (length dashboards) <=? dIndex)
      then Returns (t, Some ErrInvalidParam)
      else
        do d <- slice_load dashboards dIndex;
        if negb (Z.of_nat (length (Panels d)) =? Z.of_nat (length newOrder))
        then Returns (t, Some (errors_New "dashboard name or new order invalid"))
        else if invalidOrder newOrder
        then Returns (t, Some (errors_New "dashboard new order invalid"))
        else
          let newPanels := make_Panels (length (Panels d)) in
          do newPanels <- ReorderPanel_loop (Panels d) 0 newOrder newPanels;
          do dashboards <- slice_store dashboards dIndex (MkDashboard (Title d) newPanels);
          Returns (SetDashboard t ns dashboards)
  end.

(** [AddDashboard] add a dashboard to a ns. *)
Definition AddDashboard (t : Tree) (ns : string) (dashboardData : Dashboard)
  : Tree * option error :=
  match GetDashboard t ns with
  | inl err => (t, Some err)
  | inr dashboards => SetDashboard t ns (dashboards ++ [dashboardData])
  end.

(** [AddPanel] add a panel to a dashboard. *)
Definition AddPanel (t : Tree) (ns : string) (dIndex : Z) (panel : Panel)
  : outcome (Tree * option error) :=
  match GetDashboard t ns with
  | inl err => Returns (t, Some ErrInvalidParam)
  | inr dashboards =>
      if (Z.of_nat (length dashboards) =? 0) || (Z.of_nat (length dashboards) <=? dIndex)
      then Returns (t, Some ErrInvalidParam)
      else
        do d <- slice_load dashboards dIndex;
        do dashboards <- slice_store dashboards dIndex
                           (MkDashboard (Title d) (Panels d ++ [panel]));
        Returns (SetDashboard t ns dashboards)
  end.

(** [dashboards[dIndex].Panels[panelIndex].Title = title]. *)
Definition set_PanelTitle (d : Dashboard) (panelIndex : Z) (title : string)
  : outcome Dashboard :=
  do p <- slice_load (Panels d) panelIndex;
  do ps <- slice_store (Panels d) panelIndex (MkPanel title (GraphType p) (Targets p));
  Returns (MkDashboard (Title d) ps).

(** [dashboards[dIndex].Panels[panelIndex].GraphType = graphType]. *)
Definition set_PanelGraphType (d : Dashboard) (panelIndex : Z) (graphType : string)
  : outcome Dashboard :=
  do p <- slice_load (Panels d) panelIndex;
  do ps <- slice_store (Panels d) panelIndex (MkPanel (PanelTitle p) graphType (Targets p));
  Returns (MkDashboard (Title d) ps).

(** [dashboards[dIndex].Panels[panelIndex].Targets = targets]. *)
Definition set_PanelTargets (d : Dashboard) (panelIndex : Z) (targets : list string)
  : outcome Dashboard :=
  do p <- slice_load (Panels d) panelIndex;
  do ps <- slice_store (Panels d) panelIndex (MkPanel (PanelTitle p) (GraphType p) targets);
  Returns (MkDashboard (Title d) ps).

(** [UpdatePanel] update a panel. *)
Definition UpdatePanel (t : Tree) (ns : string) (dIndex panelIndex : Z)
    (title graphType : string) : outcome (Tree * option error) :=
  match GetDashboard t ns with
  | inl err => Returns (t, Some ErrInvalidParam)
  | inr dashboards =>
      if (Z.of_nat (length dashboards) =? 0) || (Z.of_nat (length dashboards) <=? dIndex)
      then Returns (t, Some ErrInvalidParam)
      else
        do d <- slice_load dashboards dIndex;
        if Z.of_nat (length (Panels d)) <=? panelIndex
        then Returns (t, Some ErrInvalidParam)
        else
          do d <- (if negb (String.eqb title "")
                   then set_PanelTitle d panelIndex title else Returns d);
          do d <- (if negb (String.eqb graphType "")
                   then set_PanelGraphType d panelIndex graphType else Returns d);
          do dashboards <- slice_store dashboards dIndex d;
          Returns (SetDashboard t ns dashboards)
  end.

(** [RemovePanel] remove a panel from a dashboard. *)
Definition RemovePanel (t : Tree) (ns : string) (dIndex panelIndex : Z)
  : outcome (Tree * option error) :=
  match GetDashboard t ns with
  | inl err => Returns (t, Some ErrInvalidParam)
  | inr dashboards =>
      if (Z.of_nat (length dashboards) =? 0) || (Z.of_nat (length dashboards) <=? dIndex)
      then Returns (t, Some ErrInvalidParam)
      else
        do d <- slice_load dashboards dIndex;
        if Z.of_nat (length (Panels d)) <=? panelIndex
        then Returns (t, Some ErrInvalidParam)
        else
          do dst <- slice_from (Panels d) panelIndex;
          do src <- slice_from (Panels d) (panelIndex + 1);
          let panels := take (Z.to_nat panelIndex) (Panels d) ++ copy dst src in
          do panels <- slice_to panels (Z.of_nat (length panels) - 1);
          do dashboards <- slice_store dashboards dIndex (MkDashboard (Title d) panels);
          Returns (SetDashboard t ns dashboards)
  end.

(** [AppendTarget] append a target to panel. *)
Definition AppendTarget (t : Tree) (ns : string) (dIndex panelIndex : Z)
    (target : string) : outcome (Tree * option error) :=
  match GetDashboard t ns with
  | inl err => Returns (t, Some ErrInvalidParam)
  | inr dashboards =>
      if (Z.of_nat (length dashboards) =? 0) || (Z.of_nat (length dashboards) <=? dIndex)
      then Returns (t, Some ErrInvalidParam)
      else
        do d <- slice_load dashboards dIndex;
        if Z.of_nat (length (Panels d)) <=? panelIndex
        then Returns (t, Some ErrInvalidParam)
        else
          do p <- slice_load (Panels d) panelIndex;
          do d <- set_PanelTargets d panelIndex (Targets p ++ [target]);
          do dashboards <- slice_store dashboards dIndex d;
          Returns (SetDashboard t ns dashboards)
  end.

(** [UpdateTarget] update a target. *)
Definition UpdateTarget (t : Tree) (ns : string) (dIndex panelIndex targetIndex : Z)
    (target : string) : outcome (Tree * option error) :=
  match GetDashboard t ns with
  | inl err => Returns (t, Some ErrInvalidParam)
  | inr dashboards =>
      if (Z.of_nat (length dashboards) =? 0) || (Z.of_nat (length dashboards) <=? dIndex)
      then Returns (t, Some ErrInvalidParam)
      else
        do d <- slice_load dashboards dIndex;
        if Z.of_nat (length (Panels d)) <=? panelIndex
        then Returns (t, Some ErrInvalidParam)
        else
          do p <- slice_load (Panels d) panelIndex;
          if Z.of_nat (length (Targets p)) <=? targetIndex
          then Returns (t, Some ErrInvalidParam)
          else
            do targets <- slice_store (Targets p) targetIndex target;
            do d <- set_PanelTargets d panelIndex targets;
            do dashboards <- slice_store dashboards dIndex d;
            Returns (SetDashboard t ns dashboards)
  end.

(** [RemoveTarget] remove update a target. *)
Definition RemoveTarget (t : Tree) (ns : string) (dIndex panelIndex targetIndex : Z)
  : outcome (Tree * option error) :=
  match GetDashboard t ns with
  | inl err => Returns (t, Some ErrInvalidParam)
  | inr dashboards =>
      if (Z.of_nat (length dashboards) =? 0) || (Z.of_nat (length dashboards) <=? dIndex)
      then Returns (t, Some ErrInvalidParam)
      else
        do d <- slice_load dashboards dIndex;
        if Z.of_nat (length (Panels d)) <=? panelIndex
        then Returns (t, Some ErrInvalidParam)
        else
          do p <- slice_load (Panels d) panelIndex;
          if Z.of_nat (length (Targets p)) <=? targetIndex
          then Returns (t, Some ErrInvalidParam)
          else
            do targets <-
              (if targetIndex + 1 <? Z.of_nat (length (Targets p))
               then
                 do dst <- slice_from (Targets p) targetIndex;
                 do src <- slice_from (Targets p) (targetIndex + 1);
                 Returns (take (Z.to_nat targetIndex) (Targets p) ++ copy dst src)
               else Returns (Targets p));
            let length := Z.of_nat (length targets) in
            do targets <- slice_to targets (length - 1);
            do d <- set_PanelTargets d panelIndex targets;
            do dashboards <- slice_store dashboards dIndex d;
            Returns (SetDashboard t ns dashboards)
  end.

End tree.

End Dashboards.

(** ** Concrete surroundings, for running the model

    The store and the tree are stated over any JSON codec, any consensus
    module and any tree storage.  To evaluate them, this module supplies one
    of each: a codec that keeps the structure of what it encodes, a cluster
    of one node, and a tree of one store of byte strings. *)

Module Fixtures.
Import Go.

(** The encoded form of a payload or of a command. *)
Inductive wire : Type :=
| WireDatabaseSub (d : RaftStore.databaseSub)
| WireSessionSub (d : RaftStore.sessionSub)
| WireCommand (t : RaftStore.commandType) (sub : wire).

Definition wire_json : RaftStore.Json wire :=
  {| RaftStore.Marshal := fun v =>
       match v with
       | RaftStore.JDatabaseSub d => inr (WireDatabaseSub d)
       | RaftStore.JSessionSub d => inr (WireSessionSub d)
       | RaftStore.JCommand c => inr (WireCommand (RaftStore.Typ c) (RaftStore.Sub c))
       end;
     RaftStore.Unmarshal_databaseSub := fun w =>
       match w with
       | WireDatabaseSub d => inr d
       | _ => inl (ErrJSON "cannot unmarshal into databaseSub")
       end;
     RaftStore.Unmarshal_sessionSub := fun w =>
       match w with
       | WireSessionSub d => inr d
       | _ => inl (ErrJSON "cannot unmarshal into sessionSub")
       end |}.

(** A cluster of one node: a leader commits at once and its FSM applies the
    entry; any other node refuses.  Commands whose apply function is not
    part of this development are not committed. *)
Definition solo_Apply (s : RaftStore.Store wire) (b : wire) (timeout : Z)
  : RaftStore.Store wire * RaftStore.ApplyFuture :=
  if decide (RaftStore.raftState s ≠ RaftStore.Leader)
  then (s, RaftStore.MkFuture (Some ErrNotLeader) None)
  else
    let run apply sub :=
      let '(s, err) := apply wire_json sub s in (s, RaftStore.MkFuture None err) in
    match b with
    | WireCommand RaftStore.update sub => run (@RaftStore.applyUpdate wire) sub
    | WireCommand RaftStore.removeKey sub => run (@RaftStore.applyRemoveKey wire) sub
    | WireCommand RaftStore.createBucket sub => run (@RaftStore.applyCreateBucket wire) sub
    | WireCommand RaftStore.createBucketIfNotExist sub =>
        run (@RaftStore.applyCreateBucketIfNotExist wire) sub
    | WireCommand RaftStore.removeBucket sub => run (@RaftStore.applyRemoveBucket wire) sub
    | WireCommand RaftStore.setSession sub => run (@RaftStore.applySetSession wire) sub
    | WireCommand RaftStore.delSession sub => run (@RaftStore.applyDelSession wire) sub
    | _ => (s, RaftStore.MkFuture (Some (ErrRaft "timed out enqueuing operation")) None)
    end.

(** A node that has just been opened. *)
Definition new_node (st : RaftStore.RaftState) : RaftStore.Store wire :=
  {| RaftStore.raftState := st;
     RaftStore.db := ∅;
     RaftStore.cache := LruCache.NewCache (1024 * 1024 * 50) false;
     RaftStore.session := ∅;
     RaftStore.proposed := [] |}.

(** A leader on which bucket "ns" holds "k1" -> "v1". *)
Definition leader_with_k1 : RaftStore.Store wire :=
  let s := new_node RaftStore.Leader in
  let s := (RaftStore.CreateBucket wire_json solo_Apply "ns" s).1 in
  (RaftStore.Update wire_json solo_Apply "ns" "k1" "v1" s).1.

(** After one more update, which stores the empty value under "k2". *)
Definition leader_with_empty_value : RaftStore.Store wire :=
  (RaftStore.Update wire_json solo_Apply "ns" "k2" "" leader_with_k1).1.

(** The same contents, on a follower. *)
Definition follower_with_k1 : RaftStore.Store wire :=
  {| RaftStore.raftState := RaftStore.Follower;
     RaftStore.db := RaftStore.db leader_with_k1;
     RaftStore.cache := (LruCache.Add "ns" "k1" "v1" (RaftStore.cache leader_with_k1)).1;
     RaftStore.session := {["token" := "alice"]};
     RaftStore.proposed := [] |}.

(** A tree that is one table from (node id, resource type) to bytes, where
    the node id of a namespace is the namespace. *)
Definition table_getNodeIDByNS (t : gmap (string * string) string) (ns : string)
  : error + string := inr ns.
Definition table_getByteFromStore (t : gmap (string * string) string)
    (nodeID resType : string) : error + string :=
  inr (default "" (t !! (nodeID, resType))).
Definition table_setByteToStore (t : gmap (string * string) string)
    (nodeID resType : string) (b : string)
  : gmap (string * string) string * option error :=
  (<[(nodeID, resType) := b]> t, None).

(** A codec for lists of dashboards without panels: one title per line. *)
Definition newline : Ascii.ascii := Ascii.ascii_of_nat 10.

Fixpoint lines (s : string) (cur : string) : list string :=
  match s with
  | EmptyString => []
  | String c s' =>
      if Ascii.eqb c newline then cur :: lines s' ""
      else lines s' (cur +:+ String c EmptyString)
  end.

Definition titles_Unmarshal (b : string) : error + list Dashboards.Dashboard :=
  inr ((fun t => Dashboards.MkDashboard t []) <$> lines b "").

Definition titles_Marshal (ds : list Dashboards.Dashboard) : error + string :=
  if forallb (fun d => bool_decide (Dashboards.Panels d = [])) ds
  then inr (foldr (fun d acc => Dashboards.Title d +:+ String newline acc) "" ds)
  else inl (ErrJSON "unsupported value").

(** A tree where namespace "ns" has the dashboards "cpu" and "mem". *)
Definition two_dashboards : gmap (string * string) string :=
  {[ ("ns", Dashboards.dashboardType) := "cpu" +:+ String newline ("mem" +:+ String newline "") ]}.

(** A codec for a finite set of dashboard lists: each list has a name. *)
Global Instance Panel_eq_dec : EqDecision Dashboards.Panel.
Proof. solve_decision. Defined.
Global Instance Dashboard_eq_dec : EqDecision Dashboards.Dashboard.
Proof. solve_decision. Defined.

Definition panel_a : Dashboards.Panel := Dashboards.MkPanel "load" "line" ["t1"; "t2"].
Definition panel_b : Dashboards.Panel := Dashboards.MkPanel "mem" "bar" [].
Definition panel_c : Dashboards.Panel := Dashboards.MkPanel "disk" "pie" ["t3"].

Definition board (ps : list Dashboards.Panel) : list Dashboards.Dashboard :=
  [Dashboards.MkDashboard "host" ps; Dashboards.MkDashboard "net" []].

Definition named_Marshal (ds : list Dashboards.Dashboard) : error + string :=
  inr (foldr (fun d acc =>
         Dashboards.Title d +:+ ":" +:+
         foldr (fun p acc =>
                  Dashboards.PanelTitle p +:+ "/" +:+ Dashboards.GraphType p +:+ "/" +:+
                  foldr (fun t acc => t +:+ "," +:+ acc) "" (Dashboards.Targets p)
                  +:+ ";" +:+ acc) "" (Dashboards.Panels d)
         +:+ String newline acc) "" ds).

(** Decoding by search among the lists built from the three panels. *)
Definition known_boards : list (list Dashboards.Dashboard) :=
  let ps := [panel_a; panel_b; panel_c] in
  [] :: [Dashboards.MkDashboard "host" []] :: [Dashboards.MkDashboard "net" []]
  :: (board <$> ([] :: ((fun p => [p]) <$> ps)
                 ++ (p ← ps; q ← ps; [[p; q]])
                 ++ (p ← ps; q ← ps; r ← ps; [[p; q; r]]))).

Definition named_Unmarshal (b : string) : error + list Dashboards.Dashboard :=
  match find (fun ds => bool_decide (named_Marshal ds = inr b)) known_boards with
  | Some ds => inr ds
  | None => inl (ErrJSON "invalid character")
  end.

(** A tree where namespace "ns" has the dashboard "host" with the panels
    a, b, c and the dashboard "net" without panels. *)
Definition host_and_net : gmap (string * string) string :=
  match named_Marshal (board [panel_a; panel_b; panel_c]) with
  | inr b => {[ ("ns", Dashboards.dashboardType) := b ]}
  | inl _ => ∅
  end.

(** The dashboard functions over that tree and codec. *)
Definition tbl_GetDashboard :=
  Dashboards.GetDashboard table_getNodeIDByNS table_getByteFromStore named_Unmarshal.
Definition tbl_SetDashboard :=
  Dashboards.SetDashboard table_getNodeIDByNS table_setByteToStore named_Marshal.
Definition tbl_UpdateDashboard :=
  Dashboards.UpdateDashboard table_getNodeIDByNS table_getByteFromStore
    table_setByteToStore named_Unmarshal named_Marshal.
Definition tbl_RemoveDashboard :=
  Dashboards.RemoveDashboard table_getNodeIDByNS table_getByteFromStore
    table_setByteToStore named_Unmarshal named_Marshal.
Definition tbl_ReorderPanel :=
  Dashboards.ReorderPanel table_getNodeIDByNS table_getByteFromStore
    table_setByteToStore named_Unmarshal named_Marshal.
Definition tbl_AddPanel :=
  Dashboards.AddPanel table_getNodeIDByNS table_getByteFromStore
    table_setByteToStore named_Unmarshal named_Marshal.
Definition tbl_UpdatePanel :=
  Dashboards.UpdatePanel table_getNodeIDByNS table_getByteFromStore
    table_setByteToStore named_Unmarshal named_Marshal.
Definition tbl_RemovePanel :=
  Dashboards.RemovePanel table_getNodeIDByNS table_getByteFromStore
    table_setByteToStore named_Unmarshal named_Marshal.
Definition tbl_AppendTarget :=
  Dashboards.AppendTarget table_getNodeIDByNS table_getByteFromStore
    table_setByteToStore named_Unmarshal named_Marshal.
Definition tbl_UpdateTarget :=
  Dashboards.UpdateTarget table_getNodeIDByNS table_getByteFromStore
    table_setByteToStore named_Unmarshal named_Marshal.
Definition tbl_RemoveTarget :=
  Dashboards.RemoveTarget table_getNodeIDByNS table_getByteFromStore
    table_setByteToStore named_Unmarshal named_Marshal.

(** A cache without a budget holding three entries of two buckets, with a
    callback. *)
Definition warm_cache : LruCache.Cache :=
  LruCache.run [LruCache.OpAdd "a" "k1" "v1"; LruCache.OpAdd "b" "k2" "v2";
                LruCache.OpAdd "a" "k3" "v3"] (LruCache.NewCache 0 true).

(** A tree where the bytes stored for the dashboards of "ns" do not decode. *)
Definition garbled : gmap (string * string) string :=
  {[ ("ns", Dashboards.dashboardType) := "{" ]}.

End Fixtures.

(** * Properties of the cache *)

Module CacheProofs.
Import Go LruCache.

(** *** Lemmas on the recency list *)

Lemma unlink_notin e l : e ∉ l → unlink e l = l.
Proof.
  induction l as [|x l IH]; simpl; [done|].
  intros Hn. apply not_elem_of_cons in Hn as [Hne Hn].
  destruct (decide (x = e)); [congruence|]. by rewrite IH.
Qed.

Lemma elem_of_unlink e x l : NoDup l → x ∈ unlink e l ↔ x ∈ l ∧ x ≠ e.
Proof.
  induction l as [|y l IH]; simpl; intros Hnd.
  - split; [by intros ?%elem_of_nil | by intros [?%elem_of_nil _]].
  - apply NoDup_cons in Hnd as [Hy Hnd].
    destruct (decide (y = e)) as [->|Hne].
    + rewrite elem_of_cons. split.
      * intros Hx. split; [by right|]. intros ->. done.
      * intros [[->|Hx] Hxe]; done.
    + rewrite !elem_of_cons, IH by done. naive_solver.
Qed.

Lemma NoDup_unlink e l : NoDup l → NoDup (unlink e l).
Proof.
  induction l as [|y l IH]; simpl; intros Hnd; [done|].
  apply NoDup_cons in Hnd as [Hy Hnd].
  destruct (decide (y = e)); [done|].
  apply NoDup_cons. split; [|by apply IH].
  rewrite elem_of_unlink by done. naive_solver.
Qed.

Lemma length_unlink e l : e ∈ l → S (length (unlink e l)) = length l.
Proof.
  induction l as [|y l IH]; simpl; intros He; [by apply elem_of_nil in He|].
  destruct (decide (y = e)); [done|].
  apply elem_of_cons in He as [->|He]; [done|]. simpl. by rewrite IH.
Qed.

Lemma unlink_last e l : NoDup l → last l = Some e → unlink e l = removelast l.
Proof.
  induction l as [|y l IH]; simpl; intros Hnd Hl; [done|].
  apply NoDup_cons in Hnd as [Hy Hnd].
  destruct l as [|z l].
  - simpl in Hl. injection Hl as ->. by rewrite decide_True.
  - assert (last (z :: l) = Some e) as Hl' by done.
    destruct (decide (y = e)) as [->|Hne].
    + exfalso. apply Hy. eapply (last_Some_elem_of (z :: l)), Hl'.
    + f_equal. by apply IH.
Qed.


Lemma elem_of_MoveToFront e x l : x ∈ MoveToFront e l ↔ x ∈ l.
Proof.
  unfold MoveToFront. destruct (decide (e ∈ l)) as [He|He]; [|done].
  induction l as [|y l IH]; simpl; [by apply elem_of_nil in He|].
  destruct (decide (y = e)) as [->|Hne]; [done|].
  apply elem_of_cons in He as [->|He]; [done|].
  specialize (IH He). rewrite !elem_of_cons in *. naive_solver.
Qed.

Lemma NoDup_MoveToFront e l : NoDup l → NoDup (MoveToFront e l).
Proof.
  intros Hnd. unfold MoveToFront. destruct (decide (e ∈ l)); [|done].
  apply NoDup_cons. split; [|by apply NoDup_unlink].
  rewrite elem_of_unlink by done. naive_solver.
Qed.

(** *** The invariant holds in every reachable state *)

Lemma wf_NewCache m cb : wf (NewCache m cb).
Proof.
  split; simpl.
  - constructor.
  - by intros e ?%elem_of_nil.
  - intros b bkt k e Hb. by rewrite lookup_empty in Hb.
  - intros e [x Hx]. by rewrite lookup_empty in Hx.
Qed.

(** [removeElement] on an element whose bucket is indexed, written out. *)
Lemma removeElement_eq c e kv bkt :
  cells c !! e = Some kv → items c !! bucket kv = Some bkt →
  removeElement e c =
    {| count := int (count c - 1);
       evictList := unlink e (evictList c);
       cells := cells c;
       nextElement := nextElement c;
       items := <[bucket kv := delete (key kv) bkt]> (items c);
       onEvict := onEvict c;
       evicted := if onEvict c then evicted c ++ [kv] else evicted c;
       size := uint64 (size c - uint64 (Size kv));
       maxSize := maxSize c |}.
Proof.
  intros Hc Hb. unfold removeElement, Value. simpl. rewrite Hc. simpl.
  rewrite Hb. destruct c as [n l h nx it cb ev sz mx], kv as [b k v].
  unfold callOnEvict. simpl. by destruct cb.
Qed.

Lemma wf_removeElement c e : wf c → e ∈ evictList c → wf (removeElement e c).
Proof.
  intros Hwf He.
  destruct (wf_linked c Hwf e He) as (kv & bkt & Hc & Hb & Hk).
  rewrite (removeElement_eq c e kv bkt) by done.
  split; simpl.
  - apply NoDup_unlink, Hwf.
  - intros e' He'. apply elem_of_unlink in He' as [He' Hne]; [|apply Hwf].
    destruct (wf_linked c Hwf e' He') as (kv' & bkt' & Hc' & Hb' & Hk').
    exists kv'. destruct (decide (bucket kv = bucket kv')) as [Heq|Hnb].
    + exists (delete (key kv) bkt). rewrite Heq, lookup_insert_eq.
      split_and!; [done..|].
      rewrite <- Heq, Hb in Hb'. injection Hb' as <-.
      rewrite lookup_delete_ne; [done|]. intros Hkk. rewrite Hkk in Hk. congruence.
    + exists bkt'. by rewrite lookup_insert_ne.
  - intros b bkt0 k e0 Hb0 Hk0.
    destruct (decide (bucket kv = b)) as [<-|Hnb].
    + rewrite lookup_insert_eq in Hb0. injection Hb0 as <-.
      destruct (decide (key kv = k)) as [<-|Hnk].
      { by rewrite lookup_delete_eq in Hk0. }
      rewrite lookup_delete_ne in Hk0 by done.
      destruct (wf_indexed c Hwf _ _ _ _ Hb Hk0) as (Hin & kv0 & Hc0 & Hb0 & Hkk0).
      split; [|by exists kv0].
      rewrite elem_of_unlink by apply Hwf. split; [done|].
      intros ->. congruence.
    + rewrite lookup_insert_ne in Hb0 by done.
      destruct (wf_indexed c Hwf _ _ _ _ Hb0 Hk0) as (Hin & kv0 & Hc0 & Hbb0 & Hkk0).
      split; [|by exists kv0].
      rewrite elem_of_unlink by apply Hwf. split; [done|].
      intros ->. congruence.
  - apply Hwf.
Qed.

Lemma wf_MoveToFront c e :
  wf c → wf (set_evictList (MoveToFront e (evictList c)) c).
Proof.
  intros Hwf. split; simpl.
  - apply NoDup_MoveToFront, Hwf.
  - intros e'. rewrite elem_of_MoveToFront. apply Hwf.
  - intros b bkt k e0 Hb Hk. rewrite elem_of_MoveToFront.
    by apply (wf_indexed c Hwf b bkt k e0).
  - apply Hwf.
Qed.

(** Overwriting the value of an entry in place keeps the invariant. *)
Lemma wf_set_value c e old v :
  wf c → cells c !! e = Some old →
  wf (set_cells (<[e := Entry (bucket old) (key old) v]> (cells c)) c).
Proof.
  intros Hwf Hold. split; simpl.
  - apply Hwf.
  - intros e' He'.
    destruct (wf_linked c Hwf e' He') as (kv' & bkt' & Hc' & Hb' & Hk').
    destruct (decide (e = e')) as [<-|Hne].
    + exists (Entry (bucket old) (key old) v), bkt'.
      rewrite lookup_insert_eq. simpl. by simplify_eq.
    + exists kv', bkt'. by rewrite lookup_insert_ne.
  - intros b bkt k e0 Hb Hk.
    destruct (wf_indexed c Hwf _ _ _ _ Hb Hk) as (Hin & kv0 & Hc0 & Hb0 & Hk0).
    split; [done|]. destruct (decide (e = e0)) as [<-|Hne].
    + exists (Entry (bucket old) (key old) v). rewrite lookup_insert_eq.
      by simplify_eq.
    + exists kv0. by rewrite lookup_insert_ne.
  - intros e' He'. apply Hwf. rewrite lookup_insert in He'.
    destruct (decide (e = e')) as [<-|]; [by eexists | done].
Qed.

Lemma wf_pushed c b k v :
  wf c → default ∅ (items c !! b) !! k = None → wf (pushed b k v c).
Proof.
  intros Hwf Habs.
  assert (Hfresh : ∀ e, e ∈ evictList c → e ≠ nextElement c).
  { intros e He. destruct (wf_linked c Hwf e He) as (kv & _ & Hc & _).
    assert (e < nextElement c)%nat by (apply Hwf; by eexists). lia. }
  split; simpl.
  - apply NoDup_cons. split; [|apply Hwf].
    intros Hin. by apply Hfresh in Hin.
  - intros e He. apply elem_of_cons in He as [->|He].
    + exists (Entry b k v), (<[k := nextElement c]> (default ∅ (items c !! b))).
      simpl. by rewrite !lookup_insert_eq.
    + destruct (wf_linked c Hwf e He) as (kv & bkt & Hc & Hb & Hk).
      exists kv. rewrite lookup_insert_ne by (by apply not_eq_sym, Hfresh).
      destruct (decide (b = bucket kv)) as [->|Hnb].
      * exists (<[k := nextElement c]> bkt). rewrite Hb. simpl.
        rewrite lookup_insert_eq. split_and!; [done..|].
        rewrite lookup_insert_ne; [done|]. intros Hkk.
        rewrite Hb in Habs. simpl in Habs. rewrite Hkk in Habs. congruence.
      * exists bkt. by rewrite lookup_insert_ne.
  - intros b0 bkt0 k0 e0 Hb0 Hk0.
    destruct (decide (b = b0)) as [<-|Hnb].
    + rewrite lookup_insert_eq in Hb0. injection Hb0 as <-.
      destruct (decide (k = k0)) as [<-|Hnk].
      * rewrite lookup_insert_eq in Hk0. injection Hk0 as <-.
        split; [by left|]. exists (Entry b k v). by rewrite lookup_insert_eq.
      * rewrite lookup_insert_ne in Hk0 by done.
        destruct (items c !! b) as [bkt|] eqn:Hb; simpl in Hk0;
          [|by rewrite lookup_empty in Hk0].
        destruct (wf_indexed c Hwf _ _ _ _ Hb Hk0) as (Hin & kv0 & Hc0 & Hbb & Hkk).
        split; [by right|]. exists kv0.
        rewrite lookup_insert_ne by (by apply not_eq_sym, Hfresh). done.
    + rewrite lookup_insert_ne in Hb0 by done.
      destruct (wf_indexed c Hwf _ _ _ _ Hb0 Hk0) as (Hin & kv0 & Hc0 & Hbb & Hkk).
      split; [by right|]. exists kv0.
      rewrite lookup_insert_ne by (by apply not_eq_sym, Hfresh). done.
  - intros e He. rewrite lookup_insert in He.
    destruct (decide (nextElement c = e)) as [<-|]; [lia|].
    assert (e < nextElement c)%nat by by apply Hwf. lia.
Qed.


(** [Add], case by case. *)
Lemma Add_present c b k v e :
  default ∅ (items c !! b) !! k = Some e →
  Add b k v c =
    (set_cells (<[e := Entry (bucket (Value c e)) (key (Value c e)) v]> (cells c))
               (set_evictList (MoveToFront e (evictList c)) c), false).
Proof. intros H. unfold Add. simpl. by rewrite H. Qed.

Lemma Add_absent c b k v :
  default ∅ (items c !! b) !! k = None →
  Add b k v c =
    let c1 := pushed b k v c in
    if (0 <? maxSize c1) && (maxSize c1 <? size c1)
    then (removeOldest c1, true) else (c1, false).
Proof. intros H. unfold Add. simpl. by rewrite H. Qed.

Lemma Contains_index b k c :
  Contains b k c = bool_decide (is_Some (default ∅ (items c !! b) !! k)).
Proof.
  unfold Contains. destruct (items c !! b) as [bkt|]; simpl; [done|].
  rewrite lookup_empty. symmetry. apply bool_decide_eq_false. by intros [? ?].
Qed.

Lemma wf_Add c b k v : wf c → wf (Add b k v c).1.
Proof.
  intros Hwf. destruct (default ∅ (items c !! b) !! k) as [e|] eqn:Hk.
  - rewrite (Add_present _ _ _ _ e) by done. simpl.
    assert (is_Some (cells c !! e)) as [old Hold].
    { destruct (items c !! b) as [bkt|] eqn:Hb; simpl in Hk;
        [|by rewrite lookup_empty in Hk].
      destruct (wf_indexed c Hwf _ _ _ _ Hb Hk) as (_ & kv & Hc & _). by eexists. }
    unfold Value. rewrite Hold. simpl.
    apply (wf_set_value (set_evictList _ c) e old v); [|done].
    by apply wf_MoveToFront.
  - rewrite Add_absent by done. simpl.
    pose proof (wf_pushed c b k v Hwf Hk) as Hp.
    destruct (_ && _); simpl; [|done].
    unfold removeOldest, Back. simpl.
    destruct (last (nextElement c :: evictList c)) as [ent|] eqn:Hl; [|done].
    apply wf_removeElement; [done|]. simpl. by apply last_Some_elem_of.
Qed.

Lemma wf_Get c b k : wf c → wf (Get b k c).1.
Proof.
  intros Hwf. unfold Get. destruct (items c !! b) as [bkt|]; [|done].
  destruct (bkt !! k) as [e|]; [|done]. simpl. by apply wf_MoveToFront.
Qed.

Lemma wf_Remove c b k : wf c → wf (Remove b k c).1.
Proof.
  intros Hwf. unfold Remove. destruct (items c !! b) as [bkt|] eqn:Hb; [|done].
  destruct (bkt !! k) as [e|] eqn:Hk; [|done]. simpl.
  apply wf_removeElement; [done|]. by apply (wf_indexed c Hwf b bkt k e).
Qed.

Lemma wf_RemoveOldest c : wf c → wf (RemoveOldest c).1.
Proof.
  intros Hwf. unfold RemoveOldest, Back.
  destruct (last (evictList c)) as [e|] eqn:Hl; [|done]. simpl.
  apply wf_removeElement; [done|]. by apply last_Some_elem_of.
Qed.


Lemma removeElement_facts c e :
  wf c → e ∈ evictList c →
  evictList (removeElement e c) = unlink e (evictList c)
  ∧ cells (removeElement e c) = cells c
  ∧ index_sub (removeElement e c) c.
Proof.
  intros Hwf He.
  destruct (wf_linked c Hwf e He) as (kv & bkt & Hc & Hb & Hk).
  rewrite (removeElement_eq c e kv bkt) by done. simpl.
  split_and!; [done..|].
  intros b bkt' k e' Hb' Hk'. simpl in Hb'.
  destruct (decide (bucket kv = b)) as [<-|Hnb].
  - rewrite lookup_insert_eq in Hb'. injection Hb' as <-.
    apply lookup_delete_Some in Hk' as [_ Hk']. by exists bkt.
  - rewrite lookup_insert_ne in Hb' by done. by exists bkt'.
Qed.

(** The loop of [RemoveBucket]. *)
Lemma wf_remove_all (es : list (string * nat)) c :
  wf c → NoDup es.*2 → (∀ e, e ∈ es.*2 → e ∈ evictList c) →
  let c' := foldl (fun c '(_, ent) => removeElement ent c) c es in
  wf c'
  ∧ (∀ x, x ∈ evictList c' ↔ x ∈ evictList c ∧ x ∉ es.*2)
  ∧ index_sub c' c.
Proof.
  revert c. induction es as [|[k0 e0] es IH]; intros c Hwf Hnd Hin; simpl.
  - split_and!; [done| |].
    + intros x. split; [|naive_solver]. intros Hx. split; [done|].
      by intros ?%elem_of_nil.
    + intros b bkt' k e Hb Hk. by exists bkt'.
  - simpl in Hnd. apply NoDup_cons in Hnd as [Hn0 Hnd].
    assert (He0 : e0 ∈ evictList c) by (apply Hin; simpl; by left).
    destruct (removeElement_facts c e0 Hwf He0) as (Hl & Hcells & Hsub).
    destruct (IH (removeElement e0 c)) as (Hwf' & Hel & Hsub').
    + by apply wf_removeElement.
    + done.
    + intros e He. rewrite Hl. apply elem_of_unlink; [apply Hwf|].
      split; [apply Hin; simpl; by right|]. by intros ->.
    + split_and!; [done| |].
      * intros x. rewrite Hel, Hl, elem_of_unlink by apply Hwf.
        rewrite not_elem_of_cons. naive_solver.
      * intros b bkt' k e Hb Hk.
        destruct (Hsub' _ _ _ _ Hb Hk) as (bkt1 & Hb1 & Hk1).
        by apply (Hsub _ _ _ _ Hb1 Hk1).
Qed.

Lemma wf_RemoveBucket c b : wf c → wf (RemoveBucket b c).1.
Proof.
  intros Hwf. unfold RemoveBucket.
  destruct (items c !! b) as [bkt|] eqn:Hb; [|done]. simpl.
  destruct (wf_remove_all (map_to_list bkt) c Hwf) as (Hwf' & Hel & Hsub).
  - apply NoDup_fmap_2_strong; [|apply NoDup_map_to_list].
    intros [k1 e1] [k2 e2] H1%elem_of_map_to_list H2%elem_of_map_to_list.
    simpl. intros ->.
    destruct (wf_indexed c Hwf _ _ _ _ Hb H1) as (_ & kv1 & Hc1 & _ & Hk1).
    destruct (wf_indexed c Hwf _ _ _ _ Hb H2) as (_ & kv2 & Hc2 & _ & Hk2).
    congruence.
  - intros e He. apply list_elem_of_fmap in He as ([k e'] & -> & He).
    apply elem_of_map_to_list in He. simpl.
    by apply (wf_indexed c Hwf b bkt k e').
  - set (c' := foldl _ c _) in *. split; simpl.
    + apply Hwf'.
    + intros x Hx.
      destruct (wf_linked c' Hwf' x Hx) as (kv & bkt' & Hc & Hb' & Hk').
      exists kv, bkt'. split_and!; [done| |done].
      rewrite lookup_delete_ne; [done|]. intros ->.
      destruct (Hsub _ _ _ _ Hb' Hk') as (bkt0 & Hb0 & Hk0).
      rewrite Hb in Hb0. injection Hb0 as <-.
      apply Hel in Hx as [_ Hx]. apply Hx.
      apply list_elem_of_fmap. exists (key kv, x). split; [done|].
      by apply elem_of_map_to_list.
    + intros b0 bkt0 k e Hb0 Hk0.
      apply lookup_delete_Some in Hb0 as [_ Hb0].
      by apply (wf_indexed c' Hwf' b0 bkt0 k e).
    + apply Hwf'.
Qed.

(** The inner loop of [Purge] drops the bucket from the index as soon as
    it has one key. *)
Lemma Purge_key_facts bkt c kv :
  cells (Purge_key bkt c kv) = cells c
  ∧ nextElement (Purge_key bkt c kv) = nextElement c
  ∧ items (Purge_key bkt c kv) = delete bkt (items c).
Proof.
  destruct kv as [k v]. unfold Purge_key, callOnEvict. by destruct (onEvict c).
Qed.

Lemma Purge_inner c bkt (ks : list (string * nat)) :
  let c' := foldl (Purge_key bkt) c ks in
  cells c' = cells c ∧ nextElement c' = nextElement c
  ∧ items c' = match ks with [] => items c | _ => delete bkt (items c) end.
Proof.
  revert c. induction ks as [|kv ks IH]; intros c; simpl; [done|].
  destruct (IH (Purge_key bkt c kv)) as (Hc & Hn & Hi).
  destruct (Purge_key_facts bkt c kv) as (Hc1 & Hn1 & Hi1).
  rewrite Hc, Hn, Hi, Hc1, Hn1, Hi1.
  split_and!; [done..|]. destruct ks; [done|]. apply delete_delete_eq.
Qed.

Lemma Purge_outer (L : list (string * gmap string nat)) c :
  let c' := foldl Purge_bucket c L in
  cells c' = cells c ∧ nextElement c' = nextElement c
  ∧ ∀ b m, items c' !! b = Some m →
      items c !! b = Some m ∧ ((b, m) ∈ L → m = ∅).
Proof.
  revert c. induction L as [|[b0 keys] L IH]; intros c; simpl.
  - split_and!; [done..|]. intros b m Hb. split; [done|]. by intros ?%elem_of_nil.
  - destruct (Purge_inner c b0 (map_to_list keys)) as (Hc & Hn & Hi).
    destruct (IH (foldl (Purge_key b0) c (map_to_list keys))) as (Hc' & Hn' & Hi').
    split_and!; [congruence..|].
    intros b m Hb. destruct (Hi' b m Hb) as [Hb1 Hm].
    rewrite Hi in Hb1. split.
    + destruct (map_to_list keys); [done|].
      by apply lookup_delete_Some in Hb1 as [_ ?].
    + intros [Heq|Hin]%elem_of_cons; [|by apply Hm].
      injection Heq as -> ->.
      destruct (map_to_list keys) eqn:Hks.
      * by apply map_to_list_empty_iff.
      * by rewrite lookup_delete_eq in Hb1.
Qed.

Lemma wf_Purge c : wf c → wf (Purge c).
Proof.
  intros Hwf. unfold Purge.
  destruct (Purge_outer (map_to_list (items c)) c) as (Hc & Hn & Hi).
  set (c' := foldl _ c _) in *. split; simpl.
  - constructor.
  - by intros e ?%elem_of_nil.
  - intros b bkt k e Hb Hk. destruct (Hi b bkt Hb) as [Hb0 Hm].
    rewrite Hm in Hk by (by apply elem_of_map_to_list).
    by rewrite lookup_empty in Hk.
  - rewrite Hc, Hn. apply Hwf.
Qed.

Lemma wf_step c o : wf c → wf (step c o).
Proof.
  destruct o; simpl;
    auto using wf_Add, wf_Get, wf_Remove, wf_RemoveBucket, wf_RemoveOldest, wf_Purge.
Qed.

(** Every state the interface can produce from a new cache is well formed. *)
Lemma wf_run ops c : wf c → wf (run ops c).
Proof.
  revert c. induction ops as [|o ops IH]; intros c Hwf; simpl; [done|].
  apply IH. by apply wf_step.
Qed.


(** *** What the resident entries look like after a step *)

Lemma fmap_unlink_filter {B} (f : nat → B) (P : B → Prop)
    `{∀ y, Decision (P y)} e l :
  NoDup l → e ∈ l → (∀ x, x ∈ l → P (f x) ↔ x = e) →
  f <$> unlink e l = filter (λ y, ¬ P y) (f <$> l).
Proof.
  induction l as [|y l IH]; intros Hnd He HP; [by apply elem_of_nil in He|].
  apply NoDup_cons in Hnd as [Hy Hnd]. rewrite fmap_cons. cbn [unlink].
  destruct (decide (y = e)) as [->|Hne].
  - rewrite filter_cons_False.
    2:{ intros Hn. apply Hn, HP; [by left|done]. }
    clear IH He. induction l as [|z l IH]; [done|].
    apply not_elem_of_cons in Hy as [Hze Hy].
    apply NoDup_cons in Hnd as [_ Hnd].
    rewrite fmap_cons, filter_cons_True.
    2:{ intros HPz. apply HP in HPz; [done|]. right. by left. }
    f_equal. apply IH; [done..|].
    intros x Hx. apply HP. apply elem_of_cons in Hx as [->|Hx]; [by left|].
    right. by right.
  - rewrite filter_cons_True.
    2:{ intros HPy. apply HP in HPy; [done|by left]. }
    rewrite fmap_cons. f_equal. apply IH; [done| |].
    + apply elem_of_cons in He as [->|He]; done.
    + intros x Hx. apply HP. by right.
Qed.

Lemma fmap_removelast {A B} (f : A → B) (l : list A) :
  f <$> removelast l = removelast (f <$> l).
Proof.
  induction l as [|x l IH]; [done|]. destruct l as [|y l]; [done|].
  change (f <$> x :: removelast (y :: l) = f x :: removelast (f <$> y :: l)).
  by rewrite fmap_cons, IH.
Qed.

Lemma last_cons_default {A} (x : A) l : last (x :: l) = Some (default x (last l)).
Proof. rewrite last_cons. by destruct (last l). Qed.

Lemma elem_lt_next c e : wf c → e ∈ evictList c → e ≠ nextElement c.
Proof.
  intros Hwf He. destruct (wf_linked c Hwf e He) as (kv & _ & Hc & _).
  assert (e < nextElement c)%nat by (apply Hwf; by eexists). lia.
Qed.

Lemma entries_pushed c b k v :
  wf c → entries (pushed b k v c) = Entry b k v :: entries c.
Proof.
  intros Hwf. unfold entries, pushed, Value. simpl.
  rewrite lookup_insert_eq. simpl. f_equal.
  apply list_fmap_ext. intros i x Hx. simpl.
  rewrite lookup_insert_ne; [done|].
  apply not_eq_sym, elem_lt_next; [done|]. by eapply list_elem_of_lookup_2.
Qed.


(** What the index says about an entry that is present. *)
Lemma present_inv c b k e :
  wf c → default ∅ (items c !! b) !! k = Some e →
  e ∈ evictList c ∧ ∃ v, cells c !! e = Some (Entry b k v).
Proof.
  intros Hwf Hk.
  destruct (items c !! b) as [bkt|] eqn:Hb; simpl in Hk;
    [|by rewrite lookup_empty in Hk].
  destruct (wf_indexed c Hwf _ _ _ _ Hb Hk) as (Hin & [b' k' v] & Hc & Hb' & Hk').
  simpl in *. subst. eauto.
Qed.

(** In a well-formed cache an element is found under (b, k) only if it is
    the element the index has there. *)
Lemma same_slot_unique c b k e x :
  wf c → default ∅ (items c !! b) !! k = Some e → x ∈ evictList c →
  same_slot b k (Value c x) ↔ x = e.
Proof.
  intros Hwf Hk Hx.
  destruct (wf_linked c Hwf x Hx) as (kv & bkt & Hc & Hb & Hkx).
  unfold Value, same_slot. rewrite Hc. simpl. split.
  - intros [<- <-]. rewrite Hb in Hk. simpl in Hk. congruence.
  - intros ->. destruct (present_inv c b k e Hwf Hk) as (_ & v & Hc').
    rewrite Hc in Hc'. by injection Hc' as ->.
Qed.

(** *** Add *)

(** C3.  [Add(bucket, key, value)] on a well-formed cache.  If the pair is
    present, the call returns false, the entry now holds the new value and
    sits at the front of the recency list, the other entries keep their
    order, and neither [size] nor [count] nor the eviction callback is
    touched.  Otherwise the new entry is put at the front and its size is
    added to [size]; if [maxSize > 0] and the new [size] exceeds it, exactly
    one entry, the one at the back, is removed, accounted for and handed to
    the callback, and the call returns true; if not, nothing is removed and
    the call returns false. *)
Theorem Add_spec (c : Cache) (b k v : string) :
  wf c →
  let c' := (Add b k v c).1 in
  let evict := (Add b k v c).2 in
  let new := Entry b k v in
  if Contains b k c then
    evict = false
    ∧ Peek b k c' = Some v
    ∧ entries c' = new :: filter (λ x, ¬ same_slot b k x) (entries c)
    ∧ size c' = size c ∧ count c' = count c ∧ evicted c' = evicted c
  else
    let total := uint64 (size c + uint64 (Size new)) in
    if (0 <? maxSize c) && (maxSize c <? total) then
      let oldest := default new (last (entries c)) in
      evict = true
      ∧ entries c' = removelast (new :: entries c)
      ∧ Len c' = Len c
      ∧ size c' = uint64 (total - uint64 (Size oldest))
      ∧ evicted c' = (if onEvict c then evicted c ++ [oldest] else evicted c)
    else
      evict = false
      ∧ entries c' = new :: entries c
      ∧ size c' = total
      ∧ evicted c' = evicted c.
Proof.
  intros Hwf. cbv zeta. rewrite Contains_index.
  destruct (default ∅ (items c !! b) !! k) as [e|] eqn:Hk.
  - rewrite bool_decide_eq_true_2 by (by eexists).
    rewrite (Add_present c b k v e Hk). simpl.
    destruct (present_inv c b k e Hwf Hk) as (Hin & v0 & Hc).
    assert (HV : Value c e = Entry b k v0) by (unfold Value; by rewrite Hc).
    rewrite HV. simpl. split_and!; try done.
    + unfold Peek. simpl.
      destruct (items c !! b) as [bkt|] eqn:Hb; simpl in Hk;
        [|by rewrite lookup_empty in Hk].
      rewrite Hk. unfold Value. simpl. by rewrite lookup_insert_eq.
    + unfold entries. simpl. unfold MoveToFront. rewrite decide_True by done.
      rewrite fmap_cons. f_equal.
      { unfold Value. simpl. by rewrite lookup_insert_eq. }
      rewrite <- (fmap_unlink_filter (Value c) (same_slot b k) e);
        [|apply Hwf|done|].
      * apply list_fmap_ext. intros i x Hx. unfold Value. simpl.
        rewrite lookup_insert_ne; [done|]. intros <-.
        apply list_elem_of_lookup_2, elem_of_unlink in Hx as [_ ?];
          [done|apply Hwf].
      * intros x Hx. by apply same_slot_unique.
  - rewrite bool_decide_eq_false_2 by (by intros [? ?]).
    rewrite (Add_absent c b k v Hk). cbv zeta.
    change (maxSize (pushed b k v c)) with (maxSize c).
    change (size (pushed b k v c)) with (uint64 (size c + uint64 (Size (Entry b k v)))).
    pose proof (wf_pushed c b k v Hwf Hk) as Hp.
    pose proof (entries_pushed c b k v Hwf) as He.
    destruct (_ && _); cbn [fst snd]; [|by rewrite He].
    unfold removeOldest, Back.
    assert (Hl : last (evictList (pushed b k v c))
                 = Some (default (nextElement c) (last (evictList c))))
      by apply last_cons_default.
    rewrite Hl. set (ent := default (nextElement c) (last (evictList c))) in *.
    assert (Hent : ent ∈ evictList (pushed b k v c)) by by apply last_Some_elem_of.
    destruct (wf_linked _ Hp ent Hent) as (kv & bkt & Hc & Hb & Hkk).
    rewrite (removeElement_eq _ ent kv bkt Hc Hb).
    assert (Hold : default (Entry b k v) (last (entries c)) = kv).
    { assert (last (entries (pushed b k v c)) = Some kv) as Hlast.
      { unfold entries. rewrite fmap_last, Hl. simpl. unfold Value. by rewrite Hc. }
      rewrite He, last_cons_default in Hlast. by injection Hlast. }
    rewrite Hold.
    assert (Hun : unlink ent (evictList (pushed b k v c))
                  = removelast (evictList (pushed b k v c)))
      by (apply unlink_last; [apply Hp|done]).
    split_and!; try done.
    + rewrite <- He. unfold entries at 1. cbn [evictList cells].
      rewrite Hun. by rewrite fmap_removelast.
    + unfold Len. cbn [evictList]. f_equal.
      apply length_unlink in Hent. simpl in Hent. simpl. lia.
Qed.

(** A well-formed cache to try [Add_spec] on: a budget of 8 bytes holding
    ("b","k1") -> "v1"; adding ("b","k2") -> "v2" overflows and evicts. *)
Lemma Add_spec_witness :
  let c := (Add "b" "k1" "v1" (NewCache 8 true)).1 in
  let c' := (Add "b" "k2" "v2" c).1 in
  wf c
  ∧ (Add "b" "k2" "v2" c).2 = true
  ∧ entries c' = [Entry "b" "k2" "v2"]
  ∧ Len c' = Len c
  ∧ size c' = 5
  ∧ evicted c' = [Entry "b" "k1" "v1"].
Proof.
  cbv zeta. split; [apply wf_Add, wf_NewCache|].
  pose proof (Add_spec (Add "b" "k1" "v1" (NewCache 8 true)).1 "b" "k2" "v2"
                (wf_Add _ _ _ _ (wf_NewCache 8 true))) as H.
  vm_compute in H. vm_compute. exact H.
Defined.

(** *** Remove *)

(** C10.  [Remove(bucket, key)] of a pair that is not resident returns false
    and hands back the very same cache: no callback is called ([evicted]),
    and [size], [count], the recency list, the index and every entry are as
    they were. *)
Theorem Remove_absent (c : Cache) (b k : string) :
  Contains b k c = false →
  (Remove b k c).2 = false ∧ (Remove b k c).1 = c.
Proof.
  unfold Contains, Remove. intros H.
  destruct (items c !! b) as [bkt|]; [|done].
  destruct (bkt !! k) as [e|] eqn:Hk; [|done].
  exfalso. apply bool_decide_eq_false in H. apply H. by eexists.
Qed.

Lemma Remove_absent_witness :
  let c := (Add "b" "k1" "v1" (NewCache 8 true)).1 in
  Contains "b" "k2" c = false
  ∧ (Remove "b" "k2" c).2 = false ∧ (Remove "b" "k2" c).1 = c.
Proof.
  cbv zeta. split; [by vm_compute|].
  apply (Remove_absent (Add "b" "k1" "v1" (NewCache 8 true)).1 "b" "k2").
  by vm_compute.
Defined.

(** *** The byte budget *)

(** C1.  The budget is not an invariant.  With [maxSize = 4], adding
    ("b","k") -> "v" (3 bytes) and then ("b","k2") -> "vvvvvvvv" (11 bytes)
    makes [Add] evict once, the first entry, and return with the 11-byte
    entry resident: both [size] and the sum over the entries are 11. *)
Theorem Add_returns_above_budget :
  let c := run [OpAdd "b" "k" "v"; OpAdd "b" "k2" "vvvvvvvv"] (NewCache 4 false) in
  maxSize c = 4 ∧ size c = 11 ∧ accounted c = 11
  ∧ entries c = [Entry "b" "k2" "vvvvvvvv"].
Proof. by vm_compute. Qed.

(** The same state refutes the invariant for all runs. *)
Lemma budget_invariant_fails :
  ¬ (∀ ops m cb, 0 < m → accounted (run ops (NewCache m cb)) ≤ m).
Proof.
  intros H.
  specialize (H [OpAdd "b" "k" "v"; OpAdd "b" "k2" "vvvvvvvv"] 4 false eq_refl).
  by vm_compute in H.
Qed.

(** *** Keys *)

Lemma Keys_empty c : evictList c = [] → Keys c = Returns [].
Proof. unfold Keys. by intros ->. Qed.

(** The first store into the nil slice is out of range. *)
Lemma Keys_nonempty c : evictList c ≠ [] → Keys c = Panics "index out of range".
Proof.
  unfold Keys. intros H.
  destruct (rev (evictList c)) as [|e l] eqn:Hr; [|done].
  apply (f_equal (@rev _)) in Hr. by rewrite rev_involutive in Hr.
Qed.

(** C5.  [Keys] on a cache that holds one entry does not return a list: the
    store [keys[0] = ...] into the nil slice panics. *)
Theorem Keys_panics_on_one_entry :
  let c := (Add "b" "k" "v" (NewCache 0 false)).1 in
  Len c = 1 ∧ Keys c = Panics "index out of range".
Proof. by vm_compute. Qed.

(** *** One entry per (bucket, key) pair *)

Lemma wf_slots c :
  wf c →
  NoDup (slot <$> entries c)
  ∧ ∀ b k, Contains b k c = true ↔ (b, k) ∈ slot <$> entries c.
Proof.
  intros Hwf. unfold entries. rewrite <- list_fmap_compose. split.
  - apply NoDup_fmap_2_strong; [|apply Hwf].
    intros e1 e2 H1 H2. unfold slot, Value. simpl.
    destruct (wf_linked c Hwf e1 H1) as (kv1 & bkt1 & Hc1 & Hb1 & Hk1).
    destruct (wf_linked c Hwf e2 H2) as (kv2 & bkt2 & Hc2 & Hb2 & Hk2).
    rewrite Hc1, Hc2. simpl. intros [= Hb Hk]. rewrite Hb, Hk in *. congruence.
  - intros b k. rewrite Contains_index, bool_decide_eq_true, list_elem_of_fmap. split.
    + intros [e He]. destruct (present_inv c b k e Hwf He) as (Hin & v & Hc).
      exists e. split; [|done]. unfold slot, Value. simpl. by rewrite Hc.
    + intros (e & Hs & Hin).
      destruct (wf_linked c Hwf e Hin) as (kv & bkt & Hc & Hb & Hk).
      unfold slot, Value in Hs. simpl in Hs. rewrite Hc in Hs. simpl in Hs.
      injection Hs as -> ->. rewrite Hb. simpl. by eexists.
Qed.

(** Whatever is done to a new cache through its interface, it never holds
    two entries under the same (bucket, key) pair, and [Contains] tells
    exactly which pairs have an entry in the recency list. *)
Theorem reachable_slots_unique (ops : list op) (m : Z) (cb : bool) :
  let c := run ops (NewCache m cb) in
  NoDup (slot <$> entries c)
  ∧ ∀ b k, Contains b k c = true ↔ (b, k) ∈ slot <$> entries c.
Proof. apply wf_slots, wf_run, wf_NewCache. Qed.

(** *** Remove, Get, RemoveOldest *)

Lemma unlink_entries c c' e b k :
  wf c → default ∅ (items c !! b) !! k = Some e →
  cells c' = cells c →
  Value c' <$> unlink e (evictList c)
  = filter (λ x, ¬ same_slot b k x) (entries c).
Proof.
  intros Hwf Hk Hcells.
  destruct (present_inv c b k e Hwf Hk) as (Hin & _).
  unfold entries.
  rewrite <- (fmap_unlink_filter (Value c) (same_slot b k) e); [|apply Hwf|done|].
  - apply list_fmap_ext. intros i x _. unfold Value. by rewrite Hcells.
  - intros x Hx. by apply same_slot_unique.
Qed.

(** [Remove] of a pair that is resident returns true and takes exactly that
    entry out: the pair is no longer contained, the other entries keep
    their order, [size] goes down by the size of the entry, and the
    callback, if there is one, is called once, with the entry. *)
Theorem Remove_present (c : Cache) (b k : string) :
  wf c → Contains b k c = true →
  ∃ v, Peek b k c = Some v
    ∧ (Remove b k c).2 = true
    ∧ Contains b k (Remove b k c).1 = false
    ∧ entries (Remove b k c).1 = filter (λ x, ¬ same_slot b k x) (entries c)
    ∧ size (Remove b k c).1 = uint64 (size c - uint64 (Size (Entry b k v)))
    ∧ evicted (Remove b k c).1
      = (if onEvict c then evicted c ++ [Entry b k v] else evicted c).
Proof.
  intros Hwf Hc. rewrite Contains_index, bool_decide_eq_true in Hc.
  destruct Hc as [e He].
  destruct (present_inv c b k e Hwf He) as (Hin & v & Hcell).
  pose proof (unlink_entries c (removeElement e c) e b k Hwf He) as Hent.
  destruct (items c !! b) as [bkt|] eqn:Hb; simpl in He;
    [|by rewrite lookup_empty in He].
  exists v. unfold Peek, Remove, Contains. rewrite Hb, He. simpl.
  unfold Value at 1. rewrite Hcell. simpl.
  rewrite (removeElement_eq c e (Entry b k v) bkt) in * by done. simpl in *.
  rewrite lookup_insert_eq, lookup_delete_eq.
  split_and!; try done. by apply Hent.
Qed.

(** [Get] returns what [Peek] returns.  On a hit the entry moves to the
    front of the recency list and the others keep their order; on a miss
    the cache is left as it is.  [Get] never changes what [Contains] and
    [Peek] answer, nor [size], nor calls the callback. *)
Theorem Get_spec (c : Cache) (b k : string) :
  wf c →
  (Get b k c).2 = Peek b k c
  ∧ match Peek b k c with
    | Some v =>
        entries (Get b k c).1
        = Entry b k v :: filter (λ x, ¬ same_slot b k x) (entries c)
    | None => (Get b k c).1 = c
    end
  ∧ (∀ b' k', Peek b' k' (Get b k c).1 = Peek b' k' c
              ∧ Contains b' k' (Get b k c).1 = Contains b' k' c)
  ∧ size (Get b k c).1 = size c
  ∧ evicted (Get b k c).1 = evicted c.
Proof.
  intros Hwf. unfold Get, Peek.
  destruct (items c !! b) as [bkt|] eqn:Hb; [|done].
  destruct (bkt !! k) as [e|] eqn:Hk; [|done]. simpl.
  split_and!; try done.
  assert (Hk' : default ∅ (items c !! b) !! k = Some e) by by rewrite Hb.
  destruct (present_inv c b k e Hwf Hk') as (Hin & v & Hcell).
  unfold Value at 1. simpl. rewrite Hcell. simpl.
  unfold entries. simpl. unfold MoveToFront. rewrite decide_True by done.
  rewrite fmap_cons. f_equal.
  - unfold Value. simpl. by rewrite Hcell.
  - by apply (unlink_entries c _ e b k).
Qed.

(** [GetOldest] and [RemoveOldest] return the entry at the back of the
    recency list (nothing on an empty cache); [RemoveOldest] takes that
    entry, and no other, out of the cache. *)
Theorem RemoveOldest_spec (c : Cache) :
  wf c →
  GetOldest c = last (entries c)
  ∧ (RemoveOldest c).2 = last (entries c)
  ∧ entries (RemoveOldest c).1 = removelast (entries c)
  ∧ match last (entries c) with
    | Some kv =>
        Contains (bucket kv) (key kv) (RemoveOldest c).1 = false
        ∧ size (RemoveOldest c).1 = uint64 (size c - uint64 (Size kv))
        ∧ evicted (RemoveOldest c).1
          = (if onEvict c then evicted c ++ [kv] else evicted c)
    | None => (RemoveOldest c).1 = c
    end.
Proof.
  intros Hwf. unfold GetOldest, RemoveOldest, Back, entries.
  rewrite fmap_last.
  destruct (last (evictList c)) as [e|] eqn:Hl.
  2:{ simpl. split_and!; try done. apply last_None in Hl. by rewrite Hl. }
  assert (Hin : e ∈ evictList c) by by apply last_Some_elem_of.
  destruct (wf_linked c Hwf e Hin) as (kv & bkt & Hc & Hb & Hk).
  assert (HV : Value c e = kv) by (unfold Value; by rewrite Hc).
  change (Value c <$> Some e) with (Some (Value c e)).
  rewrite (removeElement_eq c e kv bkt) by done.
  change (Value _ e) with (Value c e).
  rewrite !HV. cbn [fst snd evictList size evicted].
  split_and!; try done.
  - rewrite (unlink_last e) by (done || apply Hwf). by rewrite <- fmap_removelast.
  - unfold Contains. simpl. by rewrite lookup_insert_eq, lookup_delete_eq.
Qed.

(** *** Add followed by Get *)

Lemma Get_found c b k bkt e kv :
  items c !! b = Some bkt → bkt !! k = Some e → cells c !! e = Some kv →
  (Get b k c).2 = Some (value kv).
Proof.
  intros Hb Hk Hc. unfold Get. rewrite Hb, Hk. simpl. unfold Value. simpl.
  by rewrite Hc.
Qed.

Lemma Get_not_found c b k :
  default ∅ (items c !! b) !! k = None → (Get b k c).2 = None.
Proof.
  intros Hk. unfold Get. destruct (items c !! b) as [bkt|]; [|done].
  simpl in Hk. by rewrite Hk.
Qed.

(** [Get] right after [Add] of the same pair returns the value just added,
    with one exception: when the cache was empty and the new entry alone
    exceeds the budget, [Add] evicts the entry it has just put in, and
    [Get] finds nothing. *)
Theorem Add_then_Get (c : Cache) (b k v : string) :
  wf c →
  (Get b k (Add b k v c).1).2
  = if (Add b k v c).2 && bool_decide (evictList c = []) then None else Some v.
Proof.
  intros Hwf. destruct (default ∅ (items c !! b) !! k) as [e|] eqn:Hk.
  - rewrite (Add_present c b k v e Hk). cbn [fst snd andb].
    destruct (items c !! b) as [bkt|] eqn:Hb; simpl in Hk;
      [|by rewrite lookup_empty in Hk].
    eapply (Get_found _ b k bkt e (Entry _ _ v)); [done..|].
    simpl. apply lookup_insert_eq.
  - rewrite (Add_absent c b k v Hk). cbv zeta.
    pose proof (wf_pushed c b k v Hwf Hk) as Hp.
    set (e := nextElement c).
    assert (Hpb : items (pushed b k v c) !! b
                  = Some (<[k := e]> (default ∅ (items c !! b))))
      by apply lookup_insert_eq.
    assert (Hpc : cells (pushed b k v c) !! e = Some (Entry b k v))
      by apply lookup_insert_eq.
    destruct (_ && _); cbn [fst snd andb].
    2:{ eapply (Get_found _ b k _ e (Entry b k v)); [done| |done].
        apply lookup_insert_eq. }
    unfold removeOldest, Back.
    assert (Hl : last (evictList (pushed b k v c))
                 = Some (default e (last (evictList c)))) by apply last_cons_default.
    rewrite Hl.
    destruct (evictList c) as [|x l] eqn:Hlist.
    + cbn [last default]. rewrite bool_decide_eq_true_2 by done.
      rewrite (removeElement_eq _ e (Entry b k v) _ Hpc Hpb).
      apply Get_not_found. cbn [items bucket key].
      rewrite lookup_insert_eq. simpl. apply lookup_delete_eq.
    + rewrite bool_decide_eq_false_2 by done.
      destruct (last (x :: l)) as [ent|] eqn:Hlast; [|by apply last_None in Hlast].
      cbn [default].
      assert (Hent : ent ∈ evictList c).
      { rewrite Hlist. by apply last_Some_elem_of. }
      destruct (wf_linked c Hwf ent Hent) as (kv & bkt0 & Hc0 & Hb0 & Hk0).
      assert (Hne : ent ≠ e) by by apply elem_lt_next.
      assert (Hpc0 : cells (pushed b k v c) !! ent = Some kv).
      { simpl. by rewrite lookup_insert_ne. }
      destruct (decide (bucket kv = b)) as [Heq|Hnb].
      * assert (Hkk : key kv ≠ k).
        { intros Hkk. rewrite <- Heq, Hb0 in Hk. simpl in Hk. congruence. }
        rewrite (removeElement_eq _ ent kv (<[k := e]> (default ∅ (items c !! b))))
          by (done || by rewrite Heq).
        eapply (Get_found _ b k _ e (Entry b k v)); [| |done].
        -- cbn [items]. rewrite Heq. apply lookup_insert_eq.
        -- rewrite lookup_delete_ne by done. apply lookup_insert_eq.
      * assert (Hpb0 : items (pushed b k v c) !! bucket kv = Some bkt0).
        { simpl. by rewrite lookup_insert_ne. }
        rewrite (removeElement_eq _ ent kv bkt0) by done.
        eapply (Get_found _ b k _ e (Entry b k v)); [| |done].
        -- cbn [items]. rewrite lookup_insert_ne by done. apply Hpb.
        -- apply lookup_insert_eq.
Qed.

(** With no budget ([maxSize = 0]) [Add] never evicts: it returns false,
    calls no callback, leaves the new pair resident and keeps every pair
    that was resident. *)
Theorem Add_unbounded (c : Cache) (b k v : string) :
  maxSize c = 0 →
  (Add b k v c).2 = false
  ∧ evicted (Add b k v c).1 = evicted c
  ∧ Contains b k (Add b k v c).1 = true
  ∧ (∀ b' k', Contains b' k' c = true → Contains b' k' (Add b k v c).1 = true)
  ∧ maxSize (Add b k v c).1 = 0.
Proof.
  intros Hm. destruct (default ∅ (items c !! b) !! k) as [e|] eqn:Hk.
  - rewrite (Add_present c b k v e Hk). cbn [fst snd].
    split_and!; try done.
    rewrite Contains_index. simpl. rewrite Hk.
    by apply bool_decide_eq_true_2.
  - rewrite (Add_absent c b k v Hk). cbv zeta.
    change (maxSize (pushed b k v c)) with (maxSize c). rewrite Hm.
    change (0 <? 0) with false. cbn [andb fst snd]. split_and!; try done.
    + rewrite Contains_index. unfold pushed. cbn [items].
      rewrite lookup_insert_eq. simpl.
      rewrite lookup_insert_eq. by apply bool_decide_eq_true_2.
    + intros b' k'. rewrite !Contains_index, !bool_decide_eq_true.
      unfold pushed. cbn [items].
      intros [e' He'].
      destruct (decide (b = b')) as [<-|Hnb].
      * rewrite lookup_insert_eq. simpl.
        destruct (decide (k = k')) as [<-|Hnk]; [congruence|].
        rewrite lookup_insert_ne by done. by eexists.
      * rewrite lookup_insert_ne by done. by eexists.
Qed.

(** *** RemoveBucket *)

Lemma unlink_filter e l : NoDup l → unlink e l = filter (λ x, x ≠ e) l.
Proof.
  induction l as [|y l IH]; intros Hnd; [done|].
  apply NoDup_cons in Hnd as [Hy Hnd]. cbn [unlink].
  destruct (decide (y = e)) as [->|Hne].
  - rewrite filter_cons_False by (by intros ?).
    rewrite <- IH by done. by rewrite unlink_notin.
  - rewrite filter_cons_True by done. by rewrite IH.
Qed.

Lemma filter_ext_in {A} (P Q : A → Prop) `{∀ x, Decision (P x), ∀ x, Decision (Q x)}
    (l : list A) :
  (∀ x, x ∈ l → P x ↔ Q x) → filter P l = filter Q l.
Proof.
  induction l as [|y l IH]; intros Hext; [done|].
  assert (Hl : filter P l = filter Q l).
  { apply IH. intros x Hx. apply Hext. by right. }
  destruct (decide (P y)) as [Hy|Hy].
  - rewrite !filter_cons_True; [by rewrite Hl| |done]. apply Hext; [by left|done].
  - rewrite !filter_cons_False; [done| |done]. intros HQ. apply Hy, Hext; [by left|done].
Qed.

Lemma filter_all {A} (P : A → Prop) `{∀ x, Decision (P x)} (l : list A) :
  (∀ x, x ∈ l → P x) → filter P l = l.
Proof.
  induction l as [|y l IH]; intros HP; [done|].
  rewrite filter_cons_True by (apply HP; by left).
  f_equal. apply IH. intros x Hx. apply HP. by right.
Qed.

Lemma filter_none {A} (P : A → Prop) `{∀ x, Decision (P x)} (l : list A) :
  (∀ x, x ∈ l → ¬ P x) → filter P l = [].
Proof.
  induction l as [|y l IH]; intros HP; [done|].
  rewrite filter_cons_False by (apply HP; by left).
  apply IH. intros x Hx. apply HP. by right.
Qed.

Lemma filter_fmap {A B} (f : A → B) (P : B → Prop) `{∀ y, Decision (P y)} (l : list A) :
  filter P (f <$> l) = f <$> filter (λ x, P (f x)) l.
Proof.
  induction l as [|y l IH]; [done|]. rewrite fmap_cons.
  destruct (decide (P (f y))).
  - rewrite !filter_cons_True by done. by rewrite fmap_cons, IH.
  - by rewrite !filter_cons_False by done.
Qed.

Lemma eq_reflexive_perm {A} (l k : list A) : l = k → l ≡ₚ k.
Proof. by intros ->. Qed.

Lemma Value_cells c c' : cells c' = cells c → Value c' = Value c.
Proof. intros H. unfold Value. by rewrite H. Qed.

(** The loop of [RemoveBucket], with what it does to the list and to the
    callback. *)
Lemma remove_all_spec (es : list (string * nat)) c :
  wf c → NoDup es.*2 → (∀ e, e ∈ es.*2 → e ∈ evictList c) →
  let c' := foldl (fun c '(_, ent) => removeElement ent c) c es in
  evictList c' = filter (λ x, x ∉ es.*2) (evictList c)
  ∧ cells c' = cells c
  ∧ evicted c' = (if onEvict c then evicted c ++ (Value c <$> es.*2) else evicted c)
  ∧ onEvict c' = onEvict c.
Proof.
  revert c. induction es as [|[k0 e0] es IH]; intros c Hwf Hnd Hin; simpl.
  - split_and!; try done.
    + symmetry. apply filter_all. intros x _. by intros ?%elem_of_nil.
    + destruct (onEvict c); [|done]. by rewrite app_nil_r.
  - simpl in Hnd. apply NoDup_cons in Hnd as [Hn0 Hnd].
    assert (He0 : e0 ∈ evictList c) by (apply Hin; simpl; by left).
    destruct (wf_linked c Hwf e0 He0) as (kv & bkt & Hc & Hb & Hk).
    pose proof (removeElement_eq c e0 kv bkt Hc Hb) as Heq.
    destruct (IH (removeElement e0 c)) as (Hl & Hcells & Hev & Hcb).
    + by apply wf_removeElement.
    + done.
    + intros e He. rewrite Heq. simpl. apply elem_of_unlink; [apply Hwf|].
      split; [apply Hin; simpl; by right|]. by intros ->.
    + rewrite Hl, Hcells, Hev, Hcb. rewrite Heq. simpl.
      rewrite (Value_cells c) by done.
      split_and!; try done.
      * rewrite unlink_filter by apply Hwf. rewrite list_filter_filter.
        apply list_filter_iff. intros x. rewrite not_elem_of_cons. naive_solver.
      * destruct (onEvict c); [|done]. rewrite <- app_assoc. simpl.
        assert (Value c e0 = kv) as -> by (unfold Value; by rewrite Hc). done.
Qed.

(** [RemoveBucket] tells whether the bucket was in the index.  Afterwards
    the bucket is out of the index, no entry of the bucket is resident, the
    entries of the other buckets keep their order, and the callback, if
    there is one, has been called once for each entry of the bucket. *)
Theorem RemoveBucket_spec (c : Cache) (b : string) :
  wf c →
  (RemoveBucket b c).2 = bool_decide (is_Some (items c !! b))
  ∧ items (RemoveBucket b c).1 !! b = None
  ∧ entries (RemoveBucket b c).1 = filter (λ e, bucket e ≠ b) (entries c)
  ∧ ∃ gone, gone ≡ₚ filter (λ e, bucket e = b) (entries c)
      ∧ evicted (RemoveBucket b c).1
        = (if onEvict c then evicted c ++ gone else evicted c).
Proof.
  intros Hwf. unfold RemoveBucket.
  destruct (items c !! b) as [bkt|] eqn:Hb; cbn [fst snd].
  - assert (Hmem : ∀ x, x ∈ evictList c →
                         x ∈ (map_to_list bkt).*2 ↔ bucket (Value c x) = b).
    { intros x Hx. rewrite list_elem_of_fmap. split.
      - intros ([k e] & -> & Hke%elem_of_map_to_list). simpl.
        destruct (wf_indexed c Hwf _ _ _ _ Hb Hke) as (_ & kv & Hc & Hbk & _).
        unfold Value. by rewrite Hc.
      - intros Hbx. destruct (wf_linked c Hwf x Hx) as (kv & bkt' & Hc & Hb' & Hk').
        unfold Value in Hbx. rewrite Hc in Hbx. simpl in Hbx.
        rewrite Hbx, Hb in Hb'. injection Hb' as <-.
        exists (key kv, x). split; [done|]. by apply elem_of_map_to_list. }
    assert (Hnd : NoDup (map_to_list bkt).*2).
    { apply NoDup_fmap_2_strong; [|apply NoDup_map_to_list].
      intros [k1 e1] [k2 e2] H1%elem_of_map_to_list H2%elem_of_map_to_list.
      simpl. intros ->.
      destruct (wf_indexed c Hwf _ _ _ _ Hb H1) as (_ & kv1 & Hc1 & _ & Hk1).
      destruct (wf_indexed c Hwf _ _ _ _ Hb H2) as (_ & kv2 & Hc2 & _ & Hk2).
      congruence. }
    assert (Hall : ∀ e, e ∈ (map_to_list bkt).*2 → e ∈ evictList c).
    { intros e He. apply list_elem_of_fmap in He as ([k e'] & -> & He).
      apply elem_of_map_to_list in He. simpl.
      by apply (wf_indexed c Hwf b bkt k e'). }
    destruct (remove_all_spec (map_to_list bkt) c Hwf Hnd Hall)
      as (Hl & Hcells & Hev & _).
    unfold set_items. cbn [items evicted].
    split_and!.
    + symmetry. apply bool_decide_eq_true_2. by eexists.
    + apply lookup_delete_eq.
    + unfold entries. cbn [evictList cells]. rewrite Hl.
      rewrite (Value_cells c) by done.
      rewrite filter_fmap. f_equal. apply filter_ext_in.
      intros x Hx. by rewrite (Hmem x Hx).
    + exists (Value c <$> (map_to_list bkt).*2). split; [|done].
      unfold entries. rewrite filter_fmap. apply fmap_Permutation.
      apply NoDup_Permutation; [done|by apply NoDup_filter, Hwf|].
      intros x. rewrite list_elem_of_filter. split.
      * intros Hx. split; [|by apply Hall]. by apply Hmem; [apply Hall|].
      * intros [Hbx Hx]. by apply Hmem.
  - assert (Hno : ∀ x, x ∈ evictList c → bucket (Value c x) ≠ b).
    { intros x Hx Hbx. destruct (wf_linked c Hwf x Hx) as (kv & bkt' & Hc & Hb' & _).
      unfold Value in Hbx. rewrite Hc in Hbx. simpl in Hbx. congruence. }
    split_and!.
    + symmetry. apply bool_decide_eq_false_2. by intros [? ?].
    + done.
    + unfold entries. rewrite filter_fmap. f_equal.
      symmetry. by apply filter_all.
    + exists []. split; [|by destruct (onEvict c); rewrite ?app_nil_r].
      unfold entries. rewrite filter_fmap.
      rewrite filter_none; [done|]. intros x Hx Hbx. by apply (Hno x).
Qed.

(** *** Purge *)

Lemma Purge_key_evicted bkt c kv :
  onEvict (Purge_key bkt c kv) = onEvict c
  ∧ evicted (Purge_key bkt c kv)
    = (if onEvict c
       then evicted c ++ [Entry bkt kv.1 (value (Value c kv.2))] else evicted c).
Proof.
  destruct kv as [k v]. unfold Purge_key, callOnEvict.
  by destruct (onEvict c) eqn:E; simpl; rewrite ?E.
Qed.

Lemma Purge_inner_evicted c bkt (ks : list (string * nat)) :
  let c' := foldl (Purge_key bkt) c ks in
  onEvict c' = onEvict c
  ∧ evicted c'
    = (if onEvict c
       then evicted c ++ ((λ kv, Entry bkt kv.1 (value (Value c kv.2))) <$> ks)
       else evicted c).
Proof.
  revert c. induction ks as [|kv ks IH]; intros c; simpl.
  - split; [done|]. destruct (onEvict c); [|done]. by rewrite app_nil_r.
  - destruct (IH (Purge_key bkt c kv)) as (Hcb & Hev).
    destruct (Purge_key_evicted bkt c kv) as (Hcb1 & Hev1).
    destruct (Purge_key_facts bkt c kv) as (Hcells & _).
    rewrite Hcb, Hev, Hcb1, Hev1, (Value_cells c _ Hcells).
    split; [done|]. destruct (onEvict c); [|done]. by rewrite <- app_assoc.
Qed.

Lemma Purge_outer_evicted (L : list (string * gmap string nat)) c :
  let c' := foldl Purge_bucket c L in
  onEvict c' = onEvict c
  ∧ evicted c'
    = (if onEvict c
       then evicted c ++
            (L ≫= λ bk, (λ kv, Entry bk.1 kv.1 (value (Value c kv.2)))
                         <$> map_to_list bk.2)
       else evicted c).
Proof.
  revert c. induction L as [|[b0 keys] L IH]; intros c.
  - simpl. split; [done|]. destruct (onEvict c); [|done]. by rewrite app_nil_r.
  - cbn [foldl].
    change (Purge_bucket c (b0, keys)) with (foldl (Purge_key b0) c (map_to_list keys)).
    destruct (IH (foldl (Purge_key b0) c (map_to_list keys))) as (Hcb & Hev).
    destruct (Purge_inner_evicted c b0 (map_to_list keys)) as (Hcb1 & Hev1).
    destruct (Purge_inner c b0 (map_to_list keys)) as (Hcells & _).
    rewrite Hcb, Hev, Hcb1, Hev1, (Value_cells c _ Hcells).
    split; [done|]. destruct (onEvict c); [|done].
    rewrite bind_cons. cbn [fst snd]. by rewrite <- app_assoc.
Qed.

Lemma fmap_bind_distr {A B C} (f : B → C) (g : A → list B) (l : list A) :
  f <$> (l ≫= g) = l ≫= λ x, f <$> g x.
Proof.
  induction l as [|x l IH]; [done|]. by rewrite !bind_cons, fmap_app, IH.
Qed.

(** In a well-formed cache the index lists every element of the recency
    list once. *)
Lemma index_elements c :
  wf c →
  (map_to_list (items c) ≫= λ bk, (map_to_list bk.2).*2) ≡ₚ evictList c.
Proof.
  intros Hwf. apply NoDup_Permutation; [|apply Hwf|].
  - apply NoDup_bind; [| |apply NoDup_map_to_list].
    + intros [b1 m1] [b2 m2] e H1%elem_of_map_to_list H2%elem_of_map_to_list.
      simpl. intros ([k1 e1] & -> & Hk1%elem_of_map_to_list)%list_elem_of_fmap.
      intros ([k2 e2] & He & Hk2%elem_of_map_to_list)%list_elem_of_fmap.
      simpl in He. subst e2.
      destruct (wf_indexed c Hwf _ _ _ _ H1 Hk1) as (_ & kv1 & Hc1 & Hb1 & _).
      destruct (wf_indexed c Hwf _ _ _ _ H2 Hk2) as (_ & kv2 & Hc2 & Hb2 & _).
      assert (b1 = b2) as -> by congruence. congruence.
    + intros [b m] Hb%elem_of_map_to_list. simpl.
      apply NoDup_fmap_2_strong; [|apply NoDup_map_to_list].
      intros [k1 e1] [k2 e2] H1%elem_of_map_to_list H2%elem_of_map_to_list.
      simpl. intros ->.
      destruct (wf_indexed c Hwf _ _ _ _ Hb H1) as (_ & kv1 & Hc1 & _ & Hk1).
      destruct (wf_indexed c Hwf _ _ _ _ Hb H2) as (_ & kv2 & Hc2 & _ & Hk2).
      congruence.
  - intros e. rewrite list_elem_of_bind. split.
    + intros ([b m] & ([k e'] & -> & Hk%elem_of_map_to_list)%list_elem_of_fmap
              & Hb%elem_of_map_to_list).
      simpl. by apply (wf_indexed c Hwf b m k e').
    + intros He. destruct (wf_linked c Hwf e He) as (kv & bkt & Hc & Hb & Hk).
      exists (bucket kv, bkt). split; [|by apply elem_of_map_to_list].
      simpl. apply list_elem_of_fmap. exists (key kv, e).
      split; [done|]. by apply elem_of_map_to_list.
Qed.

(** [Purge] empties the cache: no entry is left, nothing is contained,
    [size] and [count] are zero, and the callback, if there is one, has
    been called once for each entry that was resident. *)
Theorem Purge_spec (c : Cache) :
  wf c →
  entries (Purge c) = []
  ∧ Len (Purge c) = 0 ∧ size (Purge c) = 0 ∧ count (Purge c) = 0
  ∧ (∀ b k, Contains b k (Purge c) = false)
  ∧ ∃ gone, gone ≡ₚ entries c
      ∧ evicted (Purge c) = (if onEvict c then evicted c ++ gone else evicted c).
Proof.
  intros Hwf. pose proof (wf_Purge c Hwf) as Hwf'.
  split_and!; try done.
  - intros b k. apply not_true_is_false. intros Hc.
    rewrite Contains_index, bool_decide_eq_true in Hc. destruct Hc as [e He].
    destruct (present_inv _ b k e Hwf' He) as (Hin & _).
    by apply elem_of_nil in Hin.
  - destruct (Purge_outer_evicted (map_to_list (items c)) c) as (_ & Hev).
    eexists. split; [|exact Hev].
    unfold entries. rewrite <- (index_elements c Hwf), fmap_bind_distr.
    apply eq_reflexive_perm. apply Forall_bind_ext, Forall_forall.
    intros [b m] Hb%elem_of_map_to_list. cbn [fst snd].
    rewrite <- list_fmap_compose. apply Forall_fmap_ext, Forall_forall.
    intros [k e] Hk%elem_of_map_to_list. simpl.
    destruct (wf_indexed c Hwf _ _ _ _ Hb Hk) as (_ & [b' k' v] & Hc & Hb' & Hk').
    unfold Value. rewrite Hc. simpl in *. by subst.
Qed.

(** *** What Peek sees after a step *)

Lemma Peek_Get c b k b' k' : Peek b' k' (Get b k c).1 = Peek b' k' c.
Proof.
  unfold Get. destruct (items c !! b) as [bkt|]; [|done].
  by destruct (bkt !! k).
Qed.

Lemma Get_Peek c b k : (Get b k c).2 = Peek b k c.
Proof.
  unfold Get, Peek. destruct (items c !! b) as [bkt|]; [|done].
  by destruct (bkt !! k).
Qed.

Lemma Peek_removeElement c e b k v :
  wf c → e ∈ evictList c →
  Peek b k (removeElement e c) = Some v →
  Peek b k c = Some v ∧ slot (Value c e) ≠ (b, k).
Proof.
  intros Hwf He.
  destruct (wf_linked c Hwf e He) as (kv & bkt & Hc & Hb & Hk).
  rewrite (removeElement_eq c e kv bkt) by done.
  assert (HV : Value c e = kv) by (unfold Value; by rewrite Hc).
  rewrite HV. unfold Peek, slot. cbn [items].
  destruct (decide (bucket kv = b)) as [<-|Hnb].
  - rewrite lookup_insert_eq, Hb.
    destruct (decide (key kv = k)) as [<-|Hnk]; [by rewrite lookup_delete_eq|].
    rewrite lookup_delete_ne by done. intros H. split; [exact H|congruence].
  - rewrite lookup_insert_ne by done. intros H. split; [exact H|congruence].
Qed.

Lemma Peek_Remove c b k b' k' v :
  wf c → Peek b' k' (Remove b k c).1 = Some v →
  Peek b' k' c = Some v ∧ (b', k') ≠ (b, k).
Proof.
  intros Hwf. unfold Remove.
  destruct (items c !! b) as [bkt|] eqn:Hb.
  - destruct (bkt !! k) as [e|] eqn:Hk; cbn [fst].
    + assert (Hk' : default ∅ (items c !! b) !! k = Some e) by by rewrite Hb.
      destruct (present_inv c b k e Hwf Hk') as (Hin & v0 & Hc).
      intros [HP Hs]%Peek_removeElement; [|done..].
      split; [done|]. unfold slot, Value in Hs. rewrite Hc in Hs. simpl in Hs. congruence.
    + intros HP. split; [done|]. intros [= -> ->].
      unfold Peek in HP. by rewrite Hb, Hk in HP.
  - cbn [fst]. intros HP. split; [done|]. intros [= -> ->].
    unfold Peek in HP. by rewrite Hb in HP.
Qed.

Lemma Peek_remove_all (es : list (string * nat)) c b k v :
  wf c → NoDup es.*2 → (∀ e, e ∈ es.*2 → e ∈ evictList c) →
  Peek b k (foldl (fun c '(_, ent) => removeElement ent c) c es) = Some v →
  Peek b k c = Some v.
Proof.
  revert c. induction es as [|[k0 e0] es IH]; intros c Hwf Hnd Hin; simpl; [done|].
  simpl in Hnd. apply NoDup_cons in Hnd as [Hn0 Hnd].
  assert (He0 : e0 ∈ evictList c) by (apply Hin; simpl; by left).
  destruct (removeElement_facts c e0 Hwf He0) as (Hl & _ & _).
  intros HP. apply IH in HP; [|by apply wf_removeElement|done|].
  - by apply Peek_removeElement in HP as [HP _].
  - intros e He. rewrite Hl. apply elem_of_unlink; [apply Hwf|].
    split; [apply Hin; simpl; by right|]. by intros ->.
Qed.

Lemma Peek_RemoveBucket c b b' k' v :
  wf c → Peek b' k' (RemoveBucket b c).1 = Some v →
  Peek b' k' c = Some v ∧ b' ≠ b.
Proof.
  intros Hwf. unfold RemoveBucket.
  destruct (items c !! b) as [bkt|] eqn:Hb; cbn [fst].
  2:{ intros HP. split; [done|]. intros ->. unfold Peek in HP. by rewrite Hb in HP. }
  set (c1 := foldl _ c _).
  intros HP.
  assert (Hne : b' ≠ b).
  { intros ->. unfold Peek, set_items in HP. cbn [items] in HP.
    by rewrite lookup_delete_eq in HP. }
  split; [|done].
  assert (HP1 : Peek b' k' c1 = Some v).
  { unfold Peek, set_items in HP |- *. cbn [items] in HP.
    by rewrite lookup_delete_ne in HP. }
  apply (Peek_remove_all (map_to_list bkt) c b' k' v Hwf); [| |exact HP1].
  - apply NoDup_fmap_2_strong; [|apply NoDup_map_to_list].
    intros [k1 e1] [k2 e2] H1%elem_of_map_to_list H2%elem_of_map_to_list.
    simpl. intros ->.
    destruct (wf_indexed c Hwf _ _ _ _ Hb H1) as (_ & kv1 & Hc1 & _ & Hk1).
    destruct (wf_indexed c Hwf _ _ _ _ Hb H2) as (_ & kv2 & Hc2 & _ & Hk2).
    congruence.
  - intros e He. apply list_elem_of_fmap in He as ([k e'] & -> & He).
    apply elem_of_map_to_list in He. simpl.
    by apply (wf_indexed c Hwf b bkt k e').
Qed.

Lemma Peek_pushed c b k v b' k' v' :
  wf c → default ∅ (items c !! b) !! k = None →
  Peek b' k' (pushed b k v c) = Some v' →
  ((b', k') = (b, k) ∧ v' = v) ∨ Peek b' k' c = Some v'.
Proof.
  intros Hwf Hk. unfold Peek, pushed, Value. cbn [items cells].
  destruct (decide (b = b')) as [<-|Hnb].
  - rewrite lookup_insert_eq.
    destruct (decide (k = k')) as [<-|Hnk].
    + rewrite !lookup_insert_eq. simpl. intros [= <-]. by left.
    + rewrite lookup_insert_ne by done.
      destruct (items c !! b) as [bkt|] eqn:Hb; simpl;
        [|by rewrite lookup_empty].
      destruct (bkt !! k') as [e|] eqn:Hk'; [|done].
      destruct (wf_indexed c Hwf _ _ _ _ Hb Hk') as (Hin & _).
      rewrite lookup_insert_ne by (by apply not_eq_sym, elem_lt_next). by right.
  - rewrite lookup_insert_ne by done.
    destruct (items c !! b') as [bkt|] eqn:Hb; [|done].
    destruct (bkt !! k') as [e|] eqn:Hk'; [|done].
    destruct (wf_indexed c Hwf _ _ _ _ Hb Hk') as (Hin & _).
    rewrite lookup_insert_ne by (by apply not_eq_sym, elem_lt_next). by right.
Qed.

Lemma Peek_Add c b k v b' k' v' :
  wf c → Peek b' k' (Add b k v c).1 = Some v' →
  ((b', k') = (b, k) ∧ v' = v) ∨ Peek b' k' c = Some v'.
Proof.
  intros Hwf. destruct (default ∅ (items c !! b) !! k) as [e|] eqn:Hk.
  - rewrite (Add_present c b k v e Hk). cbn [fst].
    destruct (present_inv c b k e Hwf Hk) as (Hin & v0 & Hc).
    unfold Peek, set_cells, set_evictList, Value. cbn [items cells].
    destruct (items c !! b') as [bkt|] eqn:Hb; [|done].
    destruct (bkt !! k') as [e'|] eqn:Hk'; [|done].
    destruct (decide (e = e')) as [<-|Hne].
    + rewrite lookup_insert_eq. simpl. intros [= <-]. left. split; [|done].
      destruct (wf_indexed c Hwf _ _ _ _ Hb Hk') as (_ & kv & Hc' & Hbk & Hkk).
      rewrite Hc in Hc'. injection Hc' as <-. simpl in *. congruence.
    + rewrite lookup_insert_ne by done. by right.
  - rewrite (Add_absent c b k v Hk). cbv zeta.
    pose proof (wf_pushed c b k v Hwf Hk) as Hp.
    destruct (_ && _); cbn [fst]; [|by apply Peek_pushed].
    unfold removeOldest, Back.
    destruct (last (evictList (pushed b k v c))) as [ent|] eqn:Hl;
      [|by apply Peek_pushed].
    intros [HP _]%Peek_removeElement; [|done|by apply last_Some_elem_of].
    by apply (Peek_pushed c b k v).
Qed.

(** *** The theorems at work on a cache of three entries *)

Lemma warm_cache_wf : wf Fixtures.warm_cache.
Proof. apply wf_run, wf_NewCache. Qed.

Lemma Remove_present_witness :
  let c := Fixtures.warm_cache in
  wf c ∧ Contains "a" "k1" c = true
  ∧ ∃ v, Peek "a" "k1" c = Some v
    ∧ (Remove "a" "k1" c).2 = true
    ∧ Contains "a" "k1" (Remove "a" "k1" c).1 = false
    ∧ entries (Remove "a" "k1" c).1 = filter (λ x, ¬ same_slot "a" "k1" x) (entries c)
    ∧ size (Remove "a" "k1" c).1 = uint64 (size c - uint64 (Size (Entry "a" "k1" v)))
    ∧ evicted (Remove "a" "k1" c).1
      = (if onEvict c then evicted c ++ [Entry "a" "k1" v] else evicted c).
Proof.
  cbv zeta. split; [apply warm_cache_wf|]. split; [by vm_compute|].
  apply (Remove_present Fixtures.warm_cache "a" "k1"); [apply warm_cache_wf|by vm_compute].
Defined.

Lemma Get_spec_witness :
  let c := Fixtures.warm_cache in
  wf c
  ∧ (Get "b" "k2" c).2 = Some "v2"
  ∧ entries (Get "b" "k2" c).1
    = [Entry "b" "k2" "v2"; Entry "a" "k3" "v3"; Entry "a" "k1" "v1"]
  ∧ size (Get "b" "k2" c).1 = size c
  ∧ evicted (Get "b" "k2" c).1 = evicted c.
Proof.
  cbv zeta. split; [apply warm_cache_wf|].
  destruct (Get_spec Fixtures.warm_cache "b" "k2" warm_cache_wf) as (H1 & H2 & _ & H3 & H4).
  change (Peek "b" "k2" Fixtures.warm_cache) with (Some "v2") in H1, H2.
  split_and!; [done|rewrite H2; by vm_compute|done..].
Defined.

Lemma RemoveOldest_spec_witness :
  let c := Fixtures.warm_cache in
  wf c
  ∧ GetOldest c = Some (Entry "a" "k1" "v1")
  ∧ (RemoveOldest c).2 = Some (Entry "a" "k1" "v1")
  ∧ entries (RemoveOldest c).1 = [Entry "a" "k3" "v3"; Entry "b" "k2" "v2"].
Proof.
  cbv zeta. split; [apply warm_cache_wf|].
  destruct (RemoveOldest_spec Fixtures.warm_cache warm_cache_wf) as (H1 & H2 & H3 & _).
  rewrite H1, H2, H3. by vm_compute.
Defined.

Lemma Add_then_Get_witness :
  wf (NewCache 4 false)
  ∧ (Get "b" "k" (Add "b" "k" "v" Fixtures.warm_cache).1).2 = Some "v"
  ∧ (Get "b" "k" (Add "b" "k" "vvvvvvvv" (NewCache 4 false)).1).2 = None.
Proof.
  split; [apply wf_NewCache|]. split.
  - by rewrite (Add_then_Get Fixtures.warm_cache "b" "k" "v" warm_cache_wf).
  - by rewrite (Add_then_Get (NewCache 4 false) "b" "k" "vvvvvvvv" (wf_NewCache 4 false)).
Defined.

Lemma Add_unbounded_witness :
  let c := Fixtures.warm_cache in
  maxSize c = 0
  ∧ (Add "c" "k4" "v4" c).2 = false
  ∧ evicted (Add "c" "k4" "v4" c).1 = evicted c
  ∧ Contains "c" "k4" (Add "c" "k4" "v4" c).1 = true
  ∧ (∀ b' k', Contains b' k' c = true → Contains b' k' (Add "c" "k4" "v4" c).1 = true)
  ∧ maxSize (Add "c" "k4" "v4" c).1 = 0.
Proof.
  cbv zeta. split; [by vm_compute|].
  apply (Add_unbounded Fixtures.warm_cache "c" "k4" "v4"). by vm_compute.
Defined.

Lemma RemoveBucket_spec_witness :
  let c := Fixtures.warm_cache in
  wf c
  ∧ (RemoveBucket "a" c).2 = bool_decide (is_Some (items c !! "a"))
  ∧ items (RemoveBucket "a" c).1 !! "a" = None
  ∧ entries (RemoveBucket "a" c).1 = filter (λ e, bucket e ≠ "a") (entries c)
  ∧ ∃ gone, gone ≡ₚ filter (λ e, bucket e = "a") (entries c)
      ∧ evicted (RemoveBucket "a" c).1
        = (if onEvict c then evicted c ++ gone else evicted c).
Proof.
  cbv zeta. split; [apply warm_cache_wf|].
  apply (RemoveBucket_spec Fixtures.warm_cache "a"), warm_cache_wf.
Defined.

Lemma Purge_spec_witness :
  let c := Fixtures.warm_cache in
  wf c
  ∧ entries (Purge c) = []
  ∧ Len (Purge c) = 0 ∧ size (Purge c) = 0 ∧ count (Purge c) = 0
  ∧ (∀ b k, Contains b k (Purge c) = false)
  ∧ ∃ gone, gone ≡ₚ entries c
      ∧ evicted (Purge c) = (if onEvict c then evicted c ++ gone else evicted c).
Proof.
  cbv zeta. split; [apply warm_cache_wf|].
  apply (Purge_spec Fixtures.warm_cache), warm_cache_wf.
Defined.

End CacheProofs.

(** * Properties of the store *)

Module StoreProofs.
Import Go RaftStore.

Section gate.

Context {RawMessage : Type}.
Variable json : Json RawMessage.
Variable raft_Apply : Store RawMessage → RawMessage → Z → Store RawMessage * ApplyFuture.

(** C2.  On a node whose raft state is not [Leader], every write call
    returns [ErrNotLeader] and the node it leaves is the node it found: the
    database, the cache and the session table are unchanged and nothing has
    been handed to [raft.Apply], whatever the codec and the consensus
    module are. *)
Theorem write_on_non_leader (w : write) (s : Store RawMessage) :
  raftState s ≠ Leader →
  call json raft_Apply w s = (s, Some ErrNotLeader).
Proof.
  intros Hs. destruct w; simpl;
    unfold Update, Batch, CreateBucket, CreateBucketIfNotExist, RemoveKey,
      RemoveBucket, SetSession, DelSession, Restore;
    by rewrite decide_True.
Qed.

(** C7.  [Batch] with no rows returns an error and leaves the node as it
    found it, with nothing handed to [raft.Apply]: the error is
    [ErrNotLeader] on a node that is not the leader and "no data in batch"
    on the leader. *)
Theorem Batch_no_rows (s : Store RawMessage) :
  Batch json raft_Apply [] s =
    (s, Some (if decide (raftState s ≠ Leader) then ErrNotLeader
              else errors_New "no data in batch")).
Proof. unfold Batch. by destruct (decide (raftState s ≠ Leader)). Qed.

(** What a write call does on the leader once its gate is passed. *)
Lemma Update_on_leader bucket key value (s : Store RawMessage) :
  raftState s = Leader →
  Update json raft_Apply bucket key value s =
    submit json raft_Apply update
      (JDatabaseSub (MkDatabaseSub "" [MkRow bucket key value])) s.
Proof. intros Hs. unfold Update. by rewrite decide_False by (by intros ?). Qed.

(** C4.  The FSM on a decoded [Update] or [RemoveKey] payload.  If the
    payload does not hold exactly one row, both apply steps return the
    arity error and leave the node, database and cache included, as it was.
    If it holds exactly one row, the step goes on to the engine: without the
    bucket it returns [bucketNotFound] and changes nothing; with the bucket
    it removes the pair from the cache and puts (deletes) the key, so that
    after a successful [Put] the bucket holds the row's value under the
    row's key and after the delete the key is gone; a [Put] the engine
    refuses leaves the database as it was and returns the engine's error. *)
Theorem apply_row_arity (sub : RawMessage) (d : databaseSub) (s : Store RawMessage) :
  Unmarshal_databaseSub json sub = inr d →
  let n := Z.of_nat (length (BatchRows d)) in
  (length (BatchRows d) ≠ 1%nat →
     applyUpdate json sub s
       = (s, Some (Errorf_d "update just accept 1 row data: %d" n))
     ∧ applyRemoveKey json sub s
       = (s, Some (Errorf_d "delete key just accept 1 row data: %d" n)))
  ∧ (∀ row, BatchRows d = [row] →
       match db s !! Bucket row with
       | None =>
           applyUpdate json sub s = (s, Some bucketNotFound)
           ∧ applyRemoveKey json sub s = (s, Some bucketNotFound)
       | Some b =>
           let c' := (LruCache.Remove (Bucket row) (Key row) (cache s)).1 in
           let s' := set_cache c' s in
           match Bolt.Put b (Key row) (Value row) with
           | inr b' =>
               applyUpdate json sub s = (set_db (<[Bucket row := b']> (db s)) s', None)
               ∧ b' !! Key row = Some (Value row)
           | inl err => applyUpdate json sub s = (s', Some err)
           end
           ∧ applyRemoveKey json sub s
             = (set_db (<[Bucket row := delete (Key row) b]> (db s)) s', None)
       end).
Proof.
  intros Hd n. split.
  - intros Hn. unfold applyUpdate, applyRemoveKey. rewrite Hd.
    assert ((Z.of_nat (length (BatchRows d)) =? 1) = false) as ->; [|done].
    apply Z.eqb_neq. lia.
  - intros row Hrow. unfold applyUpdate, applyRemoveKey. rewrite Hd, Hrow. simpl.
    unfold Bolt.Bucket. destruct (db s !! Bucket row) as [b|]; [|done].
    simpl. split; [|done].
    destruct (Bolt.Put b (Key row) (Value row)) as [err|b'] eqn:Hput; [done|].
    split; [done|]. unfold Bolt.Put in Hput.
    destruct (len (Key row) =? 0); [done|].
    destruct (Bolt.MaxKeySize <? len (Key row)); [done|].
    destruct (Bolt.MaxValueSize <? len (Value row)); [done|].
    injection Hput as <-. apply lookup_insert_eq.
Qed.

End gate.

(** A follower holding data in all three components refuses an update. *)
Lemma write_on_non_leader_witness :
  raftState Fixtures.follower_with_k1 ≠ Leader
  ∧ call Fixtures.wire_json Fixtures.solo_Apply (WUpdate "ns" "k1" "v2")
      Fixtures.follower_with_k1
    = (Fixtures.follower_with_k1, Some ErrNotLeader).
Proof.
  split; [done|].
  apply (write_on_non_leader Fixtures.wire_json Fixtures.solo_Apply). done.
Defined.

(** An [Update] payload with two rows, and one with one row, on the leader
    that holds "k1" -> "v1" in bucket "ns". *)
Lemma apply_row_arity_witness :
  let two := MkDatabaseSub ""
               [MkRow "ns" "k1" "a"; MkRow "ns" "k2" "b"] in
  let one := MkDatabaseSub "" [MkRow "ns" "k1" "v2"] in
  let s := Fixtures.leader_with_k1 in
  (applyUpdate Fixtures.wire_json (Fixtures.WireDatabaseSub two) s
     = (s, Some (Errorf_d "update just accept 1 row data: %d" 2))
   ∧ applyRemoveKey Fixtures.wire_json (Fixtures.WireDatabaseSub two) s
     = (s, Some (Errorf_d "delete key just accept 1 row data: %d" 2)))
  ∧ ((applyUpdate Fixtures.wire_json (Fixtures.WireDatabaseSub one) s).2 = None
     ∧ db (applyUpdate Fixtures.wire_json (Fixtures.WireDatabaseSub one) s).1
         !! "ns" = Some {["k1" := "v2"]})
  ∧ db (applyRemoveKey Fixtures.wire_json (Fixtures.WireDatabaseSub one) s).1
      !! "ns" = Some ∅.
Proof.
  cbv zeta.
  pose proof (apply_row_arity Fixtures.wire_json (Fixtures.WireDatabaseSub
    (MkDatabaseSub "" [MkRow "ns" "k1" "a"; MkRow "ns" "k2" "b"]))
    _ Fixtures.leader_with_k1 eq_refl) as [H2 _].
  pose proof (apply_row_arity Fixtures.wire_json (Fixtures.WireDatabaseSub
    (MkDatabaseSub "" [MkRow "ns" "k1" "v2"]))
    _ Fixtures.leader_with_k1 eq_refl) as [_ H1].
  split; [apply H2; simpl; lia|].
  specialize (H1 _ eq_refl). by vm_compute.
Defined.

(** *** Byte order and prefixes *)

Lemma ascii_compare_refl a : Ascii.compare a a = Eq.
Proof. unfold Ascii.compare. apply N.compare_refl. Qed.

Lemma ascii_compare_Eq a b : Ascii.compare a b = Eq ↔ a = b.
Proof.
  split; [apply Ascii.compare_eq_iff|]. intros ->. apply ascii_compare_refl.
Qed.

Lemma string_compare_case a s b t :
  String.compare (String a s) (String b t) =
    match Ascii.compare a b with Eq => String.compare s t | c => c end.
Proof. reflexivity. Qed.

Lemma leb_trans s1 s2 s3 :
  String.leb s1 s2 = true → String.leb s2 s3 = true → String.leb s1 s3 = true.
Proof.
  unfold String.leb. revert s2 s3.
  induction s1 as [|a s1 IH]; intros [|b s2] [|c s3]; simpl; try done.
  unfold Ascii.compare.
  destruct (N.compare_spec (Ascii.N_of_ascii a) (Ascii.N_of_ascii b)) as [E1|L1|G1];
  destruct (N.compare_spec (Ascii.N_of_ascii b) (Ascii.N_of_ascii c)) as [E2|L2|G2];
  try done.
  - rewrite E1, E2, N.compare_refl. apply IH.
  - intros _ _. rewrite E1. by rewrite (proj2 (N.compare_lt_iff _ _) L2).
  - intros _ _. rewrite <- E2. by rewrite (proj2 (N.compare_lt_iff _ _) L1).
  - intros _ _. by rewrite (proj2 (N.compare_lt_iff _ _) (N.lt_trans _ _ _ L1 L2)).
Qed.

Lemma prefix_not_below p k : String.prefix p k = true → String.ltb k p = false.
Proof.
  unfold String.ltb. revert k. induction p as [|a p IH]; intros [|b k]; simpl; try done.
  destruct (Ascii.ascii_dec a b) as [->|]; [|done].
  intros Hp. rewrite ascii_compare_refl. by apply IH.
Qed.

Lemma prefix_between p k1 k2 :
  String.ltb k1 p = false → String.leb k1 k2 = true →
  String.prefix p k2 = true → String.prefix p k1 = true.
Proof.
  unfold String.ltb, String.leb. revert k1 k2.
  induction p as [|a p IH]; intros [|b k1] [|c k2]; simpl; try done.
  destruct (Ascii.ascii_dec a c) as [<-|]; [|done].
  destruct (Ascii.compare b a) eqn:E; try done.
  apply Ascii.compare_eq_iff in E as ->.
  destruct (Ascii.ascii_dec a a); [|done]. apply IH.
Qed.

Lemma ltb_empty k : String.ltb k "" = false.
Proof. by destruct k. Qed.

Lemma prefix_empty k : String.prefix "" k = true.
Proof. by destruct k. Qed.

Global Instance key_le_trans : Transitive Bolt.key_le.
Proof. intros x y z. apply leb_trans. Qed.
Global Instance key_le_total : Total Bolt.key_le.
Proof. intros x y. apply String.leb_total. Qed.

Lemma ltb_false_leb k p : String.ltb k p = false ↔ String.leb p k = true.
Proof.
  unfold String.ltb, String.leb. rewrite (String.compare_antisym p k).
  destruct (String.compare k p); simpl; split; done.
Qed.

Lemma len_zero (k : string) : (len k =? 0) = true ↔ k = "".
Proof.
  unfold len. rewrite Z.eqb_eq. destruct k; simpl; [done|].
  split; [lia|done].
Qed.

(** *** The prefix scan *)

Lemma ViewPrefix_loop_lookup p (l : list (string * string)) r k v :
  StronglySorted Bolt.key_le l → NoDup l.*1 →
  Forall (λ kv, kv.1 ≠ "" ∧ String.ltb kv.1 p = false) l →
  ViewPrefix_loop p l r !! k = Some v ↔
    ((k, v) ∈ l ∧ String.prefix p k = true ∧ v ≠ "")
    ∨ (¬ (∃ v', (k, v') ∈ l ∧ String.prefix p k = true ∧ v' ≠ "") ∧ r !! k = Some v).
Proof.
  revert r. induction l as [|[k0 v0] l IH]; intros r Hs Hnd Hall.
  - simpl. split; [|by intros [[?%elem_of_nil _]|[_ ?]]].
    intros Hr. right. split; [|done]. by intros (v' & ?%elem_of_nil & _).
  - apply StronglySorted_inv in Hs as [Hs Hle].
    apply Forall_cons in Hall as [[Hk0 Hge] Hall].
    simpl in Hnd. apply NoDup_cons in Hnd as [Hnin Hnd]. simpl in Hk0, Hge.
    assert (Hnin' : ∀ v', (k0, v') ∉ l).
    { intros v' Hin. apply Hnin. apply list_elem_of_fmap. by exists (k0, v'). }
    cbn [ViewPrefix_loop].
    assert ((len k0 =? 0) = false) as ->.
    { apply not_true_is_false. by rewrite len_zero. }
    simpl. destruct (String.prefix p k0) eqn:Hp.
    + rewrite (IH _ Hs Hnd Hall). clear IH.
      destruct (decide (k = k0)) as [->|Hne].
      * destruct (len v0 =? 0) eqn:Hv0; simpl.
        -- apply len_zero in Hv0 as ->. split.
           ++ intros [[Hin _]|[_ Hr]]; [by apply Hnin' in Hin|].
              right. split; [|done].
              intros (v' & [Heq|Hin]%elem_of_cons & _ & Hv'); [congruence|].
              by apply Hnin' in Hin.
           ++ intros [[[Heq|Hin]%elem_of_cons [_ Hv]]|[_ Hr]].
              ** congruence.
              ** by apply Hnin' in Hin.
              ** right. split; [|done]. intros (v' & Hin & _). by apply Hnin' in Hin.
        -- assert (v0 ≠ "") as Hv0'.
           { intros Hv. apply len_zero in Hv. congruence. }
           rewrite lookup_insert_eq. split.
           ++ intros [[Hin _]|[_ Hr]]; [by apply Hnin' in Hin|].
              injection Hr as <-. left. split; [by left|done].
           ++ intros [[[Heq|Hin]%elem_of_cons _]|[Hn _]].
              ** injection Heq as ->. right. split; [|done].
                 intros (v' & Hin & _). by apply Hnin' in Hin.
              ** by apply Hnin' in Hin.
              ** exfalso. apply Hn. exists v0. split; [by left|done].
      * assert (Hr : (if negb (len v0 =? 0) then <[k0:=v0]> r else r) !! k = r !! k).
        { destruct (negb _); [by rewrite lookup_insert_ne|done]. }
        rewrite Hr. setoid_rewrite elem_of_cons.
        split; intros [[Hin Hpv]|[Hn Hrk]].
        -- left. split; [by right|done].
        -- right. split; [|done]. intros (v' & [Heq|Hin] & Hpv); [congruence|].
           apply Hn. by exists v'.
        -- destruct Hin as [Heq|Hin]; [congruence|]. by left.
        -- right. split; [|done]. intros (v' & Hin & Hpv). apply Hn.
           exists v'. split; [by right|done].
    + assert (Hnone : ∀ k' v', (k', v') ∈ (k0, v0) :: l → String.prefix p k' = false).
      { intros k' v' [Heq|Hin]%elem_of_cons; [congruence|].
        apply not_true_is_false. intros Hp'.
        rewrite Forall_forall in Hle. specialize (Hle _ Hin).
        unfold Bolt.key_le in Hle. simpl in Hle.
        rewrite (prefix_between p k0 k' Hge Hle Hp') in Hp. done. }
      split.
      * intros Hr. right. split; [|done].
        intros (v' & Hin & Hp' & _). rewrite (Hnone _ _ Hin) in Hp'. done.
      * intros [(Hin & Hp' & _)|[_ Hr]]; [|done].
        rewrite (Hnone _ _ Hin) in Hp'. done.
Qed.

Lemma Seek_spec p (l : list (string * string)) :
  StronglySorted Bolt.key_le l →
  StronglySorted Bolt.key_le (Bolt.Seek p l)
  ∧ Bolt.Seek p l `sublist_of` l
  ∧ Forall (λ kv, String.ltb kv.1 p = false) (Bolt.Seek p l)
  ∧ (∀ kv, kv ∈ l → String.ltb kv.1 p = false → kv ∈ Bolt.Seek p l).
Proof.
  induction l as [|[k0 v0] l IH]; intros Hs; simpl.
  - split_and!; [done|done|constructor|done].
  - pose proof Hs as Hs0. apply StronglySorted_inv in Hs as [Hs Hle].
    destruct (String.ltb k0 p) eqn:Hlt.
    + destruct (IH Hs) as (H1 & H2 & H3 & H4). split_and!; [done| |done|].
      * by apply sublist_cons_r; left.
      * intros kv [->|Hin]%elem_of_cons Hkv; [simpl in Hkv; congruence|].
        by apply H4.
    + split_and!; [done|done| |done].
      apply Forall_cons. split; [done|].
      rewrite Forall_forall in Hle |- *. intros kv Hin.
      apply ltb_false_leb. apply ltb_false_leb in Hlt.
      exact (leb_trans _ _ _ Hlt (Hle kv Hin)).
Qed.


Section scan.

Context {RawMessage : Type}.

(** [ViewPrefix] returns the pairs of the bucket whose key starts with the
    prefix and whose value is not empty. *)
Lemma ViewPrefix_scan (s : Store RawMessage) bucket p b :
  db s !! bucket = Some b → Bolt.keys_nonempty b →
  ViewPrefix bucket p s = (scanned p b, None).
Proof.
  intros Hb Hne. unfold ViewPrefix, Bolt.Bucket. rewrite Hb. f_equal.
  assert (Hperm : Bolt.Cursor b ≡ₚ map_to_list b) by apply merge_sort_Permutation.
  assert (Hsorted : StronglySorted Bolt.key_le (Bolt.Cursor b))
    by (apply StronglySorted_merge_sort; apply _).
  destruct (Seek_spec p _ Hsorted) as (Hs & Hsub & Hge & Hin).
  assert (Hmem : ∀ k v, (k, v) ∈ Bolt.Cursor b ↔ b !! k = Some v).
  { intros k v. by rewrite Hperm, elem_of_map_to_list. }
  apply map_eq. intros k. apply option_eq. intros v.
  rewrite ViewPrefix_loop_lookup; [|done| |].
  - unfold scanned. rewrite map_lookup_filter_Some. simpl. split.
    + intros [(Hkv & Hp & Hv)|[_ He]]; [|by rewrite lookup_empty in He].
      split; [|done]. apply Hmem. by eapply elem_of_sublist.
    + intros (Hkv & Hp & Hv). left. split; [|done].
      apply Hin; [by apply Hmem|]. by apply prefix_not_below.
  - apply (sublist_NoDup _ (Bolt.Cursor b).*1); [|by apply fmap_sublist].
    rewrite Hperm. apply NoDup_fst_map_to_list.
  - rewrite Forall_forall in Hge |- *. intros [k' v'] Hkv. split; [|by apply Hge].
    simpl. intros ->. apply (λ H, elem_of_sublist _ _ _ H Hsub), Hmem in Hkv.
    unfold Bolt.keys_nonempty in Hne. congruence.
Qed.

(** C6, as the code has it.  With the empty prefix [ViewPrefix] returns,
    without an error, the pairs of the bucket whose value is not empty, and
    only those; a pair with an empty value is left out. *)
Theorem ViewPrefix_empty_prefix (s : Store RawMessage) bucket b :
  db s !! bucket = Some b → Bolt.keys_nonempty b →
  ViewPrefix bucket "" s = (filter (λ kv, kv.2 ≠ "") b, None).
Proof.
  intros Hb Hne. rewrite (ViewPrefix_scan s bucket "" b Hb Hne). f_equal.
  unfold scanned. apply map_filter_ext. intros k v _. simpl.
  rewrite prefix_empty. naive_solver.
Qed.

End scan.

Lemma ViewPrefix_empty_prefix_witness :
  let s := Fixtures.leader_with_empty_value in
  db s !! "ns" = Some {["k1" := "v1"; "k2" := ""]}
  ∧ Bolt.keys_nonempty {["k1" := "v1"; "k2" := ""]}
  ∧ ViewPrefix "ns" "" s = ({["k1" := "v1"]}, None).
Proof.
  cbv zeta.
  assert (H1 : db Fixtures.leader_with_empty_value !! "ns"
               = Some {["k1" := "v1"; "k2" := ""]}) by by vm_compute.
  assert (H2 : Bolt.keys_nonempty {["k1" := "v1"; "k2" := ""]}) by by vm_compute.
  refine (conj H1 (conj H2 _)).
  rewrite (ViewPrefix_empty_prefix _ "ns" _ H1 H2). f_equal; by vm_compute.
Defined.

(** C6, as stated, fails: on a leader whose bucket "ns" holds "k1" -> "v1"
    and, after an [Update] with the empty value, "k2" -> "", the scan with
    the empty prefix returns "k1" only. *)
Lemma ViewPrefix_leaves_out_empty_value :
  let s := Fixtures.leader_with_empty_value in
  (db s !! "ns") ≫= (.!! "k2") = Some ""
  ∧ (ViewPrefix "ns" "" s).2 = None
  ∧ (ViewPrefix "ns" "" s).1 !! "k2" = None
  ∧ ¬ (∀ (s : Store Fixtures.wire) bucket b k v,
         db s !! bucket = Some b → b !! k = Some v →
         (ViewPrefix bucket "" s).1 !! k = Some v).
Proof.
  cbv zeta. split_and!; [by vm_compute..|].
  intros H.
  specialize (H Fixtures.leader_with_empty_value "ns" {["k1" := "v1"; "k2" := ""]}
                "k2" "").
  assert (Hd : db Fixtures.leader_with_empty_value !! "ns"
               = Some {["k1" := "v1"; "k2" := ""]}) by by vm_compute.
  specialize (H Hd eq_refl). by vm_compute in H.
Qed.

(** *** Cache coherence *)

Section coherence.

Context {RawMessage : Type}.
Variable json : Json RawMessage.

Implicit Types s : Store RawMessage.

Lemma coherent_new s :
  LruCache.evictList (cache s) = [] → LruCache.items (cache s) = ∅ →
  LruCache.cells (cache s) = ∅ → coherent s.
Proof.
  intros Hl Hi Hc. split.
  - split.
    + rewrite Hl. constructor.
    + rewrite Hl. by intros e ?%elem_of_nil.
    + rewrite Hi. intros b bkt k e Hb. by rewrite lookup_empty in Hb.
    + rewrite Hc. intros e [x Hx]. by rewrite lookup_empty in Hx.
  - intros b k v. unfold LruCache.Peek. by rewrite Hi, lookup_empty.
Qed.

Lemma coherent_applyUpdate sub s : coherent s → coherent (applyUpdate json sub s).1.
Proof.
  intros [Hwf Hco]. unfold applyUpdate.
  destruct (Unmarshal_databaseSub json sub) as [err|d]; [done|]. cbv zeta.
  destruct (negb _); [done|].
  destruct (BatchRows d) as [|row rows]; [done|].
  unfold Bolt.Bucket. destruct (db s !! Bucket row) as [b|] eqn:Hb; [|done].
  assert (Hrm : ∀ b' k' v, LruCache.Peek b' k'
                   (LruCache.Remove (Bucket row) (Key row) (cache s)).1 = Some v →
                 (∃ m, db s !! b' = Some m ∧ m !! k' = Some v)
                 ∧ (b', k') ≠ (Bucket row, Key row)).
  { intros b' k' v [HP Hne]%CacheProofs.Peek_Remove; [|done]. split; [by apply Hco|done]. }
  destruct (Bolt.Put b (Key row) (Value row)) as [err|b1] eqn:Hput; cbn [fst].
  - split; [by apply CacheProofs.wf_Remove|].
    intros b' k' v HP. by apply Hrm in HP as [? _].
  - split; [by apply CacheProofs.wf_Remove|].
    intros b' k' v HP. apply Hrm in HP as [(m & Hm & Hk) Hne]. cbn [db set_db set_cache].
    unfold Bolt.Put in Hput.
    destruct (len (Key row) =? 0); [done|].
    destruct (Bolt.MaxKeySize <? len (Key row)); [done|].
    destruct (Bolt.MaxValueSize <? len (Value row)); [done|].
    injection Hput as <-.
    destruct (decide (b' = Bucket row)) as [->|Hnb].
    + rewrite lookup_insert_eq. eexists. split; [done|].
      rewrite lookup_insert_ne by congruence. congruence.
    + rewrite lookup_insert_ne by done. eauto.
Qed.

Lemma coherent_applyRemoveKey sub s :
  coherent s → coherent (applyRemoveKey json sub s).1.
Proof.
  intros [Hwf Hco]. unfold applyRemoveKey.
  destruct (Unmarshal_databaseSub json sub) as [err|d]; [done|]. cbv zeta.
  destruct (negb _); [done|].
  destruct (BatchRows d) as [|row rows]; [done|].
  unfold Bolt.Bucket. destruct (db s !! Bucket row) as [b|] eqn:Hb; [|done].
  cbn [fst Bolt.Delete]. split; [by apply CacheProofs.wf_Remove|].
  intros b' k' v [HP Hne]%CacheProofs.Peek_Remove; [|done].
  destruct (Hco _ _ _ HP) as (m & Hm & Hk). cbn [db set_db set_cache].
  destruct (decide (b' = Bucket row)) as [->|Hnb].
  - rewrite lookup_insert_eq. eexists. split; [done|].
    rewrite lookup_delete_ne by congruence. congruence.
  - rewrite lookup_insert_ne by done. eauto.
Qed.

Lemma coherent_applyCreateBucket sub s :
  coherent s →
  coherent (applyCreateBucket json sub s).1
  ∧ coherent (applyCreateBucketIfNotExist json sub s).1.
Proof.
  intros [Hwf Hco]. unfold applyCreateBucket, applyCreateBucketIfNotExist.
  destruct (Unmarshal_databaseSub json sub) as [err|d]; [done|]. cbv zeta.
  assert (Hrm : ∀ b' k' v, LruCache.Peek b' k'
                   (LruCache.RemoveBucket (Name d) (cache s)).1 = Some v →
                 (∃ m, db s !! b' = Some m ∧ m !! k' = Some v) ∧ b' ≠ Name d).
  { intros b' k' v [HP Hne]%CacheProofs.Peek_RemoveBucket; [|done].
    split; [by apply Hco|done]. }
  unfold Bolt.CreateBucket, Bolt.CreateBucketIfNotExists. cbn [db set_cache].
  destruct (len (Name d) =? 0).
  { split; (split; [by apply CacheProofs.wf_RemoveBucket|]);
      intros b' k' v HP; by apply Hrm in HP as [? _]. }
  destruct (db s !! Name d) as [b|] eqn:Hb.
  { split; (split; [by apply CacheProofs.wf_RemoveBucket|]);
      intros b' k' v HP; by apply Hrm in HP as [? _]. }
  split; (split; [by apply CacheProofs.wf_RemoveBucket|]);
    intros b' k' v HP; apply Hrm in HP as [(m & Hm & Hk) Hne];
    cbn [fst db set_db set_cache]; rewrite lookup_insert_ne by done; eauto.
Qed.

Lemma coherent_applyRemoveBucket sub s :
  coherent s → coherent (applyRemoveBucket json sub s).1.
Proof.
  intros [Hwf Hco]. unfold applyRemoveBucket.
  destruct (Unmarshal_databaseSub json sub) as [err|d]; [done|]. cbv zeta.
  unfold Bolt.DeleteBucket. destruct (db s !! Name d) as [b|] eqn:Hb; [|done].
  cbn [fst]. split; [by apply CacheProofs.wf_RemoveBucket|].
  intros b' k' v [HP Hne]%CacheProofs.Peek_RemoveBucket; [|done].
  destruct (Hco _ _ _ HP) as (m & Hm & Hk). cbn [db set_db set_cache].
  rewrite lookup_delete_ne by done. eauto.
Qed.

Lemma coherent_applySession sub s :
  coherent s →
  coherent (applySetSession json sub s).1 ∧ coherent (applyDelSession json sub s).1.
Proof.
  intros Hco. unfold applySetSession, applyDelSession.
  by destruct (Unmarshal_sessionSub json sub).
Qed.

Lemma coherent_View bucket key s : coherent s → coherent (View bucket key s).1.
Proof.
  intros [Hwf Hco]. unfold View.
  destruct (LruCache.Get bucket key (cache s)) as [c hit] eqn:HG.
  assert (Hc : c = (LruCache.Get bucket key (cache s)).1) by by rewrite HG.
  assert (Hco1 : coherent (set_cache c s)).
  { split; cbn [cache set_cache db]; subst c; [by apply CacheProofs.wf_Get|].
    intros b k v. rewrite CacheProofs.Peek_Get. apply Hco. }
  destruct hit as [v|]; [done|]. cbn [db set_cache].
  unfold Bolt.Bucket, Bolt.Get.
  destruct (db s !! bucket) as [m|] eqn:Hb; [|done].
  destruct (m !! key) as [v|] eqn:Hk; [|done].
  cbn [fst cache set_cache]. destruct Hco1 as [Hwf1 Hco1]. cbn [cache set_cache db] in *.
  split; cbn [cache set_cache db]; [by apply CacheProofs.wf_Add|].
  intros b k v' HP. apply CacheProofs.Peek_Add in HP; [|done].
  destruct HP as [[[= -> ->] ->]|HP]; eauto.
Qed.

(** The cache stays in agreement with the database through every step of
    the FSM modelled here and through every [View]: the steps that change
    a key or a bucket drop what the cache holds for it, and a [View] that
    misses caches what the database holds. *)
Theorem coherent_preserved (s : Store RawMessage) (sub : RawMessage)
    (bucket key : string) :
  coherent s →
  coherent (applyUpdate json sub s).1
  ∧ coherent (applyRemoveKey json sub s).1
  ∧ coherent (applyCreateBucket json sub s).1
  ∧ coherent (applyCreateBucketIfNotExist json sub s).1
  ∧ coherent (applyRemoveBucket json sub s).1
  ∧ coherent (applySetSession json sub s).1
  ∧ coherent (applyDelSession json sub s).1
  ∧ coherent (View bucket key s).1.
Proof.
  intros Hco.
  pose proof (coherent_applyCreateBucket sub s Hco) as [? ?].
  pose proof (coherent_applySession sub s Hco) as [? ?].
  split_and!; auto using coherent_applyUpdate, coherent_applyRemoveKey,
    coherent_applyRemoveBucket, coherent_View.
Qed.

Lemma View_result (s : Store RawMessage) (bucket key : string) :
  coherent s →
  (View bucket key s).2
  = match db s !! bucket with
    | None => (None, Some bucketNotFound)
    | Some m => (m !! key, None)
    end
  ∧ db (View bucket key s).1 = db s.
Proof.
  intros [Hwf Hco]. unfold View.
  destruct (LruCache.Get bucket key (cache s)) as [c hit] eqn:HG.
  assert (Hhit : hit = LruCache.Peek bucket key (cache s)).
  { rewrite <- CacheProofs.Get_Peek. by rewrite HG. }
  destruct hit as [v|].
  - symmetry in Hhit. destruct (Hco _ _ _ Hhit) as (m & -> & ->). done.
  - cbn [db set_cache]. unfold Bolt.Bucket, Bolt.Get.
    destruct (db s !! bucket) as [m|]; [|done].
    by destruct (m !! key).
Qed.

Lemma View_db_unchanged (s : Store RawMessage) (bucket key : string) :
  True ∧ db (View bucket key s).1 = db s.
Proof.
  split; [done|]. unfold View.
  destruct (LruCache.Get bucket key (cache s)) as [c hit].
  destruct hit as [v|]; [done|]. cbn [db set_cache].
  unfold Bolt.Bucket, Bolt.Get. destruct (db s !! bucket) as [m|]; [|done].
  by destruct (m !! key).
Qed.

(** On a node whose cache agrees with the database, [View] returns what the
    database holds, whether or not it is served from the cache:
    [bucketNotFound] without the bucket, a nil value for a key that is not
    there, and the stored value otherwise.  It never changes the database. *)
Theorem View_reads_database (s : Store RawMessage) (bucket key : string) :
  coherent s →
  (View bucket key s).2
  = match db s !! bucket with
    | None => (None, Some bucketNotFound)
    | Some m => (m !! key, None)
    end
  ∧ db (View bucket key s).1 = db s.
Proof. apply View_result. Qed.

(** Reading back what the FSM has just applied, on a node whose cache
    agreed with the database: after an [Update] that returned nil, [View]
    of the row's pair returns the row's value; after a [RemoveKey] that
    returned nil it returns a nil value; after a [RemoveBucket] that
    returned nil it returns [bucketNotFound] for every key of the bucket. *)
Theorem View_after_apply (s : Store RawMessage) (sub : RawMessage) (d : databaseSub) :
  coherent s → Unmarshal_databaseSub json sub = inr d →
  (∀ row, BatchRows d = [row] → (applyUpdate json sub s).2 = None →
     (View (Bucket row) (Key row) (applyUpdate json sub s).1).2
     = (Some (Value row), None))
  ∧ (∀ row, BatchRows d = [row] → (applyRemoveKey json sub s).2 = None →
     (View (Bucket row) (Key row) (applyRemoveKey json sub s).1).2 = (None, None))
  ∧ ((applyRemoveBucket json sub s).2 = None →
     ∀ key, (View (Name d) key (applyRemoveBucket json sub s).1).2
            = (None, Some bucketNotFound)).
Proof.
  intros Hco Hd. split_and!.
  - intros row Hrow Hnil.
    destruct (View_result _ (Bucket row) (Key row) (coherent_applyUpdate sub s Hco))
      as [-> _].
    revert Hnil. unfold applyUpdate. rewrite Hd, Hrow. simpl.
    unfold Bolt.Bucket. destruct (db s !! Bucket row) as [b|]; [|done].
    unfold Bolt.Put.
    destruct (len (Key row) =? 0); [done|].
    destruct (Bolt.MaxKeySize <? len (Key row)); [done|].
    destruct (Bolt.MaxValueSize <? len (Value row)); [done|].
    intros _. cbn [fst db set_db]. by rewrite !lookup_insert_eq.
  - intros row Hrow Hnil.
    destruct (View_result _ (Bucket row) (Key row) (coherent_applyRemoveKey sub s Hco))
      as [-> _].
    revert Hnil. unfold applyRemoveKey. rewrite Hd, Hrow. simpl.
    unfold Bolt.Bucket. destruct (db s !! Bucket row) as [b|]; [|done].
    intros _. cbn [fst db set_db]. by rewrite lookup_insert_eq, lookup_delete_eq.
  - intros Hnil key.
    destruct (View_result _ (Name d) key (coherent_applyRemoveBucket sub s Hco))
      as [-> _].
    revert Hnil. unfold applyRemoveBucket. rewrite Hd. cbv zeta.
    unfold Bolt.DeleteBucket. destruct (db s !! Name d) as [b|]; [|done].
    intros _. cbn [fst db set_db]. by rewrite lookup_delete_eq.
Qed.

(** *** Buckets and keys the FSM can create *)

Lemma keys_nonempty_Put b key value b' :
  Bolt.keys_nonempty b → Bolt.Put b key value = inr b' → Bolt.keys_nonempty b'.
Proof.
  unfold Bolt.Put, Bolt.keys_nonempty. intros Hb.
  destruct (len key =? 0) eqn:Hk; [done|].
  destruct (Bolt.MaxKeySize <? len key); [done|].
  destruct (Bolt.MaxValueSize <? len value); [done|].
  intros [= <-]. rewrite lookup_insert_ne; [done|].
  intros Hkey. by rewrite (proj2 (len_zero key)) in Hk.
Qed.

(** No step of the FSM modelled here stores a pair under the empty key:
    if the keys of every bucket are non-empty before the step, they are
    after it. *)
Theorem db_valid_preserved (s : Store RawMessage) (sub : RawMessage)
    (bucket key : string) :
  db_valid s →
  db_valid (applyUpdate json sub s).1
  ∧ db_valid (applyRemoveKey json sub s).1
  ∧ db_valid (applyCreateBucket json sub s).1
  ∧ db_valid (applyCreateBucketIfNotExist json sub s).1
  ∧ db_valid (applyRemoveBucket json sub s).1
  ∧ db_valid (applySetSession json sub s).1
  ∧ db_valid (applyDelSession json sub s).1
  ∧ db_valid (View bucket key s).1.
Proof.
  intros Hv. split_and!.
  - unfold applyUpdate.
    destruct (Unmarshal_databaseSub json sub) as [err|d]; [done|]. cbv zeta.
    destruct (negb _); [done|]. destruct (BatchRows d) as [|row rows]; [done|].
    unfold Bolt.Bucket. destruct (db s !! Bucket row) as [b|] eqn:Hb; [|done].
    destruct (Bolt.Put b (Key row) (Value row)) as [err|b1] eqn:Hput; [done|].
    intros name m. cbn [fst db set_db set_cache].
    destruct (decide (name = Bucket row)) as [->|Hne].
    + rewrite lookup_insert_eq. intros [= <-].
      eapply keys_nonempty_Put; [|done]. by eapply Hv.
    + rewrite lookup_insert_ne by done. apply Hv.
  - unfold applyRemoveKey.
    destruct (Unmarshal_databaseSub json sub) as [err|d]; [done|]. cbv zeta.
    destruct (negb _); [done|]. destruct (BatchRows d) as [|row rows]; [done|].
    unfold Bolt.Bucket. destruct (db s !! Bucket row) as [b|] eqn:Hb; [|done].
    intros name m. cbn [fst db set_db set_cache Bolt.Delete].
    destruct (decide (name = Bucket row)) as [->|Hne].
    + rewrite lookup_insert_eq. intros [= <-]. unfold Bolt.keys_nonempty.
      apply lookup_delete_None. right. by eapply Hv.
    + rewrite lookup_insert_ne by done. apply Hv.
  - unfold applyCreateBucket.
    destruct (Unmarshal_databaseSub json sub) as [err|d]; [done|]. cbv zeta.
    unfold Bolt.CreateBucket. cbn [db set_cache].
    destruct (len (Name d) =? 0); [done|].
    destruct (db s !! Name d) as [b|] eqn:Hb; [done|].
    intros name m. cbn [fst db set_db set_cache].
    destruct (decide (name = Name d)) as [->|Hne].
    + rewrite lookup_insert_eq. by intros [= <-].
    + rewrite lookup_insert_ne by done. apply Hv.
  - unfold applyCreateBucketIfNotExist.
    destruct (Unmarshal_databaseSub json sub) as [err|d]; [done|]. cbv zeta.
    unfold Bolt.CreateBucketIfNotExists. cbn [db set_cache].
    destruct (len (Name d) =? 0); [done|].
    destruct (db s !! Name d) as [b|] eqn:Hb; [done|].
    intros name m. cbn [fst db set_db set_cache].
    destruct (decide (name = Name d)) as [->|Hne].
    + rewrite lookup_insert_eq. by intros [= <-].
    + rewrite lookup_insert_ne by done. apply Hv.
  - unfold applyRemoveBucket.
    destruct (Unmarshal_databaseSub json sub) as [err|d]; [done|]. cbv zeta.
    unfold Bolt.DeleteBucket. destruct (db s !! Name d) as [b|] eqn:Hb; [|done].
    intros name m. cbn [fst db set_db set_cache].
    intros [_ Hm]%lookup_delete_Some. by eapply Hv.
  - unfold applySetSession. by destruct (Unmarshal_sessionSub json sub).
  - unfold applyDelSession. by destruct (Unmarshal_sessionSub json sub).
  - intros name m Hm. apply (Hv name m).
    by rewrite <- (proj2 (View_db_unchanged s bucket key)).
Qed.

End coherence.

Section scan_spec.

Context {RawMessage : Type}.

(** [ViewPrefix] on a database whose keys are not empty: without the bucket
    it returns an empty map and [bucketNotFound]; with it, it returns,
    without error, exactly the pairs of the bucket whose key starts with
    the prefix and whose value is not empty. *)
Theorem ViewPrefix_spec (s : Store RawMessage) (bucket keyPrefix : string) :
  db_valid s →
  ViewPrefix bucket keyPrefix s
  = match db s !! bucket with
    | None => (∅, Some bucketNotFound)
    | Some b => (scanned keyPrefix b, None)
    end.
Proof.
  intros Hv. destruct (db s !! bucket) as [b|] eqn:Hb.
  - apply ViewPrefix_scan; [done|]. by eapply Hv.
  - unfold ViewPrefix, Bolt.Bucket. by rewrite Hb.
Qed.

End scan_spec.

(** *** The API peers *)

Lemma applySetPeer_loop_lookup (l : list (string * string)) (m : gmap string string) k :
  NoDup l.*1 →
  foldl (fun m '(k, v) => <[k := v]> m) m l !! k
  = match list_to_map (M := gmap string string) l !! k with
    | Some v => Some v
    | None => m !! k
    end.
Proof.
  revert m. induction l as [|[k0 v0] l IH]; intros m Hnd; [done|].
  simpl in Hnd. apply NoDup_cons in Hnd as [Hn0 Hnd]. cbn [foldl list_to_map foldr].
  rewrite IH by done.
  destruct (decide (k0 = k)) as [->|Hne].
  - rewrite lookup_insert_eq.
    rewrite (not_elem_of_list_to_map_1 l k) by done.
    by rewrite lookup_insert_eq.
  - rewrite !lookup_insert_ne by done.
    by destruct (list_to_map l !! k).
Qed.

(** [applySetPeer] merges the submitted map into the stored one: every
    submitted address replaces the stored one and every other stored
    record stays; a payload that does not decode changes nothing. *)
Theorem applySetPeer_spec {RawMessage : Type}
    (Unmarshal_peersSub : RawMessage → error + gmap string string)
    (sub : RawMessage) (stored : gmap string string) :
  applySetPeer Unmarshal_peersSub sub stored
  = match Unmarshal_peersSub sub with
    | inl err => (stored, Some err)
    | inr d => (d ∪ stored, None)
    end.
Proof.
  unfold applySetPeer. destruct (Unmarshal_peersSub sub) as [err|d]; [done|].
  f_equal. unfold applySetPeer_loop. apply map_eq. intros k.
  rewrite applySetPeer_loop_lookup by apply NoDup_fst_map_to_list.
  rewrite list_to_map_to_list, lookup_union.
  destruct (d !! k), (stored !! k); done.
Qed.

Lemma APIPeers_loop_lookup (CS : list string → string → bool) (peers : list string)
    (l : list (string * string)) (stored api : gmap string string) k :
  NoDup l.*1 →
  let st := foldl (APIPeers_step CS peers) (stored, api) l in
  st.1 !! k = (if bool_decide (k ∈ l.*1) && negb (CS peers k) then None else stored !! k)
  ∧ st.2 !! k = match list_to_map (M := gmap string string) l !! k with
                | Some v => if CS peers k then Some v else api !! k
                | None => api !! k
                end.
Proof.
  revert stored api. induction l as [|[k0 v0] l IH]; intros stored api Hnd; [done|].
  simpl in Hnd. apply NoDup_cons in Hnd as [Hn0 Hnd]. cbn [foldl].
  cbn [APIPeers_step]. cbv zeta.
  assert (Hl0 : list_to_map (M := gmap string string) l !! k0 = None)
    by by apply not_elem_of_list_to_map_1.
  change (list_to_map ((k0, v0) :: l)) with (<[k0 := v0]> (list_to_map l) : gmap string string).
  change (((k0, v0) :: l).*1) with (k0 :: l.*1).
  destruct (decide (k0 = k)) as [->|Hne].
  - rewrite (bool_decide_eq_true_2 (k ∈ k :: l.*1)) by by left.
    rewrite lookup_insert_eq.
    destruct (CS peers k) eqn:Hcs; cbn [negb andb].
    + destruct (IH stored (<[k := v0]> api) Hnd) as [H1 H2]. cbv zeta in H1, H2.
      rewrite H1, H2, Hl0, lookup_insert_eq. by rewrite andb_false_r.
    + destruct (IH (delete k stored) api Hnd) as [H1 H2]. cbv zeta in H1, H2.
      rewrite H1, H2, Hl0, lookup_delete_eq.
      by destruct (bool_decide (k ∈ l.*1)).
  - assert (bool_decide (k ∈ k0 :: l.*1) = bool_decide (k ∈ l.*1)) as ->.
    { apply bool_decide_ext. rewrite elem_of_cons. naive_solver. }
    rewrite (lookup_insert_ne _ k0 k) by done.
    destruct (CS peers k0) eqn:Hcs; cbn [negb].
    + destruct (IH stored (<[k0 := v0]> api) Hnd) as [H1 H2]. cbv zeta in H1, H2.
      rewrite H1, H2. by rewrite !lookup_insert_ne by done.
    + destruct (IH (delete k0 stored) api Hnd) as [H1 H2]. cbv zeta in H1, H2.
      rewrite H1, H2. by rewrite !lookup_delete_ne by done.
Qed.

(** [APIPeers] returns the stored records whose Raft address
    [ContainsString] finds among the current peers, and leaves exactly
    those records stored; when the peers cannot be read it returns the
    error and stores nothing new. *)
Theorem APIPeers_spec (ContainsString : list string → string → bool)
    (Peers : error + list string) (stored : gmap string string) :
  APIPeers ContainsString Peers stored
  = match Peers with
    | inl err => (stored, inl err)
    | inr raftPeers =>
        let live := filter (λ kv, ContainsString raftPeers kv.1 = true) stored in
        (live, inr live)
    end.
Proof.
  unfold APIPeers. destruct Peers as [err|raftPeers]; [done|]. cbv zeta.
  pose proof (λ k, APIPeers_loop_lookup ContainsString raftPeers (map_to_list stored)
                     stored ∅ k (NoDup_fst_map_to_list stored)) as H.
  cbv zeta in H.
  destruct (foldl _ _ _) as [stored' api]. cbn [fst snd] in H.
  assert (Hin : ∀ k, k ∈ (map_to_list stored).*1 ↔ is_Some (stored !! k)).
  { intros k. rewrite list_elem_of_fmap. split.
    - intros ([k' v] & -> & Hkv%elem_of_map_to_list). by eexists.
    - intros [v Hv]. exists (k, v). split; [done|]. by apply elem_of_map_to_list. }
  assert (Hf : ∀ k, filter (λ kv, ContainsString raftPeers kv.1 = true) stored !! k
                    = if ContainsString raftPeers k then stored !! k else None).
  { intros k. destruct (ContainsString raftPeers k) eqn:Hcs.
    - destruct (stored !! k) as [v|] eqn:Hk.
      + by apply map_lookup_filter_Some_2.
      + apply map_lookup_filter_None_2. by left.
    - apply map_lookup_filter_None_2. right. intros v _. simpl. by rewrite Hcs. }
  f_equal; [|f_equal]; apply map_eq; intros k; destruct (H k) as [H1 H2];
    rewrite ?H1, ?H2, ?list_to_map_to_list, Hf; clear H H1 H2.
  - destruct (stored !! k) as [v|] eqn:Hk.
    + rewrite bool_decide_eq_true_2 by (apply Hin; by eexists).
      by destruct (ContainsString raftPeers k).
    + by destruct (_ && _), (ContainsString raftPeers k).
  - destruct (stored !! k) as [v|] eqn:Hk; by destruct (ContainsString raftPeers k).
Qed.

(** *** The theorems at work on a node of one bucket *)

Lemma leader_with_k1_coherent : coherent Fixtures.leader_with_k1.
Proof. apply coherent_new; by vm_compute. Qed.

Lemma leader_with_k1_cached_coherent :
  coherent (View "ns" "k1" Fixtures.leader_with_k1).1.
Proof. apply coherent_View, leader_with_k1_coherent. Qed.

Lemma leader_db_valid (s : Store Fixtures.wire) (m : gmap string string) :
  db s = {["ns" := m]} → Bolt.keys_nonempty m → db_valid s.
Proof.
  intros Hdb Hm name b. rewrite Hdb. by intros [_ <-]%lookup_singleton_Some.
Qed.

Lemma coherent_preserved_witness :
  let s := Fixtures.leader_with_k1 in
  let sub := Fixtures.WireDatabaseSub (MkDatabaseSub "ns" [MkRow "ns" "k1" "v2"]) in
  coherent s
  ∧ coherent (applyUpdate Fixtures.wire_json sub s).1
  ∧ coherent (applyRemoveKey Fixtures.wire_json sub s).1
  ∧ coherent (applyCreateBucket Fixtures.wire_json sub s).1
  ∧ coherent (applyCreateBucketIfNotExist Fixtures.wire_json sub s).1
  ∧ coherent (applyRemoveBucket Fixtures.wire_json sub s).1
  ∧ coherent (applySetSession Fixtures.wire_json sub s).1
  ∧ coherent (applyDelSession Fixtures.wire_json sub s).1
  ∧ coherent (View "ns" "k1" s).1.
Proof.
  cbv zeta. split; [apply leader_with_k1_coherent|].
  apply (coherent_preserved Fixtures.wire_json Fixtures.leader_with_k1),
    leader_with_k1_coherent.
Defined.

Lemma View_reads_database_witness :
  let s := (View "ns" "k1" Fixtures.leader_with_k1).1 in
  coherent s
  ∧ LruCache.Peek "ns" "k1" (cache s) = Some "v1"
  ∧ (View "ns" "k1" s).2 = (Some "v1", None)
  ∧ (View "ns" "k2" s).2 = (None, None)
  ∧ (View "nowhere" "k1" s).2 = (None, Some bucketNotFound)
  ∧ db (View "ns" "k1" s).1 = db s.
Proof.
  cbv zeta. split; [apply leader_with_k1_cached_coherent|]. split; [by vm_compute|].
  destruct (View_reads_database _ "ns" "k1" leader_with_k1_cached_coherent) as [H1 H1'].
  destruct (View_reads_database _ "ns" "k2" leader_with_k1_cached_coherent) as [H2 _].
  destruct (View_reads_database _ "nowhere" "k1" leader_with_k1_cached_coherent)
    as [H3 _].
  rewrite H1, H2, H3. split_and!; [by vm_compute..|done].
Defined.

Lemma View_after_apply_witness :
  let s := (View "ns" "k1" Fixtures.leader_with_k1).1 in
  let sub := Fixtures.WireDatabaseSub (MkDatabaseSub "ns" [MkRow "ns" "k1" "v2"]) in
  coherent s
  ∧ LruCache.Peek "ns" "k1" (cache s) = Some "v1"
  ∧ (View "ns" "k1" (applyUpdate Fixtures.wire_json sub s).1).2 = (Some "v2", None)
  ∧ (View "ns" "k1" (applyRemoveKey Fixtures.wire_json sub s).1).2 = (None, None)
  ∧ (View "ns" "k1" (applyRemoveBucket Fixtures.wire_json sub s).1).2
    = (None, Some bucketNotFound).
Proof.
  cbv zeta. split; [apply leader_with_k1_cached_coherent|]. split; [by vm_compute|].
  destruct (View_after_apply Fixtures.wire_json _
              (Fixtures.WireDatabaseSub (MkDatabaseSub "ns" [MkRow "ns" "k1" "v2"]))
              (MkDatabaseSub "ns" [MkRow "ns" "k1" "v2"])
              leader_with_k1_cached_coherent eq_refl) as (H1 & H2 & H3).
  split_and!.
  - apply (H1 (MkRow "ns" "k1" "v2")); [done|by vm_compute].
  - apply (H2 (MkRow "ns" "k1" "v2")); [done|by vm_compute].
  - apply (H3 ltac:(by vm_compute) "k1").
Defined.

Lemma db_valid_preserved_witness :
  let s := Fixtures.leader_with_k1 in
  let sub := Fixtures.WireDatabaseSub (MkDatabaseSub "fresh" [MkRow "ns" "k2" "v2"]) in
  db_valid s
  ∧ db_valid (applyUpdate Fixtures.wire_json sub s).1
  ∧ db_valid (applyRemoveKey Fixtures.wire_json sub s).1
  ∧ db_valid (applyCreateBucket Fixtures.wire_json sub s).1
  ∧ db_valid (applyCreateBucketIfNotExist Fixtures.wire_json sub s).1
  ∧ db_valid (applyRemoveBucket Fixtures.wire_json sub s).1
  ∧ db_valid (applySetSession Fixtures.wire_json sub s).1
  ∧ db_valid (applyDelSession Fixtures.wire_json sub s).1
  ∧ db_valid (View "ns" "k1" s).1.
Proof.
  cbv zeta.
  assert (Hv : db_valid Fixtures.leader_with_k1)
    by (apply (leader_db_valid _ {["k1" := "v1"]}); by vm_compute).
  split; [done|].
  by apply (db_valid_preserved Fixtures.wire_json Fixtures.leader_with_k1).
Defined.

Lemma ViewPrefix_spec_witness :
  let s := Fixtures.leader_with_empty_value in
  db_valid s
  ∧ ViewPrefix "ns" "k" s = ({["k1" := "v1"]}, None)
  ∧ ViewPrefix "ns" "k2" s = (∅, None)
  ∧ ViewPrefix "nowhere" "k" s = (∅, Some bucketNotFound).
Proof.
  cbv zeta.
  assert (Hv : db_valid Fixtures.leader_with_empty_value)
    by (apply (leader_db_valid _ {["k1" := "v1"; "k2" := ""]}); by vm_compute).
  split; [done|].
  rewrite !(ViewPrefix_spec Fixtures.leader_with_empty_value) by done.
  split_and!; by vm_compute.
Defined.

End StoreProofs.

(** * Properties of the dashboard maintenance *)

Module DashboardProofs.
Import Go Dashboards.

Section tree.

Context {Tree : Type}.
Variable getNodeIDByNS : Tree → string → error + string.
Variable getByteFromStore : Tree → string → string → error + string.
Variable setByteToStore : Tree → string → string → string → Tree * option error.
Variable json_Unmarshal : string → error + list Dashboard.
Variable json_Marshal : list Dashboard → error + string.

Local Abbreviation GetDashboard := (GetDashboard getNodeIDByNS getByteFromStore json_Unmarshal).
Local Abbreviation SetDashboard := (SetDashboard getNodeIDByNS setByteToStore json_Marshal).
Local Abbreviation UpdateDashboard :=
  (UpdateDashboard getNodeIDByNS getByteFromStore setByteToStore json_Unmarshal json_Marshal).
Local Abbreviation RemoveDashboard :=
  (RemoveDashboard getNodeIDByNS getByteFromStore setByteToStore json_Unmarshal json_Marshal).
Local Abbreviation ReorderPanel :=
  (ReorderPanel getNodeIDByNS getByteFromStore setByteToStore json_Unmarshal json_Marshal).

(** C9.  When the dashboards of the namespace read back without error and
    [dIndex] is at or past their number, [RemoveDashboard] returns a nil
    error and the tree is as it was, nothing having been written, whereas
    [UpdateDashboard] returns [ErrInvalidParam] (and writes nothing
    either). *)
Theorem RemoveDashboard_out_of_range (t : Tree) (ns title : string) (dIndex : Z)
    (ds : list Dashboard) :
  GetDashboard t ns = inr ds →
  Z.of_nat (length ds) ≤ dIndex →
  RemoveDashboard t ns dIndex = Returns (t, None)
  ∧ UpdateDashboard t ns dIndex title = Returns (t, Some ErrInvalidParam).
Proof.
  intros Hget Hge. unfold Dashboards.RemoveDashboard, Dashboards.UpdateDashboard.
  rewrite Hget. by rewrite (proj2 (Z.leb_le _ _) Hge).
Qed.

(** A negative index passes the range check of [ReorderPanel] and the
    indexing that follows panics. *)
Lemma ReorderPanel_negative (t : Tree) (ns : string) (dIndex : Z) (newOrder : list Z)
    (ds : list Dashboard) :
  GetDashboard t ns = inr ds → ds ≠ [] → dIndex < 0 →
  ReorderPanel t ns dIndex newOrder = Panics "index out of range".
Proof.
  intros Hget Hne Hneg. unfold Dashboards.ReorderPanel. rewrite Hget.
  assert ((Z.of_nat (length ds) =? 0) = false) as ->.
  { apply Z.eqb_neq. destruct ds; [done|]. simpl. lia. }
  assert ((Z.of_nat (length ds) <=? dIndex) = false) as ->.
  { apply Z.leb_gt. lia. }
  simpl. unfold slice_load.
  assert ((0 <=? dIndex) = false) as -> by (apply Z.leb_gt; lia). done.
Qed.

End tree.

Lemma RemoveDashboard_out_of_range_witness :
  let t := Fixtures.two_dashboards in
  Dashboards.GetDashboard Fixtures.table_getNodeIDByNS Fixtures.table_getByteFromStore
    Fixtures.titles_Unmarshal t "ns"
    = inr [MkDashboard "cpu" []; MkDashboard "mem" []]
  ∧ Dashboards.RemoveDashboard Fixtures.table_getNodeIDByNS Fixtures.table_getByteFromStore
      Fixtures.table_setByteToStore Fixtures.titles_Unmarshal Fixtures.titles_Marshal
      t "ns" 2 = Returns (t, None)
  ∧ Dashboards.UpdateDashboard Fixtures.table_getNodeIDByNS Fixtures.table_getByteFromStore
      Fixtures.table_setByteToStore Fixtures.titles_Unmarshal Fixtures.titles_Marshal
      t "ns" 2 "disk" = Returns (t, Some ErrInvalidParam).
Proof.
  cbv zeta.
  assert (H : Dashboards.GetDashboard Fixtures.table_getNodeIDByNS
                Fixtures.table_getByteFromStore Fixtures.titles_Unmarshal
                Fixtures.two_dashboards "ns"
              = inr [MkDashboard "cpu" []; MkDashboard "mem" []]) by by vm_compute.
  split; [exact H|].
  apply (RemoveDashboard_out_of_range Fixtures.table_getNodeIDByNS
           Fixtures.table_getByteFromStore Fixtures.table_setByteToStore
           Fixtures.titles_Unmarshal Fixtures.titles_Marshal
           Fixtures.two_dashboards "ns" "disk" 2 _ H).
  simpl. lia.
Defined.

(** C8.  [ReorderPanel] with [dIndex = -1] on a namespace that has two
    dashboards: the check [dIndex >= len(dashboards)] lets the index
    through and [dashboards[dIndex]] panics, so no error is returned. *)
Theorem ReorderPanel_negative_index_panics :
  Dashboards.ReorderPanel Fixtures.table_getNodeIDByNS Fixtures.table_getByteFromStore
    Fixtures.table_setByteToStore Fixtures.titles_Unmarshal Fixtures.titles_Marshal
    Fixtures.two_dashboards "ns" (-1) []
  = Panics "index out of range".
Proof. by vm_compute. Qed.


(** *** Slices *)

Lemma slice_load_Some {A} (l : list A) (i : Z) x :
  0 ≤ i → l !! Z.to_nat i = Some x → slice_load l i = Returns x.
Proof.
  intros Hi Hx. unfold slice_load. apply lookup_lt_Some in Hx as Hlt.
  rewrite (proj2 (Z.leb_le 0 i)) by done.
  rewrite (proj2 (Z.ltb_lt i _)) by lia. simpl. by rewrite Hx.
Qed.

Lemma slice_load_negative {A} (l : list A) (i : Z) :
  i < 0 → slice_load l i = Panics "index out of range".
Proof. intros Hi. unfold slice_load. by rewrite (proj2 (Z.leb_gt 0 i)). Qed.

Lemma slice_store_Some {A} (l : list A) (i : Z) x y :
  0 ≤ i → l !! Z.to_nat i = Some x →
  slice_store l i y = Returns (<[Z.to_nat i := y]> l).
Proof.
  intros Hi Hx. unfold slice_store. apply lookup_lt_Some in Hx as Hlt.
  rewrite (proj2 (Z.leb_le 0 i)) by done.
  by rewrite (proj2 (Z.ltb_lt i _)) by lia.
Qed.

(** The upper-bound test the dashboard functions make on an index that is
    not negative. *)
Lemma bound_check {A} (l : list A) (i : Z) :
  0 ≤ i → (Z.of_nat (length l) <=? i) = bool_decide (l !! Z.to_nat i = None).
Proof.
  intros Hi. destruct (l !! Z.to_nat i) as [x|] eqn:Hx.
  - apply lookup_lt_Some in Hx. transitivity false.
    + apply Z.leb_gt. lia.
    + symmetry. by apply bool_decide_eq_false_2.
  - apply lookup_ge_None in Hx. transitivity true.
    + apply Z.leb_le. lia.
    + symmetry. by apply bool_decide_eq_true_2.
Qed.

Lemma empty_or_bound_check {A} (l : list A) (i : Z) :
  0 ≤ i →
  (Z.of_nat (length l) =? 0) || (Z.of_nat (length l) <=? i)
  = bool_decide (l !! Z.to_nat i = None).
Proof.
  intros Hi. rewrite bound_check by done.
  destruct (Z.of_nat (length l) =? 0) eqn:He; [|done].
  apply Z.eqb_eq in He. destruct l; [done|simpl in He; lia].
Qed.

(** Shifting the tail of a slice down by one with [copy] and cutting the
    last element off deletes the element at [i]. *)
Lemma copy_down_delete {A} (l : list A) (i : nat) :
  (i < length l)%nat →
  let shifted := take i l ++ copy (drop i l) (drop (S i) l) in
  length shifted = length l
  ∧ take (length shifted - 1) shifted = delete i l.
Proof.
  intros Hi. cbv zeta. unfold copy.
  rewrite !length_drop.
  rewrite (take_ge (drop (S i) l)) by (rewrite length_drop; lia).
  assert (Hlen : length (take i l ++ drop (S i) l ++ drop (length l - S i) (drop i l))
                 = length l).
  { rewrite !length_app, length_take, !length_drop. lia. }
  split; [done|]. rewrite Hlen, delete_take_drop, app_assoc.
  rewrite take_app_length'; [done|].
  rewrite length_app, length_take, length_drop. lia.
Qed.

Lemma delete_by_copy {A} (l : list A) (i : Z) :
  0 ≤ i < Z.of_nat (length l) →
  bind (slice_from l i) (fun dst =>
    bind (slice_from l (i + 1)) (fun src =>
      let shifted := take (Z.to_nat i) l ++ copy dst src in
      slice_to shifted (Z.of_nat (length shifted) - 1)))
  = Returns (delete (Z.to_nat i) l).
Proof.
  intros Hi. unfold slice_from.
  rewrite (proj2 (Z.leb_le 0 i)), (proj2 (Z.leb_le i _)) by lia.
  rewrite (proj2 (Z.leb_le 0 (i + 1))), (proj2 (Z.leb_le (i + 1) _)) by lia.
  simpl. replace (Z.to_nat (i + 1)) with (S (Z.to_nat i)) by lia.
  destruct (copy_down_delete l (Z.to_nat i)) as [Hlen Hdel]; [lia|].
  unfold slice_to. rewrite Hlen.
  rewrite (proj2 (Z.leb_le 0 _)), (proj2 (Z.leb_le _ _)) by lia. simpl.
  rewrite Hlen in Hdel.
  replace (Z.to_nat (Z.of_nat (length l) - 1)) with (length l - 1)%nat by lia.
  by rewrite Hdel.
Qed.

(** *** invalidOrder *)

Lemma invalidOrder_loop_false (i : Z) (tmp : list Z) :
  invalidOrder_loop i tmp = false ↔ tmp = seqZ i (Z.of_nat (length tmp)).
Proof.
  revert i. induction tmp as [|x tmp IH]; intros i.
  - simpl. by rewrite seqZ_nil.
  - cbn [invalidOrder_loop length]. rewrite seqZ_cons by lia.
    replace (Z.pred (Z.of_nat (S (length tmp)))) with (Z.of_nat (length tmp)) by lia.
    destruct (Z.eqb_spec i x) as [->|Hne]; simpl.
    + rewrite IH. replace (x + 1) with (Z.succ x) by lia. split; congruence.
    + split; [done|]. congruence.
Qed.

Lemma Sorted_seqZ (m n : Z) : Sorted Z.le (seqZ m n).
Proof.
  destruct (decide (n ≤ 0)) as [Hn|Hn]; [rewrite seqZ_nil by done; constructor|].
  rewrite <- (Z2Nat.id n) by lia. generalize (Z.to_nat n). clear. intros k.
  revert m. induction k as [|k IH]; intros m; [rewrite seqZ_nil by done; constructor|].
  rewrite seqZ_cons by lia. replace (Z.pred (Z.of_nat (S k))) with (Z.of_nat k) by lia.
  constructor; [apply IH|].
  destruct k; [rewrite seqZ_nil by done; constructor|].
  rewrite seqZ_cons by lia. constructor. lia.
Qed.

Lemma invalidOrder_false_iff (order : list Z) :
  invalidOrder order = false ↔ order ≡ₚ seqZ 0 (Z.of_nat (length order)).
Proof.
  unfold invalidOrder, sort_Ints. rewrite invalidOrder_loop_false.
  pose proof (merge_sort_Permutation Z.le order) as Hperm.
  rewrite (Permutation_length Hperm). split.
  - intros Heq. by rewrite <- Heq.
  - intros Hp. apply (Sorted_unique Z.le).
    + apply (Sorted_merge_sort Z.le).
    + apply Sorted_seqZ.
    + by rewrite Hperm.
Qed.

(** [invalidOrder] accepts exactly the permutations of 0, 1, ..., n-1:
    an order with a repeated, a missing, a negative or a too large index is
    invalid, and so is nothing else. *)
Theorem invalidOrder_permutation (order : list Z) :
  invalidOrder order = false ↔ order ≡ₚ seqZ 0 (Z.of_nat (length order)).
Proof. apply invalidOrder_false_iff. Qed.

(** *** The loop of ReorderPanel *)

Lemma ReorderPanel_loop_spec (panels : list Panel) (rest : list Z) (i : nat)
    (acc : list Panel) :
  Forall (λ o, 0 ≤ o < Z.of_nat (length panels)) rest →
  (i + length rest ≤ length acc)%nat →
  ∃ out, ReorderPanel_loop panels (Z.of_nat i) rest acc = Returns out
         ∧ length out = length acc
         ∧ take i out = take i acc
         ∧ Forall2 (λ o p, panels !! Z.to_nat o = Some p) rest
                   (take (length rest) (drop i out)).
Proof.
  revert i acc. induction rest as [|o rest IH]; intros i acc Hall Hlen.
  - exists acc. simpl. split_and!; [done..|]. rewrite take_0. constructor.
  - apply Forall_cons in Hall as [Ho Hall]. simpl in Hlen.
    destruct (lookup_lt_is_Some_2 panels (Z.to_nat o)) as [p Hp]; [lia|].
    destruct (lookup_lt_is_Some_2 acc i) as [q Hq]; [lia|].
    cbn [ReorderPanel_loop].
    rewrite (slice_load_Some panels o p) by (done || lia). simpl.
    rewrite (slice_store_Some acc (Z.of_nat i) q) by (rewrite ?Nat2Z.id; done || lia).
    simpl. rewrite Nat2Z.id.
    replace (Z.of_nat i + 1) with (Z.of_nat (S i)) by lia.
    destruct (IH (S i) (<[i := p]> acc) Hall) as (out & Hout & Hl & Ht & Hf).
    { rewrite length_insert. lia. }
    exists out. rewrite length_insert in Hl. split_and!; [done..| |].
    + assert (Hmin : Nat.min i (S i) = i) by lia.
      rewrite <- Hmin at 1. rewrite <- (take_take out i (S i)), Ht.
      rewrite take_take, Hmin. by apply take_insert_ge.
    + assert (Hi : out !! i = Some p).
      { rewrite <- (lookup_take_lt out (S i)) by lia. rewrite Ht.
        rewrite lookup_take_lt by lia. apply list_lookup_insert_eq.
        by eapply lookup_lt_Some. }
      rewrite (drop_S out p i Hi). simpl. constructor; [done|]. exact Hf.
Qed.

Section edits.

Context {Tree : Type}.
Variable getNodeIDByNS : Tree → string → error + string.
Variable getByteFromStore : Tree → string → string → error + string.
Variable setByteToStore : Tree → string → string → string → Tree * option error.
Variable json_Unmarshal : string → error + list Dashboard.
Variable json_Marshal : list Dashboard → error + string.

Local Abbreviation GetDashboard := (GetDashboard getNodeIDByNS getByteFromStore json_Unmarshal).
Local Abbreviation SetDashboard := (SetDashboard getNodeIDByNS setByteToStore json_Marshal).
Local Abbreviation UpdateDashboard :=
  (UpdateDashboard getNodeIDByNS getByteFromStore setByteToStore json_Unmarshal json_Marshal).
Local Abbreviation RemoveDashboard :=
  (RemoveDashboard getNodeIDByNS getByteFromStore setByteToStore json_Unmarshal json_Marshal).
Local Abbreviation ReorderPanel :=
  (ReorderPanel getNodeIDByNS getByteFromStore setByteToStore json_Unmarshal json_Marshal).
Local Abbreviation AddPanel :=
  (AddPanel getNodeIDByNS getByteFromStore setByteToStore json_Unmarshal json_Marshal).
Local Abbreviation UpdatePanel :=
  (UpdatePanel getNodeIDByNS getByteFromStore setByteToStore json_Unmarshal json_Marshal).
Local Abbreviation RemovePanel :=
  (RemovePanel getNodeIDByNS getByteFromStore setByteToStore json_Unmarshal json_Marshal).
Local Abbreviation AppendTarget :=
  (AppendTarget getNodeIDByNS getByteFromStore setByteToStore json_Unmarshal json_Marshal).
Local Abbreviation UpdateTarget :=
  (UpdateTarget getNodeIDByNS getByteFromStore setByteToStore json_Unmarshal json_Marshal).
Local Abbreviation RemoveTarget :=
  (RemoveTarget getNodeIDByNS getByteFromStore setByteToStore json_Unmarshal json_Marshal).

(** [ReorderPanel] with an index that is not negative.  An index past the
    dashboards gives [ErrInvalidParam].  Otherwise, if [newOrder] has the
    length of the panel list and is a permutation of 0..n-1, the dashboards
    are written back with dashboard [dIndex] holding, at every position i,
    the old panel number [newOrder[i]] (so the new panel list is a
    permutation of the old one); if not, an error is returned and nothing
    is written. *)
Theorem ReorderPanel_spec (t : Tree) (ns : string) (dIndex : Z) (newOrder : list Z)
    (ds : list Dashboard) :
  GetDashboard t ns = inr ds → 0 ≤ dIndex →
  match ds !! Z.to_nat dIndex with
  | None => ReorderPanel t ns dIndex newOrder = Returns (t, Some ErrInvalidParam)
  | Some d =>
      (length (Panels d) = length newOrder
       ∧ newOrder ≡ₚ seqZ 0 (Z.of_nat (length newOrder)) →
       ∃ newPanels,
         ReorderPanel t ns dIndex newOrder
           = Returns (SetDashboard t ns
                        (<[Z.to_nat dIndex := MkDashboard (Title d) newPanels]> ds))
         ∧ Forall2 (λ o p, Panels d !! Z.to_nat o = Some p) newOrder newPanels
         ∧ newPanels ≡ₚ Panels d)
      ∧ (¬ (length (Panels d) = length newOrder
            ∧ newOrder ≡ₚ seqZ 0 (Z.of_nat (length newOrder))) →
         ∃ msg, ReorderPanel t ns dIndex newOrder = Returns (t, Some (errors_New msg)))
  end.
Proof.
  intros Hget Hi. unfold Dashboards.ReorderPanel. rewrite Hget.
  rewrite empty_or_bound_check by done.
  destruct (ds !! Z.to_nat dIndex) as [d|] eqn:Hd; [|done].
  rewrite bool_decide_eq_false_2 by done.
  rewrite (slice_load_Some ds dIndex d) by done. cbn [bind].
  destruct (Z.eqb_spec (Z.of_nat (length (Panels d))) (Z.of_nat (length newOrder)))
    as [Hlen|Hlen]; cbn [negb].
  2:{ split; [intros [? _]; lia|]. intros _. by eexists. }
  apply Nat2Z.inj in Hlen.
  destruct (invalidOrder newOrder) eqn:Hinv.
  { split.
    - intros [_ Hp]. apply invalidOrder_false_iff in Hp. congruence.
    - intros _. by eexists. }
  apply invalidOrder_false_iff in Hinv. split; [|by intros []].
  intros _.
  assert (Hrange : Forall (λ o, 0 ≤ o < Z.of_nat (length (Panels d))) newOrder).
  { rewrite Forall_forall. intros o Ho. rewrite Hinv in Ho.
    apply elem_of_seqZ in Ho. lia. }
  destruct (ReorderPanel_loop_spec (Panels d) newOrder 0
              (make_Panels (length (Panels d))) Hrange) as (out & Hout & Hl & _ & Hf).
  { unfold make_Panels. rewrite length_replicate. simpl. lia. }
  change (Z.of_nat 0) with 0 in Hout. rewrite Hout. cbn [bind].
  rewrite (slice_store_Some ds dIndex d) by done. cbn [bind].
  unfold make_Panels in Hl. rewrite length_replicate in Hl.
  rewrite drop_0, take_ge in Hf by lia.
  exists out. split_and!; [done..|].
  set (f := λ o : Z, default (MkPanel "" "" []) (Panels d !! Z.to_nat o)).
  assert (Hout_f : out = f <$> newOrder).
  { clear -Hf. induction Hf as [|o p os ps Hop _ IH]; [done|].
    rewrite fmap_cons, <- IH. unfold f. by rewrite Hop. }
  assert (Heq : f <$> seqZ 0 (Z.of_nat (length (Panels d))) = Panels d).
  { apply list_eq. intros j. rewrite list_lookup_fmap.
    destruct (Panels d !! j) as [p|] eqn:Hp.
    - apply lookup_lt_Some in Hp as Hlt.
      rewrite lookup_seqZ_lt by lia. simpl. unfold f.
      replace (Z.to_nat (0 + Z.of_nat j)) with j by lia. by rewrite Hp.
    - apply lookup_ge_None in Hp. rewrite lookup_seqZ_ge; [done|]. lia. }
  by rewrite Hout_f, Hinv, <- Hlen, Heq.
Qed.

(** [RemoveDashboard] when the dashboards read back: a negative index
    panics in the slicing, an index past the end returns nil without
    writing, and an index in range writes the list back without the
    dashboard at that index. *)
Theorem RemoveDashboard_spec (t : Tree) (ns : string) (dIndex : Z)
    (ds : list Dashboard) :
  GetDashboard t ns = inr ds →
  RemoveDashboard t ns dIndex =
    if dIndex <? 0 then Panics "slice bounds out of range"
    else if Z.of_nat (length ds) <=? dIndex then Returns (t, None)
    else Returns (SetDashboard t ns (delete (Z.to_nat dIndex) ds)).
Proof.
  intros Hget. unfold Dashboards.RemoveDashboard. rewrite Hget.
  destruct (Z.ltb_spec dIndex 0) as [Hneg|Hpos].
  - rewrite (proj2 (Z.leb_gt _ _)) by lia. unfold slice_from.
    by rewrite (proj2 (Z.leb_gt 0 dIndex)) by lia.
  - destruct (Z.leb_spec (Z.of_nat (length ds)) dIndex) as [Hge|Hlt]; [done|].
    pose proof (delete_by_copy ds dIndex (conj Hpos Hlt)) as Hdel.
    unfold bind in *.
    destruct (slice_from ds dIndex) as [dst|]; [|done].
    destruct (slice_from ds (dIndex + 1)) as [src|]; [|done].
    cbv zeta in Hdel. by rewrite Hdel.
Qed.

(** [UpdateDashboard] when the dashboards read back: an index past the end
    is refused with [ErrInvalidParam], a negative index panics, and an
    index in range writes the list back with only the title of that
    dashboard changed. *)
Theorem UpdateDashboard_spec (t : Tree) (ns title : string) (dIndex : Z)
    (ds : list Dashboard) :
  GetDashboard t ns = inr ds →
  UpdateDashboard t ns dIndex title =
    if Z.of_nat (length ds) <=? dIndex then Returns (t, Some ErrInvalidParam)
    else if dIndex <? 0 then Panics "index out of range"
    else Returns (SetDashboard t ns
                    (alter (λ d, MkDashboard title (Panels d)) (Z.to_nat dIndex) ds)).
Proof.
  intros Hget. unfold Dashboards.UpdateDashboard. rewrite Hget.
  destruct (Z.leb_spec (Z.of_nat (length ds)) dIndex) as [Hge|Hlt]; [done|].
  destruct (Z.ltb_spec dIndex 0) as [Hneg|Hpos].
  - by rewrite slice_load_negative.
  - destruct (lookup_lt_is_Some_2 ds (Z.to_nat dIndex)) as [d Hd]; [lia|].
    rewrite (slice_load_Some ds dIndex d) by done. cbn [bind].
    rewrite (slice_store_Some ds dIndex d) by done. cbn [bind].
    do 2 f_equal. apply list_eq. intros j.
    destruct (decide (j = Z.to_nat dIndex)) as [->|Hne].
    + rewrite list_lookup_insert_eq by (by eapply lookup_lt_Some).
      by rewrite list_lookup_alter_eq, Hd.
    + by rewrite list_lookup_insert_ne, list_lookup_alter_ne.
Qed.

(** What the panel and target functions do before anything else, for
    indices that are not negative: find the dashboard. *)
Lemma find_dashboard (ds : list Dashboard) (dIndex : Z) :
  0 ≤ dIndex →
  match ds !! Z.to_nat dIndex with
  | None =>
      (Z.of_nat (length ds) =? 0) || (Z.of_nat (length ds) <=? dIndex) = true
  | Some d =>
      (Z.of_nat (length ds) =? 0) || (Z.of_nat (length ds) <=? dIndex) = false
      ∧ slice_load ds dIndex = Returns d
      ∧ ∀ d', slice_store ds dIndex d' = Returns (<[Z.to_nat dIndex := d']> ds)
  end.
Proof.
  intros Hi. rewrite empty_or_bound_check by done.
  destruct (ds !! Z.to_nat dIndex) as [d|] eqn:Hd; [|done].
  split_and!; [done|by apply slice_load_Some|].
  intros d'. by apply (slice_store_Some ds dIndex d d').
Qed.

Lemma find_element {A} (l : list A) (i : Z) :
  0 ≤ i →
  match l !! Z.to_nat i with
  | None => (Z.of_nat (length l) <=? i) = true
  | Some x =>
      (Z.of_nat (length l) <=? i) = false
      ∧ slice_load l i = Returns x
      ∧ ∀ y, slice_store l i y = Returns (<[Z.to_nat i := y]> l)
  end.
Proof.
  intros Hi. rewrite bound_check by done.
  destruct (l !! Z.to_nat i) as [x|] eqn:Hx; [|done].
  split_and!; [done|by apply slice_load_Some|].
  intros y. by apply (slice_store_Some l i x y).
Qed.

Lemma set_PanelTitle_Some (d : Dashboard) (j : Z) (title : string) (p : Panel) :
  0 ≤ j → Panels d !! Z.to_nat j = Some p →
  set_PanelTitle d j title
  = Returns (MkDashboard (Title d)
               (<[Z.to_nat j := MkPanel title (GraphType p) (Targets p)]> (Panels d))).
Proof.
  intros Hj Hp. unfold set_PanelTitle.
  rewrite (slice_load_Some _ j p) by done. cbn [bind].
  by rewrite (slice_store_Some _ j p) by done.
Qed.

Lemma set_PanelGraphType_Some (d : Dashboard) (j : Z) (graphType : string) (p : Panel) :
  0 ≤ j → Panels d !! Z.to_nat j = Some p →
  set_PanelGraphType d j graphType
  = Returns (MkDashboard (Title d)
               (<[Z.to_nat j := MkPanel (PanelTitle p) graphType (Targets p)]> (Panels d))).
Proof.
  intros Hj Hp. unfold set_PanelGraphType.
  rewrite (slice_load_Some _ j p) by done. cbn [bind].
  by rewrite (slice_store_Some _ j p) by done.
Qed.

Lemma set_PanelTargets_Some (d : Dashboard) (j : Z) (targets : list string) (p : Panel) :
  0 ≤ j → Panels d !! Z.to_nat j = Some p →
  set_PanelTargets d j targets
  = Returns (MkDashboard (Title d)
               (<[Z.to_nat j := MkPanel (PanelTitle p) (GraphType p) targets]> (Panels d))).
Proof.
  intros Hj Hp. unfold set_PanelTargets.
  rewrite (slice_load_Some _ j p) by done. cbn [bind].
  by rewrite (slice_store_Some _ j p) by done.
Qed.

(** [RemovePanel] with indices that are not negative: [ErrInvalidParam],
    with nothing written, unless both indices are in range; then the
    dashboards are written back without that one panel. *)
Theorem RemovePanel_spec (t : Tree) (ns : string) (dIndex panelIndex : Z)
    (ds : list Dashboard) :
  GetDashboard t ns = inr ds → 0 ≤ dIndex → 0 ≤ panelIndex →
  RemovePanel t ns dIndex panelIndex =
    match ds !! Z.to_nat dIndex with
    | None => Returns (t, Some ErrInvalidParam)
    | Some d =>
        match Panels d !! Z.to_nat panelIndex with
        | None => Returns (t, Some ErrInvalidParam)
        | Some _ =>
            Returns (SetDashboard t ns
              (<[Z.to_nat dIndex :=
                   MkDashboard (Title d) (delete (Z.to_nat panelIndex) (Panels d))]> ds))
        end
    end.
Proof.
  intros Hget Hi Hj. unfold Dashboards.RemovePanel. rewrite Hget.
  pose proof (find_dashboard ds dIndex Hi) as Hd.
  destruct (ds !! Z.to_nat dIndex) as [d|]; [|by rewrite Hd].
  destruct Hd as (-> & -> & Hst). cbn [bind].
  pose proof (find_element (Panels d) panelIndex Hj) as Hp.
  destruct (Panels d !! Z.to_nat panelIndex) as [p|] eqn:Hpj; [|by rewrite Hp].
  destruct Hp as (-> & _ & _).
  apply lookup_lt_Some in Hpj.
  assert (Hdel := delete_by_copy (Panels d) panelIndex ltac:(lia)).
  unfold bind in *.
  destruct (slice_from (Panels d) panelIndex) as [dst|]; [|done].
  destruct (slice_from (Panels d) (panelIndex + 1)) as [src|]; [|done].
  cbv zeta in Hdel. rewrite Hdel. by rewrite Hst.
Qed.

(** [UpdatePanel] with indices that are not negative: [ErrInvalidParam]
    unless both are in range; then the panel is written back with the new
    title and graph type, an empty string leaving the field as it was, and
    with its targets untouched. *)
Theorem UpdatePanel_spec (t : Tree) (ns : string) (dIndex panelIndex : Z)
    (title graphType : string) (ds : list Dashboard) :
  GetDashboard t ns = inr ds → 0 ≤ dIndex → 0 ≤ panelIndex →
  UpdatePanel t ns dIndex panelIndex title graphType =
    match ds !! Z.to_nat dIndex with
    | None => Returns (t, Some ErrInvalidParam)
    | Some d =>
        match Panels d !! Z.to_nat panelIndex with
        | None => Returns (t, Some ErrInvalidParam)
        | Some p =>
            let p' := MkPanel (if String.eqb title "" then PanelTitle p else title)
                              (if String.eqb graphType "" then GraphType p else graphType)
                              (Targets p) in
            Returns (SetDashboard t ns
              (<[Z.to_nat dIndex :=
                   MkDashboard (Title d) (<[Z.to_nat panelIndex := p']> (Panels d))]> ds))
        end
    end.
Proof.
  intros Hget Hi Hj. unfold Dashboards.UpdatePanel. rewrite Hget.
  pose proof (find_dashboard ds dIndex Hi) as Hd.
  destruct (ds !! Z.to_nat dIndex) as [d|]; [|by rewrite Hd].
  destruct Hd as (-> & -> & Hst). cbn [bind].
  pose proof (find_element (Panels d) panelIndex Hj) as Hp.
  destruct (Panels d !! Z.to_nat panelIndex) as [p|] eqn:Hpj; [|by rewrite Hp].
  destruct Hp as (-> & Hld & Hstp).
  clear Hld Hstp.
  assert (Hlt : (Z.to_nat panelIndex < length (Panels d))%nat)
    by by eapply lookup_lt_Some.
  destruct (String.eqb title "") eqn:Et, (String.eqb graphType "") eqn:Eg;
    cbn [negb bind].
  - rewrite Hst. destruct d as [dt ps], p as [pt gt tg]. simpl in *.
    by rewrite (list_insert_id ps _ _ Hpj).
  - rewrite (set_PanelGraphType_Some d panelIndex graphType p Hj Hpj).
    cbn [bind]. by rewrite Hst.
  - rewrite (set_PanelTitle_Some d panelIndex title p Hj Hpj).
    cbn [bind]. by rewrite Hst.
  - rewrite (set_PanelTitle_Some d panelIndex title p Hj Hpj). cbn [bind].
    rewrite (set_PanelGraphType_Some _ panelIndex graphType
               (MkPanel title (GraphType p) (Targets p)) Hj)
      by (by apply list_lookup_insert_eq).
    cbn [bind Title Panels PanelTitle Targets]. rewrite Hst.
    by rewrite list_insert_insert_eq.
Qed.

(** [RemoveTarget] with indices that are not negative: [ErrInvalidParam]
    unless all three are in range; then the target is cut out of the
    panel's list, whether or not it is the last one. *)
Theorem RemoveTarget_spec (t : Tree) (ns : string) (dIndex panelIndex targetIndex : Z)
    (ds : list Dashboard) :
  GetDashboard t ns = inr ds → 0 ≤ dIndex → 0 ≤ panelIndex → 0 ≤ targetIndex →
  RemoveTarget t ns dIndex panelIndex targetIndex =
    match ds !! Z.to_nat dIndex with
    | None => Returns (t, Some ErrInvalidParam)
    | Some d =>
        match Panels d !! Z.to_nat panelIndex with
        | None => Returns (t, Some ErrInvalidParam)
        | Some p =>
            match Targets p !! Z.to_nat targetIndex with
            | None => Returns (t, Some ErrInvalidParam)
            | Some _ =>
                let p' := MkPanel (PanelTitle p) (GraphType p)
                                  (delete (Z.to_nat targetIndex) (Targets p)) in
                Returns (SetDashboard t ns
                  (<[Z.to_nat dIndex :=
                       MkDashboard (Title d) (<[Z.to_nat panelIndex := p']> (Panels d))]> ds))
            end
        end
    end.
Proof.
  intros Hget Hi Hj Hk. unfold Dashboards.RemoveTarget. rewrite Hget.
  pose proof (find_dashboard ds dIndex Hi) as Hd.
  destruct (ds !! Z.to_nat dIndex) as [d|]; [|by rewrite Hd].
  destruct Hd as (-> & -> & Hst). cbn [bind].
  pose proof (find_element (Panels d) panelIndex Hj) as Hp.
  destruct (Panels d !! Z.to_nat panelIndex) as [p|] eqn:Hpj; [|by rewrite Hp].
  destruct Hp as (-> & Hld & Hstp). rewrite Hld. cbn [bind].
  pose proof (find_element (Targets p) targetIndex Hk) as Ht.
  destruct (Targets p !! Z.to_nat targetIndex) as [x|] eqn:Htk; [|by rewrite Ht].
  destruct Ht as (-> & _ & _). apply lookup_lt_Some in Htk.
  assert (Hcut : bind
            (if targetIndex + 1 <? Z.of_nat (length (Targets p))
             then bind (slice_from (Targets p) targetIndex) (fun dst =>
                    bind (slice_from (Targets p) (targetIndex + 1)) (fun src =>
                      Returns (take (Z.to_nat targetIndex) (Targets p) ++ copy dst src)))
             else Returns (Targets p))
            (fun targets => slice_to targets (Z.of_nat (length targets) - 1))
          = Returns (delete (Z.to_nat targetIndex) (Targets p))).
  { destruct (Z.ltb_spec (targetIndex + 1) (Z.of_nat (length (Targets p)))) as [Hlt|Hge].
    - assert (Hdel := delete_by_copy (Targets p) targetIndex ltac:(lia)).
      unfold bind in *.
      destruct (slice_from (Targets p) targetIndex) as [dst|]; [|done].
      destruct (slice_from (Targets p) (targetIndex + 1)) as [src|]; [|done].
      cbv zeta in Hdel. by rewrite Hdel.
    - cbn [bind]. unfold slice_to.
      rewrite (proj2 (Z.leb_le 0 _)), (proj2 (Z.leb_le _ _)) by lia. simpl.
      f_equal. rewrite delete_take_drop.
      replace (Z.to_nat (Z.of_nat (length (Targets p)) - 1)) with (Z.to_nat targetIndex)
        by lia.
      rewrite (drop_ge (Targets p)) by lia. by rewrite app_nil_r. }
  unfold bind in *.
  destruct (if targetIndex + 1 <? _ then _ else _) as [targets|]; [|done].
  rewrite Hcut. rewrite (set_PanelTargets_Some d panelIndex _ p Hj Hpj).
  by rewrite Hst.
Qed.

(** [AddPanel] and [AppendTarget] with indices that are not negative:
    [ErrInvalidParam] unless the indices are in range; then the new panel
    (target) is put at the end of the dashboard's panels (the panel's
    targets) and everything else is written back as it was. *)
Theorem append_spec (t : Tree) (ns : string) (dIndex panelIndex : Z)
    (panel : Panel) (target : string) (ds : list Dashboard) :
  GetDashboard t ns = inr ds → 0 ≤ dIndex → 0 ≤ panelIndex →
  AddPanel t ns dIndex panel =
    match ds !! Z.to_nat dIndex with
    | None => Returns (t, Some ErrInvalidParam)
    | Some d =>
        Returns (SetDashboard t ns
          (<[Z.to_nat dIndex := MkDashboard (Title d) (Panels d ++ [panel])]> ds))
    end
  ∧ AppendTarget t ns dIndex panelIndex target =
    match ds !! Z.to_nat dIndex with
    | None => Returns (t, Some ErrInvalidParam)
    | Some d =>
        match Panels d !! Z.to_nat panelIndex with
        | None => Returns (t, Some ErrInvalidParam)
        | Some p =>
            let p' := MkPanel (PanelTitle p) (GraphType p) (Targets p ++ [target]) in
            Returns (SetDashboard t ns
              (<[Z.to_nat dIndex :=
                   MkDashboard (Title d) (<[Z.to_nat panelIndex := p']> (Panels d))]> ds))
        end
    end.
Proof.
  intros Hget Hi Hj. unfold Dashboards.AddPanel, Dashboards.AppendTarget.
  rewrite Hget. pose proof (find_dashboard ds dIndex Hi) as Hd.
  destruct (ds !! Z.to_nat dIndex) as [d|]; [|by rewrite Hd].
  destruct Hd as (-> & -> & Hst). cbn [bind]. split; [by rewrite Hst|].
  pose proof (find_element (Panels d) panelIndex Hj) as Hp.
  destruct (Panels d !! Z.to_nat panelIndex) as [p|] eqn:Hpj; [|by rewrite Hp].
  destruct Hp as (-> & -> & _). cbn [bind].
  rewrite (set_PanelTargets_Some d panelIndex _ p Hj Hpj). cbn [bind].
  by rewrite Hst.
Qed.

(** [UpdateTarget] with indices that are not negative: [ErrInvalidParam]
    unless all three are in range; then that one target is replaced. *)
Theorem UpdateTarget_spec (t : Tree) (ns : string) (dIndex panelIndex targetIndex : Z)
    (target : string) (ds : list Dashboard) :
  GetDashboard t ns = inr ds → 0 ≤ dIndex → 0 ≤ panelIndex → 0 ≤ targetIndex →
  UpdateTarget t ns dIndex panelIndex targetIndex target =
    match ds !! Z.to_nat dIndex with
    | None => Returns (t, Some ErrInvalidParam)
    | Some d =>
        match Panels d !! Z.to_nat panelIndex with
        | None => Returns (t, Some ErrInvalidParam)
        | Some p =>
            match Targets p !! Z.to_nat targetIndex with
            | None => Returns (t, Some ErrInvalidParam)
            | Some _ =>
                let p' := MkPanel (PanelTitle p) (GraphType p)
                                  (<[Z.to_nat targetIndex := target]> (Targets p)) in
                Returns (SetDashboard t ns
                  (<[Z.to_nat dIndex :=
                       MkDashboard (Title d) (<[Z.to_nat panelIndex := p']> (Panels d))]> ds))
            end
        end
    end.
Proof.
  intros Hget Hi Hj Hk. unfold Dashboards.UpdateTarget. rewrite Hget.
  pose proof (find_dashboard ds dIndex Hi) as Hd.
  destruct (ds !! Z.to_nat dIndex) as [d|]; [|by rewrite Hd].
  destruct Hd as (-> & -> & Hst). cbn [bind].
  pose proof (find_element (Panels d) panelIndex Hj) as Hp.
  destruct (Panels d !! Z.to_nat panelIndex) as [p|] eqn:Hpj; [|by rewrite Hp].
  destruct Hp as (-> & -> & _). cbn [bind].
  pose proof (find_element (Targets p) targetIndex Hk) as Ht.
  destruct (Targets p !! Z.to_nat targetIndex) as [x|] eqn:Htk; [|by rewrite Ht].
  destruct Ht as (-> & _ & ->). cbn [bind].
  rewrite (set_PanelTargets_Some d panelIndex _ p Hj Hpj). cbn [bind].
  by rewrite Hst.
Qed.

(** None of the panel and target functions checks the dashboard index from
    below: on a namespace that has dashboards, a negative [dIndex] passes
    the range check and the first indexing panics. *)
Theorem negative_dIndex_panics (t : Tree) (ns : string) (dIndex panelIndex targetIndex : Z)
    (panel : Panel) (title graphType target : string) (ds : list Dashboard) :
  GetDashboard t ns = inr ds → ds ≠ [] → dIndex < 0 →
  AddPanel t ns dIndex panel = Panics "index out of range"
  ∧ UpdatePanel t ns dIndex panelIndex title graphType = Panics "index out of range"
  ∧ RemovePanel t ns dIndex panelIndex = Panics "index out of range"
  ∧ AppendTarget t ns dIndex panelIndex target = Panics "index out of range"
  ∧ UpdateTarget t ns dIndex panelIndex targetIndex target = Panics "index out of range"
  ∧ RemoveTarget t ns dIndex panelIndex targetIndex = Panics "index out of range".
Proof.
  intros Hget Hne Hneg.
  unfold Dashboards.AddPanel, Dashboards.UpdatePanel, Dashboards.RemovePanel,
    Dashboards.AppendTarget, Dashboards.UpdateTarget, Dashboards.RemoveTarget.
  rewrite Hget.
  assert ((Z.of_nat (length ds) =? 0) = false) as ->.
  { apply Z.eqb_neq. destruct ds; [done|]. simpl. lia. }
  assert ((Z.of_nat (length ds) <=? dIndex) = false) as -> by (apply Z.leb_gt; lia).
  rewrite slice_load_negative by done. done.
Qed.

(** A failure to read the dashboards is passed on as it is by
    [AddDashboard], [UpdateDashboard] and [RemoveDashboard], and replaced by
    [ErrInvalidParam] by the panel and target functions; none of them
    writes. *)
Theorem read_failure (t : Tree) (ns : string) (dIndex panelIndex targetIndex : Z)
    (d : Dashboard) (panel : Panel) (title graphType target : string)
    (newOrder : list Z) (err : error) :
  GetDashboard t ns = inl err →
  AddDashboard getNodeIDByNS getByteFromStore setByteToStore json_Unmarshal json_Marshal
    t ns d = (t, Some err)
  ∧ UpdateDashboard t ns dIndex title = Returns (t, Some err)
  ∧ RemoveDashboard t ns dIndex = Returns (t, Some err)
  ∧ ReorderPanel t ns dIndex newOrder = Returns (t, Some ErrInvalidParam)
  ∧ AddPanel t ns dIndex panel = Returns (t, Some ErrInvalidParam)
  ∧ UpdatePanel t ns dIndex panelIndex title graphType = Returns (t, Some ErrInvalidParam)
  ∧ RemovePanel t ns dIndex panelIndex = Returns (t, Some ErrInvalidParam)
  ∧ AppendTarget t ns dIndex panelIndex target = Returns (t, Some ErrInvalidParam)
  ∧ UpdateTarget t ns dIndex panelIndex targetIndex target
    = Returns (t, Some ErrInvalidParam)
  ∧ RemoveTarget t ns dIndex panelIndex targetIndex = Returns (t, Some ErrInvalidParam).
Proof.
  intros Hget.
  unfold Dashboards.AddDashboard, Dashboards.UpdateDashboard, Dashboards.RemoveDashboard,
    Dashboards.ReorderPanel, Dashboards.AddPanel, Dashboards.UpdatePanel,
    Dashboards.RemovePanel, Dashboards.AppendTarget, Dashboards.UpdateTarget,
    Dashboards.RemoveTarget.
  by rewrite Hget.
Qed.

End edits.

(** *** The theorems above on the tree "host_and_net" *)

Lemma host_and_net_dashboards :
  Fixtures.tbl_GetDashboard Fixtures.host_and_net "ns"
  = inr (Fixtures.board [Fixtures.panel_a; Fixtures.panel_b; Fixtures.panel_c]).
Proof. by vm_compute. Qed.

Lemma ReorderPanel_spec_witness :
  ∃ newPanels,
    Fixtures.tbl_ReorderPanel Fixtures.host_and_net "ns" 0 [2; 0; 1]
    = Returns (Fixtures.tbl_SetDashboard Fixtures.host_and_net "ns"
                 (<[0%nat := MkDashboard "host" newPanels]>
                    (Fixtures.board [Fixtures.panel_a; Fixtures.panel_b; Fixtures.panel_c])))
    ∧ Forall2 (λ o p, [Fixtures.panel_a; Fixtures.panel_b; Fixtures.panel_c]
                        !! Z.to_nat o = Some p) [2; 0; 1] newPanels
    ∧ newPanels ≡ₚ [Fixtures.panel_a; Fixtures.panel_b; Fixtures.panel_c].
Proof.
  pose proof (ReorderPanel_spec Fixtures.table_getNodeIDByNS Fixtures.table_getByteFromStore
                Fixtures.table_setByteToStore Fixtures.named_Unmarshal
                Fixtures.named_Marshal Fixtures.host_and_net "ns" 0 [2; 0; 1] _
                host_and_net_dashboards ltac:(lia)) as [H _].
  apply H. split; [done|]. apply (invalidOrder_false_iff [2; 0; 1]). by vm_compute.
Defined.

Lemma RemoveDashboard_spec_witness :
  Fixtures.tbl_RemoveDashboard Fixtures.host_and_net "ns" 0
  = Returns (Fixtures.tbl_SetDashboard Fixtures.host_and_net "ns"
               [MkDashboard "net" []]).
Proof.
  exact (RemoveDashboard_spec Fixtures.table_getNodeIDByNS Fixtures.table_getByteFromStore
           Fixtures.table_setByteToStore Fixtures.named_Unmarshal
           Fixtures.named_Marshal Fixtures.host_and_net "ns" 0 _
           host_and_net_dashboards).
Defined.

Lemma UpdateDashboard_spec_witness :
  Fixtures.tbl_UpdateDashboard Fixtures.host_and_net "ns" 1 "network"
  = Returns (Fixtures.tbl_SetDashboard Fixtures.host_and_net "ns"
               [MkDashboard "host" [Fixtures.panel_a; Fixtures.panel_b; Fixtures.panel_c];
                MkDashboard "network" []]).
Proof.
  exact (UpdateDashboard_spec Fixtures.table_getNodeIDByNS Fixtures.table_getByteFromStore
           Fixtures.table_setByteToStore Fixtures.named_Unmarshal
           Fixtures.named_Marshal Fixtures.host_and_net "ns" "network" 1 _
           host_and_net_dashboards).
Defined.

Lemma RemovePanel_spec_witness :
  Fixtures.tbl_RemovePanel Fixtures.host_and_net "ns" 0 1
  = Returns (Fixtures.tbl_SetDashboard Fixtures.host_and_net "ns"
               (Fixtures.board [Fixtures.panel_a; Fixtures.panel_c])).
Proof.
  exact (RemovePanel_spec Fixtures.table_getNodeIDByNS Fixtures.table_getByteFromStore
           Fixtures.table_setByteToStore Fixtures.named_Unmarshal
           Fixtures.named_Marshal Fixtures.host_and_net "ns" 0 1 _
           host_and_net_dashboards ltac:(lia) ltac:(lia)).
Defined.

Lemma UpdatePanel_spec_witness :
  Fixtures.tbl_UpdatePanel Fixtures.host_and_net "ns" 0 1 "" "line"
  = Returns (Fixtures.tbl_SetDashboard Fixtures.host_and_net "ns"
               (Fixtures.board [Fixtures.panel_a; MkPanel "mem" "line" [];
                                Fixtures.panel_c])).
Proof.
  exact (UpdatePanel_spec Fixtures.table_getNodeIDByNS Fixtures.table_getByteFromStore
           Fixtures.table_setByteToStore Fixtures.named_Unmarshal
           Fixtures.named_Marshal Fixtures.host_and_net "ns" 0 1 "" "line" _
           host_and_net_dashboards ltac:(lia) ltac:(lia)).
Defined.

Lemma RemoveTarget_spec_witness :
  Fixtures.tbl_RemoveTarget Fixtures.host_and_net "ns" 0 0 1
  = Returns (Fixtures.tbl_SetDashboard Fixtures.host_and_net "ns"
               (Fixtures.board [MkPanel "load" "line" ["t1"]; Fixtures.panel_b;
                                Fixtures.panel_c])).
Proof.
  exact (RemoveTarget_spec Fixtures.table_getNodeIDByNS Fixtures.table_getByteFromStore
           Fixtures.table_setByteToStore Fixtures.named_Unmarshal
           Fixtures.named_Marshal Fixtures.host_and_net "ns" 0 0 1 _
           host_and_net_dashboards ltac:(lia) ltac:(lia) ltac:(lia)).
Defined.

Lemma append_spec_witness :
  Fixtures.tbl_AddPanel Fixtures.host_and_net "ns" 1 Fixtures.panel_b
  = Returns (Fixtures.tbl_SetDashboard Fixtures.host_and_net "ns"
               [MkDashboard "host" [Fixtures.panel_a; Fixtures.panel_b; Fixtures.panel_c];
                MkDashboard "net" [Fixtures.panel_b]])
  ∧ Fixtures.tbl_AppendTarget Fixtures.host_and_net "ns" 1 0 "t9"
  = Returns (Fixtures.host_and_net, Some ErrInvalidParam).
Proof.
  exact (append_spec Fixtures.table_getNodeIDByNS Fixtures.table_getByteFromStore
           Fixtures.table_setByteToStore Fixtures.named_Unmarshal
           Fixtures.named_Marshal Fixtures.host_and_net "ns" 1 0 Fixtures.panel_b "t9" _
           host_and_net_dashboards ltac:(lia) ltac:(lia)).
Defined.

Lemma UpdateTarget_spec_witness :
  Fixtures.tbl_UpdateTarget Fixtures.host_and_net "ns" 0 0 0 "t0"
  = Returns (Fixtures.tbl_SetDashboard Fixtures.host_and_net "ns"
               (Fixtures.board [MkPanel "load" "line" ["t0"; "t2"]; Fixtures.panel_b;
                                Fixtures.panel_c])).
Proof.
  exact (UpdateTarget_spec Fixtures.table_getNodeIDByNS Fixtures.table_getByteFromStore
           Fixtures.table_setByteToStore Fixtures.named_Unmarshal
           Fixtures.named_Marshal Fixtures.host_and_net "ns" 0 0 0 "t0" _
           host_and_net_dashboards ltac:(lia) ltac:(lia) ltac:(lia)).
Defined.

Lemma negative_dIndex_panics_witness :
  Fixtures.tbl_AddPanel Fixtures.host_and_net "ns" (-1) Fixtures.panel_a
    = Panics "index out of range"
  ∧ Fixtures.tbl_UpdatePanel Fixtures.host_and_net "ns" (-1) 0 "x" "y"
    = Panics "index out of range"
  ∧ Fixtures.tbl_RemovePanel Fixtures.host_and_net "ns" (-1) 0
    = Panics "index out of range"
  ∧ Fixtures.tbl_AppendTarget Fixtures.host_and_net "ns" (-1) 0 "t"
    = Panics "index out of range"
  ∧ Fixtures.tbl_UpdateTarget Fixtures.host_and_net "ns" (-1) 0 0 "t"
    = Panics "index out of range"
  ∧ Fixtures.tbl_RemoveTarget Fixtures.host_and_net "ns" (-1) 0 0
    = Panics "index out of range".
Proof.
  exact (negative_dIndex_panics Fixtures.table_getNodeIDByNS Fixtures.table_getByteFromStore
           Fixtures.table_setByteToStore Fixtures.named_Unmarshal
           Fixtures.named_Marshal Fixtures.host_and_net "ns" (-1) 0 0 Fixtures.panel_a
           "x" "y" "t" _ host_and_net_dashboards ltac:(done) ltac:(lia)).
Defined.

Lemma read_failure_witness :
  let t := Fixtures.garbled in
  let err := ErrJSON "invalid character" in
  Fixtures.tbl_GetDashboard t "ns" = inl err
  ∧ Dashboards.AddDashboard Fixtures.table_getNodeIDByNS Fixtures.table_getByteFromStore
      Fixtures.table_setByteToStore Fixtures.named_Unmarshal Fixtures.named_Marshal
      t "ns" (MkDashboard "host" []) = (t, Some err)
  ∧ Fixtures.tbl_UpdateDashboard t "ns" 0 "x" = Returns (t, Some err)
  ∧ Fixtures.tbl_RemoveDashboard t "ns" 0 = Returns (t, Some err)
  ∧ Fixtures.tbl_ReorderPanel t "ns" 0 [0] = Returns (t, Some ErrInvalidParam)
  ∧ Fixtures.tbl_AddPanel t "ns" 0 Fixtures.panel_a = Returns (t, Some ErrInvalidParam)
  ∧ Fixtures.tbl_UpdatePanel t "ns" 0 0 "x" "y" = Returns (t, Some ErrInvalidParam)
  ∧ Fixtures.tbl_RemovePanel t "ns" 0 0 = Returns (t, Some ErrInvalidParam)
  ∧ Fixtures.tbl_AppendTarget t "ns" 0 0 "t" = Returns (t, Some ErrInvalidParam)
  ∧ Fixtures.tbl_UpdateTarget t "ns" 0 0 0 "t" = Returns (t, Some ErrInvalidParam)
  ∧ Fixtures.tbl_RemoveTarget t "ns" 0 0 0 = Returns (t, Some ErrInvalidParam).
Proof.
  cbv zeta.
  assert (H : Fixtures.tbl_GetDashboard Fixtures.garbled "ns"
              = inl (ErrJSON "invalid character")) by by vm_compute.
  split; [done|].
  exact (read_failure Fixtures.table_getNodeIDByNS Fixtures.table_getByteFromStore
           Fixtures.table_setByteToStore Fixtures.named_Unmarshal
           Fixtures.named_Marshal Fixtures.garbled "ns" 0 0 0 (MkDashboard "host" [])
           Fixtures.panel_a "x" "y" "t" [0] _ H).
Defined.

End DashboardProofs.
